(** * Clay masked autoencoder (src/model_clay_v1.py): a shallow embedding

    Tensors are nested lists.  Floating-point tensor elements are idealised
    as real numbers ([R]): rounding, overflow and non-finite elements are
    outside the model.  The quantities that decide control flow (the mask
    ratio and the random scores that are sorted) are rationals ([Q]), every
    finite float being one, so that the masking engine stays executable.
    The product [mask_ratio * num_patches], whose truncation is the number
    of masked patches, is the floating-point product: the exact product
    rounded to the nearest double ([mul_float_int]), so that the ratio 0.7
    masks 70 patches of 100, where the exact product of the double 0.7 and
    100 lies below 70.  That rounding has no largest exponent: a product
    beyond the largest double, on which Python's [int] raises
    OverflowError, is outside the model.  The scalar loss is a
    [float_val], because the division by [sum(mask)] is the one whose
    divisor the configuration can make zero, and a NaN comes out of it
    without an exception.

    Python exceptions are values of [exception]; a call that may raise
    returns a [result].  Objects whose methods assign attributes are
    records that the methods return updated. *)

From Stdlib Require Import ZArith QArith Qround Qabs Reals Lra Lia Ascii.
From stdpp Require Import base option list sorting strings gmap pretty.

Local Open Scope Z_scope.
Local Open Scope nat_scope.

(** ** Exceptions and the error monad *)

Inductive exception : Type :=
  | ValueError (msg : string)
  | AttributeError (msg : string)
  | IndexError (msg : string)
  | RuntimeError (msg : string)
  | AssertionError
  | EinopsError (msg : string)
  | NotImplementedError (msg : string)
  | TypeError (msg : string).

Inductive result (A : Type) : Type :=
  | Ok (a : A)
  | Raise (e : exception).
Arguments Ok {A} a.
Arguments Raise {A} e.

Global Instance result_ret : MRet result := λ A a, Ok a.
Global Instance result_bind : MBind result := λ A B f r,
  match r with
  | Ok a => f a
  | Raise e => Raise e
  end.
Global Instance result_fmap : FMap result := λ A B f r,
  match r with
  | Ok a => Ok (f a)
  | Raise e => Raise e
  end.

Definition is_Ok {A} (r : result A) : Prop := ∃ a, r = Ok a.

Definition from_lookup {A} (o : option A) (e : exception) : result A :=
  match o with
  | Some a => Ok a
  | None => Raise e
  end.

(** ** Python and torch primitives *)

(** [int(x)] on a float: truncation towards zero. *)
Definition int (x : Q) : Z := Z.quot (Qnum x) (Z.pos (Qden x)).

(** The integer nearest to [x], a tie going to the even neighbour. *)
Definition rint (x : Q) : Z :=
  let f := Qfloor x in
  match (x - inject_Z f ?= 1 # 2)%Q with
  | Lt => f
  | Gt => (f + 1)%Z
  | Eq => if Z.even f then f else (f + 1)%Z
  end.

(** [x * 2 ** e] *)
Definition ldexp (x : Q) (e : Z) : Q :=
  if (0 <=? e)%Z then (x * inject_Z (2 ^ e))%Q else (x / inject_Z (2 ^ (- e)))%Q.

(** [floor(log2(x))] of a positive [x]. *)
Definition ilogb (x : Q) : Z :=
  let l := (Z.log2 (Qnum x) - Z.log2 (Z.pos (Qden x)))%Z in
  if Qle_bool (ldexp 1 l) x then l else (l - 1)%Z.

(** The value of a Python float holding [x]: the double (IEEE 754
    binary64) nearest to [x], a tie going to the even significand.  A
    double is a multiple of [2 ** e] by an integer below [2 ** 53], with
    [e] from -1074 up; the largest exponent is not modelled, so that no
    value rounds to an infinity. *)
Definition float (x : Q) : Q :=
  if Qeq_bool x 0 then 0%Q
  else
    let e := Z.max (ilogb (Qabs x) - 52) (-1074) in
    ldexp (inject_Z (rint (ldexp x (- e)))) e.

(** [x * n] for a float [x] and an int [n]: the int is converted to a
    float and the product rounded. *)
Definition mul_float_int (x : Q) (n : Z) : Q := float (x * float (inject_Z n)).

(** [sys.float_info.max] *)
Definition max_double : Q := inject_Z ((2 ^ 53 - 1) * 2 ^ 971).

(** A slice bound [n] of a sequence of length [len], as Python clamps it:
    a negative bound counts from the end. *)
Definition slice_bound (n : Z) (len : nat) : nat :=
  if (n <? 0)%Z then Z.to_nat (Z.max 0 (n + Z.of_nat len))
  else Z.to_nat (Z.min n (Z.of_nat len)).

(** [l[:n]] and [l[n:]]. *)
Definition slice_to {A} (n : Z) (l : list A) : list A :=
  take (slice_bound n (length l)) l.
Definition slice_from {A} (n : Z) (l : list A) : list A :=
  drop (slice_bound n (length l)) l.

(** [row[:n] = x] on one row. *)
Definition fill_to {A} (n : Z) (x : A) (l : list A) : list A :=
  replicate (slice_bound n (length l)) x ++ slice_from n l.

Global Instance Q_inhabited : Inhabited Q := populate 0%Q.
Global Instance R_inhabited : Inhabited R := populate 0%R.

Global Instance Qle_decision (x y : Q) : Decision (x <= y)%Q :=
  match Qlt_le_dec y x with
  | left H => right (Qlt_not_le _ _ H)
  | right H => left H
  end.

(** [torch.argsort(keys, dim=-1)] on one row: the indices [0..len-1] sorted
    by ascending key.  Among equal keys torch promises no order; the merge
    sort used here fixes one. *)
Section argsort.
Context {A : Type} `{Inhabited A} (le : relation A) `{∀ x y, Decision (le x y)}.

Definition key_le (keys : list A) : relation nat :=
  λ i j, le (keys !!! i) (keys !!! j).

Global Instance key_le_dec keys i j : Decision (key_le keys i j).
Proof. unfold key_le. apply _. Defined.

Definition argsort (keys : list A) : list nat :=
  merge_sort (key_le keys) (seq 0 (length keys)).
End argsort.

(** [torch.gather(row, index)] on one row: [out[j] = row[index[j]]]. *)
Definition gather {A} (row : list A) (index : list nat) : result (list A) :=
  mapM (λ i, from_lookup (row !! i)
               (RuntimeError "index out of range in gather")) index.

(** ** Tensors *)

Abbreviation tensor1 := (list R).
Abbreviation tensor2 := (list (list R)).
Abbreviation tensor3 := (list (list (list R))).
Abbreviation tensor4 := (list (list (list (list R)))).

(** A tensor whose rank the code does not fix ([gsd], [waves]). *)
#[local] Set Warnings "-register-all".
Inductive tensor : Type :=
  | Scalar (x : R)
  | Nested (l : list tensor).

(** [t[0]]. *)
Definition index0 (t : tensor) : result tensor :=
  match t with
  | Scalar _ => Raise (IndexError "invalid index of a 0-dim tensor")
  | Nested l => from_lookup (l !! 0) (IndexError "index 0 is out of bounds")
  end.

(** Shapes of nested lists: [shape2 t B L] is [t.shape == (B, L)]. *)
Definition shape2 {A} (t : list (list A)) (B L : nat) : Prop :=
  length t = B ∧ Forall (λ r, length r = L) t.
Definition shape3 {A} (t : list (list (list A))) (B L D : nat) : Prop :=
  length t = B ∧ Forall (λ m, shape2 m L D) t.
Definition shape4 {A} (t : list (list (list (list A)))) (B C H W : nat) : Prop :=
  length t = B ∧ Forall (λ m, shape3 m C H W) t.

(** The size of dimension 1, 2 and 3, read off the first row. *)
Definition size1 {A} (t : list (list A)) : nat := length (hd [] t).
Definition size2 {A} (t : list (list (list A))) : nat := size1 (hd [] t).
Definition size3 {A} (t : list (list (list (list A)))) : nat := size2 (hd [] t).

(** Elementwise operations of two sequences raise on a size mismatch
    (broadcasting of singleton dimensions is modelled only where stated). *)
Definition zipM {A B C} (f : A → B → result C) (l1 : list A) (l2 : list B)
    : result (list C) :=
  if decide (length l1 = length l2)
  then mapM (λ ab, f ab.1 ab.2) (zip l1 l2)
  else Raise (RuntimeError "The size of tensor a must match the size of tensor b").

Definition add1 (u v : tensor1) : result tensor1 := zipM (λ x y, Ok (x + y)%R) u v.
Definition add2 (u v : tensor2) : result tensor2 := zipM add1 u v.
Definition add3 (u v : tensor3) : result tensor3 := zipM add2 u v.

Definition mul1 (u v : tensor1) : result tensor1 := zipM (λ x y, Ok (x * y)%R) u v.
Definition mul2 (u v : tensor2) : result tensor2 := zipM mul1 u v.

Definition sum1 (u : tensor1) : R := foldr Rplus 0%R u.
Definition sum2 (t : tensor2) : R := sum1 (sum1 <$> t).
Definition mean1 (u : tensor1) : R := (sum1 u / INR (length u))%R.

(** [t[batch_indices, indices, :]] with [batch_indices] the column
    [0..B-1]: row [b] of the result lists [t[b][i]] for [i] in
    [indices[b]]. *)
Definition index_select {A} (t : list (list A)) (indices : list (list nat))
    : result (list (list A)) :=
  zipM (λ row idx,
          mapM (λ i, from_lookup (row !! i)
                       (IndexError "index is out of bounds for dimension 1")) idx)
       t indices.

(** [torch.cat((a, b), dim=-1)] on rank-3 tensors. *)
Definition cat_last (a b : tensor3) : result tensor3 :=
  zipM (zipM (λ u v, Ok (u ++ v))) a b.

(** [torch.cat((a, b), dim=1)] on rank-3 tensors: the last dimension of
    the rows that are joined has to agree. *)
Definition cat_dim1 (a b : tensor3) : result tensor3 :=
  zipM (λ ra rb,
          if decide (Forall (λ u, Forall (λ v, length u = length v) rb) ra)
          then Ok (ra ++ rb)
          else Raise (RuntimeError "Sizes of tensors must match except in dimension 1"))
       a b.

(** [t[batch_indices, indices, :] = src]: row [b] of [t] gets [src[b][j]]
    at position [indices[b][j]]. *)
Definition put_row (row : tensor2) (idx : list nat) (src : tensor2) : result tensor2 :=
  if decide (length idx = length src)
  then foldl (λ acc iv,
                r ← acc;
                if decide (iv.1 < length r ∧ Forall (λ u, length u = length iv.2) r)
                then Ok (<[iv.1 := iv.2]> r)
                else Raise (IndexError "index out of bounds or shape mismatch"))
             (Ok row) (zip idx src)
  else Raise (RuntimeError "shape mismatch: value tensor cannot be broadcast to indexing result").

Definition index_put (t : tensor3) (indices : list (list nat)) (src : tensor3)
    : result tensor3 :=
  if decide (length indices = length src)
  then zipM (λ row ixs, put_row row ixs.1 ixs.2) t (zip indices src)
  else Raise (RuntimeError "shape mismatch: value tensor cannot be broadcast to indexing result").

(** ** External collaborators

    [src.factory.DynamicEmbedding], [src.utils.posemb_sincos_2d_with_gsd],
    [vit_pytorch.simple_vit.Transformer] and [torch.nn.Linear] are not part
    of the file under verification; they are taken as parameters.  The
    learned weights live inside the functions; [cls_token_init] and
    [mask_patch_init] are the initial draws of the two parameters the
    encoder and the decoder own themselves. *)
Class Externals := {
  (** [DynamicEmbedding(wave_dim, num_latent_tokens, patch_size, embed_dim,
      is_decoder=False)(cube, waves)] *)
  DynamicEmbedding_encode :
    ∀ (wave_dim num_latent_tokens patch_size embed_dim : nat),
      tensor4 → tensor → result (tensor3 * tensor2);
  (** [DynamicEmbedding(..., is_decoder=True)(tokens, waves)] *)
  DynamicEmbedding_decode :
    ∀ (wave_dim num_latent_tokens patch_size embed_dim : nat),
      tensor3 → tensor → result (tensor3 * tensor2);
  (** [Transformer(dim, depth, heads, dim_head, mlp_dim)(x)] *)
  Transformer :
    ∀ (dim depth heads dim_head : nat) (mlp_dim : Z), tensor3 → result tensor3;
  (** [nn.Linear(in_features, out_features)(x)] *)
  Linear : ∀ (in_features out_features : nat), tensor3 → result tensor3;
  (** [posemb_sincos_2d_with_gsd(h, w, dim, gsd)] *)
  posemb_sincos_2d_with_gsd : ∀ (h w : nat) (dim : Z) (gsd : tensor), result tensor2;
  (** [torch.randn(1, 1, dim) * 0.02] and [torch.randn(dim)] *)
  cls_token_init : nat → tensor3;
  mask_patch_init : nat → tensor1;
  (** [geopandas.GeoDataFrame], and the construction and reprojection of
      the table at the end of [predict_step] from the source URLs, the
      dates, the embeddings, the bounding boxes and the EPSG code *)
  GeoDataFrame : Type;
  to_geodataframe :
    list string → list string → tensor2 + tensor4 → tensor2 → Z → result GeoDataFrame;
}.

(** ** Metadata encoder *)

(** [t[:, j]] *)
Definition column (t : tensor2) (j : nat) : result tensor1 :=
  mapM (λ row, from_lookup (row !! j)
                 (IndexError "index is out of bounds for dimension 1")) t.

(** [t[:, j] = col]; a one-element [col] is broadcast over the rows. *)
Definition set_column (t : tensor2) (j : nat) (col : tensor1) : result tensor2 :=
  if decide (length col = length t)
  then Ok (zip_with (λ row x, <[j := x]> row) t col)
  else match col with
       | [x] => Ok ((λ row, <[j := x]> row) <$> t)
       | _ => Raise (RuntimeError "shape mismatch in assignment")
       end.

(** [row[n:] = x] on one row. *)
Definition fill_from {A} (n : Z) (x : A) (l : list A) : list A :=
  slice_to n l ++ replicate (length l - slice_bound n (length l)) x.

Definition encode_metadata (time latlon : tensor2) (has_time has_lat_lon : bool)
    : result tensor2 :=
  let B := length time in
  let encoded_values : tensor2 := replicate B (replicate 8 0%R) in
  encoded_values ←
    (if has_lat_lon then
       lat ← column latlon 0;
       lon ← column latlon 1;
       let lat := (λ x, x * PI / 180)%R <$> lat in
       let lon := (λ x, x * PI / 180)%R <$> lon in
       encoded_values ← set_column encoded_values 0 (sin <$> lat);
       encoded_values ← set_column encoded_values 1 (cos <$> lat);
       encoded_values ← set_column encoded_values 2 (sin <$> lon);
       set_column encoded_values 3 (cos <$> lon)
     else
       Ok (fill_to 4 0%R <$> encoded_values));
  if negb has_time then
    hour ← column time 0;
    week ← column time 1;
    let hour := (λ x, x * 2 * PI / 24)%R <$> hour in
    let week := (λ x, x * 2 * PI / 52)%R <$> week in
    encoded_values ← set_column encoded_values 4 (sin <$> hour);
    encoded_values ← set_column encoded_values 5 (cos <$> hour);
    encoded_values ← set_column encoded_values 6 (sin <$> week);
    set_column encoded_values 7 (cos <$> week)
  else
    Ok (fill_from 4 0%R <$> encoded_values).

(** ** The datacube *)

Module Datacube.
Record t := mk {
  pixels : tensor4;  (* [B C H W] *)
  time : tensor2;    (* [B 2] hour week *)
  latlon : tensor2;  (* [B 2] lat lon *)
  gsd : tensor;      (* [B 1] *)
  waves : tensor;    (* [B N] *)
}.
End Datacube.

(** ** Encoder *)

Module Encoder.

Record t := mk {
  mask_ratio : Q;
  patch_size : nat;
  dim : nat;
  cls_token : tensor3;  (* [1 1 D] *)
  patch_embedding : tensor4 → tensor → result (tensor3 * tensor2);
  transformer : tensor3 → result tensor3;
  (** [nn.Module.training] *)
  training : bool;
  (** [self.num_patches] is first assigned by [add_encodings] *)
  num_patches : option nat;
}.

Definition set_num_patches (self : t) (n : nat) : t :=
  mk (mask_ratio self) (patch_size self) (dim self) (cls_token self)
     (patch_embedding self) (transformer self) (training self) (Some n).

Definition set_mask_ratio (self : t) (r : Q) : t :=
  mk r (patch_size self) (dim self) (cls_token self)
     (patch_embedding self) (transformer self) (training self) (num_patches self).

Definition set_training (self : t) (mode : bool) : t :=
  mk (mask_ratio self) (patch_size self) (dim self) (cls_token self)
     (patch_embedding self) (transformer self) mode (num_patches self).

Definition __init__ `{Externals} (mask_ratio : Q) (patch_size dim depth heads dim_head : nat)
    (mlp_ratio : Q) : t :=
  mk mask_ratio patch_size dim (cls_token_init dim)
     (DynamicEmbedding_encode 128 128 patch_size dim)
     (Transformer dim depth heads dim_head (int (inject_Z (Z.of_nat dim) * mlp_ratio)))
     true None.

(** The values an attribute of an encoder object can hold. *)
Inductive attr : Type :=
  | AFloat (x : Q)
  | AInt (n : nat)
  | ABool (b : bool)
  | AParameter (p : tensor3)
  | AEmbedding (f : tensor4 → tensor → result (tensor3 * tensor2))
  | ATransformer (f : tensor3 → result tensor3).

(** [getattr(self, name)] on the data attributes of an encoder: those the
    methods of the class assign, and the mode flag of [nn.Module].  Any
    other name raises, as [nn.Module.__getattr__] does; the methods and the
    private bookkeeping of [nn.Module] are not modelled as attributes. *)
Definition getattr (self : t) (name : string) : result attr :=
  if decide (name = "mask_ratio") then Ok (AFloat (mask_ratio self))
  else if decide (name = "patch_size") then Ok (AInt (patch_size self))
  else if decide (name = "dim") then Ok (AInt (dim self))
  else if decide (name = "cls_token") then Ok (AParameter (cls_token self))
  else if decide (name = "patch_embedding") then Ok (AEmbedding (patch_embedding self))
  else if decide (name = "transformer") then Ok (ATransformer (transformer self))
  else if decide (name = "training") then Ok (ABool (training self))
  else if decide (name = "num_patches")
    then AInt <$> from_lookup (num_patches self)
           (AttributeError "'Encoder' object has no attribute 'num_patches'")
  else Raise (AttributeError ("'Encoder' object has no attribute '" +:+ name +:+ "'")).

Definition to_patch_embed (self : t) (cube : tensor4) (waves : tensor)
    : result (tensor3 * tensor2) :=
  patch_embedding self cube waves.

Definition add_encodings `{Externals} (self : t) (patches : tensor3)
    (time latlon : tensor2) (gsd : tensor) : result (t * tensor3) :=
  let B := length patches in
  let L := size1 patches in
  let grid_size := Nat.sqrt L in
  let self := set_num_patches self (grid_size ^ 2) in
  gsd0 ← index0 gsd;
  pos_encoding ←
    posemb_sincos_2d_with_gsd grid_size grid_size (Z.of_nat (dim self) - 8) gsd0;
  metadata ← encode_metadata time latlon true true;
  let pos_encoding := replicate B pos_encoding in
  let metadata := replicate L <$> metadata in
  pos_metadata_encoding ← cat_last pos_encoding metadata;
  patches ← add3 patches pos_metadata_encoding;
  Ok (self, patches).

(** [int(self.mask_ratio * self.num_patches)] *)
Definition num_masked (mask_ratio : Q) (num_patches : nat) : Z :=
  int (mul_float_int mask_ratio (Z.of_nat num_patches)).

(** The scores that are sorted: [randn b l] is the draw of
    [torch.randn((B, L))] at position [(b, l)]; in evaluation mode the
    scores are [arange(B * L)] laid out row by row. *)
Definition noise (self : t) (randn : nat → nat → Q) (B L : nat) : list (list Q) :=
  if training self
  then (λ b, randn b <$> seq 0 L) <$> seq 0 B
  else (λ b, (λ l, inject_Z (Z.of_nat (b * L + l))) <$> seq 0 L) <$> seq 0 B.

Definition mask_out (self : t) (randn : nat → nat → Q) (patches : tensor3)
    : result (tensor3 * list (list nat) * list (list nat) * tensor2) :=
  let B := length patches in
  let L := size1 patches in
  let noise := noise self randn B L in
  let random_indices := argsort Qle <$> noise in
  let reverse_indices := argsort le <$> random_indices in
  num_patches ← from_lookup (num_patches self)
    (AttributeError "'Encoder' object has no attribute 'num_patches'");
  let num_masked_patches := num_masked (mask_ratio self) num_patches in
  let masked_indices := slice_to num_masked_patches <$> random_indices in
  let unmasked_indices := slice_from num_masked_patches <$> random_indices in
  let masked_matrix : tensor2 := replicate B (replicate L 0%R) in
  let masked_matrix := fill_to num_masked_patches 1%R <$> masked_matrix in
  masked_matrix ← zipM gather masked_matrix reverse_indices;
  unmasked_patches ← index_select patches unmasked_indices;
  _ ← index_select patches masked_indices;
  Ok (unmasked_patches, unmasked_indices, masked_indices, masked_matrix).

Definition forward `{Externals} (self : t) (randn : nat → nat → Q) (datacube : Datacube.t)
    : result (t * (tensor3 * list (list nat) * list (list nat) * tensor2)) :=
  let cube := Datacube.pixels datacube in
  let B := length cube in
  waves0 ← index0 (Datacube.waves datacube);
  '(patches, waves_encoded) ← to_patch_embed self cube waves0;
  '(self, patches) ←
    add_encodings self patches (Datacube.time datacube) (Datacube.latlon datacube)
      (Datacube.gsd datacube);
  '(unmasked_patches, unmasked_indices, masked_indices, masked_matrix) ←
    mask_out self randn patches;
  cls_tokens ←
    (if decide (shape3 (cls_token self) 1 1 (size2 (cls_token self)))
     then Ok (replicate B (hd [] (cls_token self)))
     else Raise (EinopsError "Shape mismatch, can't repeat 1 1 D -> B 1 D"));
  unmasked_patches ← cat_dim1 cls_tokens unmasked_patches;
  encoded_unmasked_patches ← transformer self unmasked_patches;
  Ok (self, (encoded_unmasked_patches, unmasked_indices, masked_indices, masked_matrix)).

End Encoder.

(** ** Decoder *)

Module Decoder.

Record t := mk {
  mask_ratio : Q;
  patch_size : nat;
  encoder_dim : nat;
  dim : nat;
  enc_to_dec : tensor3 → result tensor3;
  mask_patch : tensor1;  (* [D] *)
  transformer : tensor3 → result tensor3;
  embed_to_pixels : tensor3 → tensor → result (tensor3 * tensor2);
  num_patches : option nat;
}.

Definition set_num_patches (self : t) (n : nat) : t :=
  mk (mask_ratio self) (patch_size self) (encoder_dim self) (dim self)
     (enc_to_dec self) (mask_patch self) (transformer self)
     (embed_to_pixels self) (Some n).

Definition __init__ `{Externals} (mask_ratio : Q)
    (patch_size encoder_dim dim depth heads dim_head : nat) (mlp_ratio : Q) : t :=
  mk mask_ratio patch_size encoder_dim dim
     (if decide (encoder_dim ≠ dim) then Linear encoder_dim dim else Ok)
     (mask_patch_init dim)
     (Transformer dim depth heads dim_head (int (inject_Z (Z.of_nat dim) * mlp_ratio)))
     (DynamicEmbedding_decode 128 128 patch_size dim)
     None.

Definition reconstruct_and_add_encoding `{Externals} (self : t)
    (unmasked_patches : tensor3) (unmasked_indices masked_indices : list (list nat))
    (masked_matrix : tensor2) (time latlon : tensor2) (gsd : tensor)
    : result (t * tensor3) :=
  let B := length masked_matrix in
  let L := size1 masked_matrix in
  let grid_size := Nat.sqrt L in
  let self := set_num_patches self (grid_size ^ 2) in
  let cls_tokens := slice_to 1 <$> unmasked_patches in
  let unmasked_patches := slice_from 1 <$> unmasked_patches in
  gsd0 ← index0 gsd;
  pos_encoding ←
    posemb_sincos_2d_with_gsd grid_size grid_size (Z.of_nat (dim self) - 8) gsd0;
  metadata ← encode_metadata time latlon true true;
  let pos_encoding := replicate B pos_encoding in
  let metadata := replicate L <$> metadata in
  pos_metadata_encoding ← cat_last pos_encoding metadata;
  (* self.num_patches is the value assigned above *)
  let num_masked_patches :=
    int (mul_float_int (mask_ratio self) (Z.of_nat (grid_size ^ 2))) in
  (* a negative length, which a ratio in [0, 1] excludes, is refused *)
  masked_patches ←
    (if (num_masked_patches <? 0)%Z
     then Raise (EinopsError "Shape mismatch, can't repeat D -> B L D")
     else Ok (replicate B (replicate (Z.to_nat num_masked_patches) (mask_patch self))));
  masked_encoding ← index_select pos_metadata_encoding masked_indices;
  masked_patches ← add3 masked_patches masked_encoding;
  unmasked_encoding ← index_select pos_metadata_encoding unmasked_indices;
  unmasked_patches ← add3 unmasked_patches unmasked_encoding;
  let decoder_patches : tensor3 :=
    replicate B (replicate (grid_size ^ 2) (replicate (dim self) 0%R)) in
  decoder_patches ← index_put decoder_patches unmasked_indices unmasked_patches;
  decoder_patches ← index_put decoder_patches masked_indices masked_patches;
  decoder_patches ← cat_dim1 cls_tokens decoder_patches;
  Ok (self, decoder_patches).

Definition forward `{Externals} (self : t) (encoded_unmasked_patches : tensor3)
    (unmasked_indices masked_indices : list (list nat)) (masked_matrix : tensor2)
    (time latlon : tensor2) (gsd waves : tensor)
    : result (t * (tensor3 * tensor2)) :=
  encoded_unmasked_patches ← enc_to_dec self encoded_unmasked_patches;
  gsd0 ← index0 gsd;
  '(self, decoder_patches) ←
    reconstruct_and_add_encoding self encoded_unmasked_patches unmasked_indices
      masked_indices masked_matrix time latlon gsd0;
  decoded_patches ← transformer self decoder_patches;
  waves0 ← index0 waves;
  '(pixels, waves) ← embed_to_pixels self decoded_patches waves0;
  let pixels : tensor3 := slice_from 1 <$> (pixels : tensor3) in
  Ok (self, (pixels, waves)).

End Decoder.

(** ** The scalar loss *)

(** The value of a scalar float tensor: a finite real, an infinity or NaN. *)
Inductive float_val : Type :=
  | Finite (x : R)
  | PosInf
  | NegInf
  | NaN.

(** Division of two finite floats, as IEEE 754 defines it at a zero
    divisor. *)
Definition fdiv (x y : R) : float_val :=
  if Req_dec_T y 0 then
    if Req_dec_T x 0 then NaN
    else if Rlt_dec 0 x then PosInf else NegInf
  else Finite (x / y).

(** ** ClayMAE *)

Module ClayMAE.

Record t := mk {
  mask_ratio : Q;
  patch_size : nat;
  norm_pix_loss : bool;
  encoder : Encoder.t;
  decoder : Decoder.t;
}.

Definition __init__ `{Externals} (mask_ratio : Q) (patch_size : nat) (norm_pix_loss : bool)
    (dim depth heads dim_head : nat) (mlp_ratio : Q)
    (decoder_dim decoder_depth decoder_heads decoder_dim_head : nat)
    (decoder_mlp_ratio : Q) : t :=
  mk mask_ratio patch_size norm_pix_loss
     (Encoder.__init__ mask_ratio patch_size dim depth heads dim_head mlp_ratio)
     (Decoder.__init__ mask_ratio patch_size dim decoder_dim decoder_depth
        decoder_heads decoder_dim_head decoder_mlp_ratio).

(** [rearrange(img, "C (h p1) (w p2) -> (h w) (C p1 p2)")] for one
    sample: the patches in row-major grid order, each laid out channel by
    channel. *)
Definition patch_rows (p : nat) (img : list (list (list R))) : tensor2 :=
  h ← seq 0 (size1 img / p);
  w ← seq 0 (size2 img / p);
  [ c ← seq 0 (length img);
    i ← seq 0 p;
    j ← seq 0 p;
    [ ((img !!! c) !!! (h * p + i)) !!! (w * p + j) ] ].

Definition patchify (p : nat) (img : list (list (list R))) : result tensor2 :=
  let C := length img in
  let H := size1 img in
  let W := size2 img in
  if decide (p ≠ 0 ∧ H `mod` p = 0 ∧ W `mod` p = 0 ∧ shape3 img C H W)
  then Ok (patch_rows p img)
  else Raise (EinopsError "Shape mismatch, can't divide axis").

(** [patches.var(dim=-1)]: the unbiased sample variance. *)
Definition var1 (u : tensor1) : R :=
  (sum1 ((λ x, (x - mean1 u) * (x - mean1 u)) <$> u) / (INR (length u) - 1))%R.

Definition normalise (u : tensor1) : tensor1 :=
  (λ x, (x - mean1 u) / sqrt (var1 u + 1 / 1000000))%R <$> u.

(** [F.mse_loss(input, target, reduction="none")] *)
Definition mse_loss (input target : tensor3) : result tensor3 :=
  zipM (zipM (zipM (λ x y, Ok ((x - y) * (x - y))%R))) input target.

(** The squared errors and their sums are real numbers: an error that
    float32 overflows to [inf] stays a number here.  With a non-zero mask
    sum the value is therefore always [Finite] in this model, and that
    says nothing about the float32 result being finite. *)
Definition per_pixel_loss (self : t) (cube : tensor4) (pixels : tensor3)
    (masked_matrix : tensor2) : result float_val :=
  patches ← mapM (M:=result) (patchify (patch_size self)) (cube : tensor4);
  let patches : tensor3 :=
    if norm_pix_loss self
    then (λ m : tensor2, normalise <$> m) <$> (patches : tensor3)
    else patches in
  loss ← mse_loss patches pixels;
  let loss : tensor2 := (λ m : tensor2, mean1 <$> m) <$> (loss : tensor3) in
  loss ← mul2 loss masked_matrix;
  Ok (fdiv (sum2 loss) (sum2 masked_matrix)).

(** [nn.Module.train(mode)]; [eval()] is [train(False)].  The encoder is
    the only submodule whose behaviour depends on the mode. *)
Definition train (self : t) (mode : bool) : t :=
  mk (mask_ratio self) (patch_size self) (norm_pix_loss self)
     (Encoder.set_training (encoder self) mode) (decoder self).

Definition forward `{Externals} (self : t) (randn : nat → nat → Q) (datacube : Datacube.t)
    : result (t * float_val) :=
  '(encoder, (encoded_unmasked_patches, unmasked_indices, masked_indices, masked_matrix)) ←
    Encoder.forward (encoder self) randn datacube;
  '(decoder, (pixels, waves)) ←
    Decoder.forward (decoder self) encoded_unmasked_patches unmasked_indices
      masked_indices masked_matrix (Datacube.time datacube)
      (Datacube.latlon datacube) (Datacube.gsd datacube) (Datacube.waves datacube);
  loss ← per_pixel_loss self (Datacube.pixels datacube) pixels masked_matrix;
  Ok (mk (mask_ratio self) (patch_size self) (norm_pix_loss self) encoder decoder, loss).

End ClayMAE.

Definition clay_mae_tiny `{Externals} (mask_ratio : Q) (patch_size : nat)
    (norm_pix_loss : bool) : ClayMAE.t :=
  ClayMAE.__init__ mask_ratio patch_size norm_pix_loss
    (* ENCODER *) 192 4 4 48 2
    (* DECODER *) 96 2 2 48 2.

(** ** Strings that the code formats or tests *)

(** [repr(s)] of a string without quotes, backslashes or control
    characters. *)
Definition repr (s : string) : string := "'" +:+ s +:+ "'".

(** [str(d.keys())] of a dictionary with string keys. *)
Definition dict_keys {V} (d : gmap string V) : string :=
  "dict_keys([" +:+ String.concat ", " (repr <$> (map_to_list d).*1) +:+ "])".

(** [s1 in s2] on strings. *)
Fixpoint is_substring (s1 s2 : string) : bool :=
  String.prefix s1 s2 ||
  match s2 with
  | EmptyString => false
  | String _ s2' => is_substring s1 s2'
  end.

(** ** The Lightning module *)

Module ClayMAEModule.

Record hparams_t := mk_hparams {
  model_size : string;
  mask_ratio : Q;
  norm_pix_loss : bool;
  patch_size : nat;
  lr : Q;
  wd : Q;
  b1 : Q;
  b2 : Q;
  embeddings_level : string;
}.

Record t := mk {
  hparams : hparams_t;
  model : ClayMAE.t;
}.

Definition model_map `{Externals} : gmap string (Q → nat → bool → ClayMAE.t) :=
  {[ "tiny" := clay_mae_tiny ]}.

Definition __init__ `{Externals} (model_size : string) (mask_ratio : Q)
    (norm_pix_loss : bool) (patch_size : nat) (lr wd b1 b2 : Q)
    (embeddings_level : string) : result t :=
  let hparams :=
    mk_hparams model_size mask_ratio norm_pix_loss patch_size lr wd b1 b2
      embeddings_level in
  match model_map !! model_size with
  | Some constructor =>
      Ok (mk hparams (constructor mask_ratio patch_size norm_pix_loss))
  | None =>
      Raise (ValueError ("Invalid model size " +:+ model_size
                         +:+ ". Expected one of " +:+ dict_keys model_map))
  end.

(** The defaults of the keyword arguments. *)
Definition default_lr : Q := 1 # 10000.
Definition default_wd : Q := 5 # 100.
Definition default_b1 : Q := 9 # 10.
Definition default_b2 : Q := 95 # 100.

Definition forward `{Externals} (self : t) (randn : nat → nat → Q)
    (datacube : Datacube.t) : result (t * float_val) :=
  '(model, loss) ← ClayMAE.forward (model self) randn datacube;
  Ok (mk (hparams self) model, loss).

(** [shared_step]: the loss of the forward pass; logging it is left to
    Lightning. *)
Definition shared_step `{Externals} (self : t) (randn : nat → nat → Q)
    (batch : Datacube.t) (batch_idx : nat) (phase : string) : result (t * float_val) :=
  forward self randn batch.

Definition training_step `{Externals} (self : t) (randn : nat → nat → Q)
    (batch : Datacube.t) (batch_idx : nat) : result (t * float_val) :=
  shared_step self randn batch batch_idx "train".

Definition validation_step `{Externals} (self : t) (randn : nat → nat → Q)
    (batch : Datacube.t) (batch_idx : nat) : result (t * float_val) :=
  shared_step self randn batch batch_idx "val".

(** The batch of the prediction loop: the datacube and the provenance of
    its samples. *)
Record Batch := mk_batch {
  datacube : Datacube.t;
  bbox : tensor2;
  epsg : list Z;
  date : list string;
  source_url : list string;
}.

(** [x.shape == torch.Size([B, ...])] with [B] an attribute value. *)
Definition size_of_attr (B : Encoder.attr) : result nat :=
  match B with
  | Encoder.AInt n => Ok n
  | _ => Raise (TypeError "torch.Size() takes an iterable of 'int'")
  end.

Definition assert (b : bool) : result unit :=
  if b then Ok () else Raise AssertionError.

(** [reduce(x, "b l d -> b d", "mean")] *)
Definition reduce_mean_tokens (x : tensor3) : tensor2 :=
  (λ m : tensor2,
     (λ d, mean1 ((λ tok : tensor1, tok !!! d) <$> m)) <$> seq 0 (size1 m)) <$> x.

(** [rearrange(x, "b (h w) d -> b h w d", w=w, h=h)] *)
Definition unflatten_tokens (h w : nat) (x : tensor3) : result tensor4 :=
  if decide (Forall (λ m : tensor2, length m = h * w) x)
  then Ok ((λ m : tensor2, (λ i, take w (drop (i * w) m)) <$> seq 0 h) <$> x)
  else Raise (EinopsError "Shape mismatch, can't divide axis").

Definition predict_step `{Externals} (self : t) (randn : nat → nat → Q)
    (batch : Batch) (batch_idx : nat) : result (t * GeoDataFrame) :=
  let bboxes := bbox batch in
  let epsgs := epsg batch in
  let dates := date batch in
  let source_urls := source_url batch in
  (* Forward encoder; masking is disabled *)
  let encoder := Encoder.set_mask_ratio (ClayMAE.encoder (model self)) 0 in
  '(encoder, outputs_encoder) ← Encoder.forward encoder randn (datacube batch);
  let self :=
    mk (hparams self)
       (ClayMAE.mk (ClayMAE.mask_ratio (model self)) (ClayMAE.patch_size (model self))
          (ClayMAE.norm_pix_loss (model self)) encoder (ClayMAE.decoder (model self))) in
  let embeddings_raw : tensor3 := outputs_encoder.1.1.1 in
  B ← Encoder.getattr encoder "B" ≫= size_of_attr;
  _ ← assert (bool_decide (shape3 embeddings_raw B 256 768));
  (* the check for NaNs always passes on real elements *)
  embeddings_output ←
    (if decide (embeddings_level (hparams self) = "mean") then
       let embeddings_output := reduce_mean_tokens embeddings_raw in
       B ← Encoder.getattr encoder "B" ≫= size_of_attr;
       _ ← assert (bool_decide (shape2 embeddings_output B 768));
       Ok (inl embeddings_output)
     else if is_substring (embeddings_level (hparams self)) "patch" then
       embeddings_output ← unflatten_tokens 16 16 embeddings_raw;
       B ← Encoder.getattr encoder "B" ≫= size_of_attr;
       _ ← assert (bool_decide (shape4 embeddings_output B 16 16 768));
       Ok (inr embeddings_output)
     else
       Raise (ValueError ("Value " +:+ embeddings_level (hparams self)
                          +:+ " no allowed. Choose one from mean, patch, or group")));
  (* exactly one EPSG code in the batch *)
  epsg ←
    (match remove_dups epsgs, epsgs with
     | [_], code :: _ => Ok code
     | _, _ => Raise (NotImplementedError "More than 1 EPSG code detected")
     end);
  gdf ← to_geodataframe source_urls dates embeddings_output bboxes epsg;
  Ok (self, gdf).

End ClayMAEModule.

(** ** The end of the prediction loop *)

(** [on_predict_epoch_end] acts on the outside world: it prints, it
    creates a directory and it writes files.  The effects are recorded in
    the order in which they happen; the file system is taken to accept the
    calls. *)
Inductive effect : Type :=
  | Print (text : string)
  | Makedirs (name : string)
  | ToParquet (path : string).

(** Besides the exceptions that the library calls raise, the interpreter
    raises [NameError] when it evaluates a name that nothing binds. *)
Inductive raised : Type :=
  | Exception (e : exception)
  | NameError (msg : string).

Inductive outcome (A : Type) : Type :=
  | Returns (a : A)
  | Raises (e : raised).
Arguments Returns {A} a.
Arguments Raises {A} e.

(** A computation with effects: the effects so far come in, the effects
    and the outcome go out. *)
Definition io (A : Type) : Type := list effect → list effect * outcome A.

Global Instance io_ret : MRet io := λ A a log, (log, Returns a).
Global Instance io_bind : MBind io := λ A B f m log,
  match m log with
  | (log', Returns a) => f a log'
  | (log', Raises e) => (log', Raises e)
  end.

Definition perform (e : effect) : io unit := λ log, (log ++ [e], Returns ()).
Definition raise {A} (e : raised) : io A := λ log, (log, Raises e).
Definition lift {A} (r : result A) : io A :=
  match r with
  | Ok a => mret a
  | Raise e => raise (Exception e)
  end.

(** The names that the module binds at top level: its imports and its
    definitions. *)
Definition module_globals : list string :=
  ["os"; "math"; "Literal"; "gpd"; "np"; "pd"; "pa"; "shapely"; "L"; "torch"; "F";
   "rearrange"; "reduce"; "repeat"; "nn"; "Transformer"; "DynamicEmbedding";
   "posemb_sincos_2d_with_gsd"; "encode_metadata"; "Encoder"; "Decoder"; "ClayMAE";
   "clay_mae_tiny"; "ClayMAEModule"].

(** The evaluation of a name that is not local and not a builtin. *)
Definition load_global (name : string) : io unit :=
  if decide (name ∈ module_globals) then mret ()
  else raise (NameError ("name '" +:+ name +:+ "' is not defined")).

(** [s.split(sep)] for a separator of one character. *)
Fixpoint split_from (sep : Ascii.ascii) (s cur : string) : list string :=
  match s with
  | EmptyString => [cur]
  | String c s' =>
      if Ascii.eqb c sep then cur :: split_from sep s' EmptyString
      else split_from sep s' (cur +:+ String c EmptyString)
  end.
Definition split (sep : Ascii.ascii) (s : string) : list string :=
  split_from sep s EmptyString.

(** [gdf.source_url.str.split("/").str[-1].str.split("_").str[1]] on one
    URL; [None] is the missing value that pandas gives when the file name
    has no second part. *)
Definition mgrs_code_of (source_url : string) : option string :=
  name ← last (split "/"%char source_url);
  split "_"%char name !! 1.

(** [Series.unique()]: the distinct values in the order of their first
    appearance. *)
Definition unique {A} `{EqDecision A} (l : list A) : list A :=
  foldl (λ acc x, if decide (x ∈ acc) then acc else acc ++ [x]) [] l.

(** [for x in l: body(x)] *)
Fixpoint for_each {A} (body : A → io unit) (l : list A) : io unit :=
  match l with
  | [] => mret ()
  | x :: l => _ ← body x; for_each body l
  end.

(** The table operations of pandas and geopandas that
    [on_predict_epoch_end] calls, and the matcher of the module [re]. *)
Class Tables `{Externals} := {
  (** [pd.concat(objs=results, axis="index", ignore_index=True)] *)
  pd_concat : list GeoDataFrame → result GeoDataFrame;
  (** [gdf.source_url] *)
  source_url_column : GeoDataFrame → list string;
  (** [gdf.loc[mask].reset_index()] *)
  loc_reset_index : GeoDataFrame → list bool → GeoDataFrame;
  (** [gdf.date.agg(func=["min", "max"])], each formatted with [%Y%m%d] *)
  minmax_date : GeoDataFrame → result (string * string);
  (** [len(gdf)] *)
  len_gdf : GeoDataFrame → nat;
  (** [gdf.embeddings.iloc[0].shape] as it is printed *)
  embeddings_shape : GeoDataFrame → result string;
  (** [re.match(pattern, string) is not None] *)
  re_match : string → string → bool;
}.

(** The body of the loop over the MGRS codes. *)
Definition save_mgrs_code `{Tables} (gdf : GeoDataFrame)
    (mgrs_codes : list (option string)) (outfolder : string)
    (mgrs_code : option string) : io unit :=
  _ ← load_global "re";
  code ← match mgrs_code with
         | Some code => mret code
         | None => raise (Exception (TypeError "expected string or bytes-like object"))
         end;
  if negb (re_match "(\d{2}[A-Z]{3})" code) then
    raise (Exception (ValueError
      ("MGRS code should have 2 numbers and 3 letters (e.g. 12ABC), but got "
       +:+ code +:+ " instead")))
  else
    let _gdf :=
      loc_reset_index gdf ((λ c, bool_decide (c = Some code)) <$> mgrs_codes) in
    '(min_date, max_date) ← lift (minmax_date _gdf);
    let outpath :=
      outfolder +:+ "/" +:+ code +:+ "_" +:+ min_date +:+ "_" +:+ max_date
      +:+ "_v001.gpq" in
    _ ← perform (ToParquet outpath);
    shape ← lift (embeddings_shape gdf);
    perform (Print ("Saved " +:+ pretty (len_gdf _gdf)
                    +:+ " rows of embeddings of shape " +:+ shape
                    +:+ " to " +:+ outpath)).

(** [ClayMAEModule.on_predict_epoch_end], on the predictions of the
    prediction loop and the two directories of the trainer. *)
Definition on_predict_epoch_end `{Tables} (predictions : list GeoDataFrame)
    (data_dir default_root_dir : string) : io (option GeoDataFrame) :=
  match predictions with
  | [] =>
      _ ← perform (Print ("No embeddings generated, possibly no GeoTIFF files in "
                          +:+ data_dir));
      mret None
  | _ :: _ =>
      gdf ← lift (pd_concat predictions);
      let outfolder := default_root_dir +:+ "/data/embeddings" in
      _ ← perform (Makedirs outfolder);
      let mgrs_codes := mgrs_code_of <$> source_url_column gdf in
      let unique_mgrs_codes := unique mgrs_codes in
      _ ← for_each (save_mgrs_code gdf mgrs_codes outfolder) unique_mgrs_codes;
      mret (Some gdf)
  end.

(** ** Reference notions of the specification *)

(** [round(x)] as the specification writes it: the nearest integer, a tie
    going to the even neighbour. *)
Definition round (x : Q) : Z :=
  let f := Qfloor x in
  match (x - inject_Z f ?= 1 # 2)%Q with
  | Lt => f
  | Gt => (f + 1)%Z
  | Eq => if Z.even f then f else (f + 1)%Z
  end.

(** The metadata vector of one sample as section 4.1 of the specification
    lists it, a block being zeroed when its flag is false. *)
Definition specified_metadata (time latlon : tensor1) (has_time has_lat_lon : bool)
    : tensor1 :=
  let lat_rad := ((latlon !!! 0%nat) * PI / 180)%R in
  let lon_rad := ((latlon !!! 1%nat) * PI / 180)%R in
  let hour : R := time !!! 0 in
  let week : R := time !!! 1 in
  (if has_lat_lon
   then [sin lat_rad; cos lat_rad; sin lon_rad; cos lon_rad]
   else [0; 0; 0; 0]%R)
  ++ (if has_time
      then [sin (hour * 2 * PI / 24); cos (hour * 2 * PI / 24);
            sin (week * 2 * PI / 52); cos (week * 2 * PI / 52)]%R
      else [0; 0; 0; 0]%R).

(** What the code computes for one sample: the lat/lon block is filled
    when [has_lat_lon] holds, the time block when [has_time] does not. *)
Definition encoded_row (time latlon : tensor1) (has_time has_lat_lon : bool) : tensor1 :=
  specified_metadata time latlon (negb has_time) has_lat_lon.

(** The per-patch error of the specification: the squared difference of
    target and reconstruction, averaged over the pixels of the patch.  The
    targets are the patches of the cube, normalised when [norm_pix_loss] is
    set. *)
Definition patch_error (target reconstruction : tensor1) : R :=
  mean1 (zip_with (λ x y, (x - y) * (x - y))%R target reconstruction).

Definition target_patches (self : ClayMAE.t) (cube : tensor4) : tensor3 :=
  let patches := ClayMAE.patch_rows (ClayMAE.patch_size self) <$> cube in
  if ClayMAE.norm_pix_loss self
  then (λ m : tensor2, ClayMAE.normalise <$> m) <$> patches
  else patches.

Definition per_patch_error (self : ClayMAE.t) (cube : tensor4) (pixels : tensor3) : tensor2 :=
  zip_with (zip_with patch_error) (target_patches self cube) pixels.


(** ** A concrete set of collaborators

    Used to run the model on concrete inputs: projections that return
    zero tensors of the documented shapes, transformers that return their
    input. *)

Definition zeros3 (B L D : nat) : tensor3 :=
  replicate B (replicate L (replicate D 0%R)).

(** The number of rows of a tensor. *)
Definition tensor_length (t : tensor) : nat :=
  match t with
  | Scalar _ => 0
  | Nested l => length l
  end.

Definition sample_externals : Externals := {|
  DynamicEmbedding_encode _ _ patch_size embed_dim cube _ :=
    Ok (zeros3 (length cube)
          ((size2 cube / patch_size) * (size3 cube / patch_size)) embed_dim, []);
  DynamicEmbedding_decode _ _ patch_size _ tokens waves :=
    Ok (zeros3 (length tokens) (size1 tokens)
          (tensor_length waves * patch_size * patch_size), []);
  Transformer _ _ _ _ _ x := Ok x;
  Linear _ out_features x :=
    Ok ((λ m : tensor2, (λ _, replicate out_features 0%R) <$> m) <$> x);
  posemb_sincos_2d_with_gsd h w dim _ :=
    Ok (replicate (h * w) (replicate (Z.to_nat dim) 0%R));
  cls_token_init dim := [[replicate dim 0%R]];
  mask_patch_init dim := replicate dim 0%R;
  GeoDataFrame := unit;
  to_geodataframe _ _ _ _ _ := Ok ();
|}.

(** Modelled from the spec: the shape contracts of the collaborators whose
    code is not part of the file (section 6 of the specification and the
    shape comments at their call sites).  The patch projector turns a
    [(B, C, H, W)] cube into [(B, L, D)] embeddings with
    [L = (H / p) * (W / p)], and [(B, T, D)] tokens back into
    [(B, T, N p p)] pixels for [N] wavelengths; the position encoder
    returns a [(h w, dim)] matrix; transformers keep the shape of their
    input; a linear layer changes the last dimension; the two parameters
    are drawn with shapes [(1, 1, dim)] and [(dim)]. *)
Class ExternalsSpec (E : Externals) : Prop := {
  encode_shape wave_dim num_latent_tokens p d cube waves B C H W :
    0 < p → 0 < C → 0 < H → shape4 cube B C H W →
    ∃ patches waves_encoded,
      DynamicEmbedding_encode wave_dim num_latent_tokens p d cube waves
        = Ok (patches, waves_encoded) ∧
      shape3 patches B ((H / p) * (W / p)) d;
  decode_shape wave_dim num_latent_tokens p d tokens waves B T :
    shape3 tokens B T d →
    ∃ pixels waves_encoded,
      DynamicEmbedding_decode wave_dim num_latent_tokens p d tokens waves
        = Ok (pixels, waves_encoded) ∧
      shape3 pixels B T (tensor_length waves * p * p);
  transformer_shape dim depth heads dim_head mlp_dim x B T :
    shape3 x B T dim →
    ∃ y, Transformer dim depth heads dim_head mlp_dim x = Ok y ∧ shape3 y B T dim;
  linear_shape in_features out_features x B T :
    shape3 x B T in_features →
    ∃ y, Linear in_features out_features x = Ok y ∧ shape3 y B T out_features;
  posemb_shape h w dim gsd :
    (0 ≤ dim)%Z →
    ∃ pos, posemb_sincos_2d_with_gsd h w dim gsd = Ok pos ∧
           shape2 pos (h * w) (Z.to_nat dim);
  cls_token_shape dim : shape3 (cls_token_init dim) 1 1 dim;
  mask_patch_shape dim : length (mask_patch_init dim) = dim;
}.

(** [returns r P]: the call [r] does not raise and its value satisfies
    [P]. *)
Definition returns {A} (r : result A) (P : A → Prop) : Prop :=
  ∃ a, r = Ok a ∧ P a.

(** The submodules of an encoder and of a decoder are those their
    [__init__] builds. *)
Definition Encoder_built `{Externals} (self : Encoder.t) : Prop :=
  ∃ depth heads dim_head mlp_dim,
    Encoder.patch_embedding self
      = DynamicEmbedding_encode 128 128 (Encoder.patch_size self) (Encoder.dim self) ∧
    Encoder.transformer self
      = Transformer (Encoder.dim self) depth heads dim_head mlp_dim ∧
    Encoder.cls_token self = cls_token_init (Encoder.dim self).

Definition Decoder_built `{Externals} (self : Decoder.t) : Prop :=
  ∃ depth heads dim_head mlp_dim,
    Decoder.enc_to_dec self
      = (if decide (Decoder.encoder_dim self ≠ Decoder.dim self)
         then Linear (Decoder.encoder_dim self) (Decoder.dim self) else Ok) ∧
    Decoder.mask_patch self = mask_patch_init (Decoder.dim self) ∧
    Decoder.transformer self
      = Transformer (Decoder.dim self) depth heads dim_head mlp_dim ∧
    Decoder.embed_to_pixels self
      = DynamicEmbedding_decode 128 128 (Decoder.patch_size self) (Decoder.dim self).

(** An encoder of the tiny configuration over these collaborators, and
    the scores [(4 l + b) mod 9], distinct within a row of up to nine
    patches. *)
Definition sample_encoder (mask_ratio : Q) : Encoder.t :=
  Encoder.__init__ (H := sample_externals) mask_ratio 16 192 4 4 48 2.

Definition sample_randn (b l : nat) : Q := inject_Z (Z.of_nat ((4 * l + b) `mod` 9)).

Definition sample_model (mask_ratio : Q) (patch_size : nat) : ClayMAE.t :=
  clay_mae_tiny (H := sample_externals) mask_ratio patch_size false.

(** A datacube of zeros with ground sample distance 10 and unit
    wavelengths. *)
Definition sample_datacube (B C H W : nat) : Datacube.t :=
  Datacube.mk (replicate B (replicate C (replicate H (replicate W 0%R))))
    (replicate B [0; 0]%R) (replicate B [0; 0]%R)
    (Nested (replicate B (Nested [Scalar 10%R])))
    (Nested (replicate B (Nested (replicate C (Scalar 1%R))))).

(** Tables over [sample_externals]: one row per prediction, all of one
    tile and one day. *)
Definition sample_tables : Tables (H := sample_externals) := {|
  pd_concat _ := Ok (tt : @GeoDataFrame sample_externals);
  source_url_column _ := ["s3://bucket/claytile_12ABC_20201231_v02_0001.tif"];
  loc_reset_index gdf _ := gdf;
  minmax_date _ := Ok ("20201231", "20201231");
  len_gdf _ := 1;
  embeddings_shape _ := Ok "(768,)";
  re_match _ _ := true;
|}.

(** * Properties *)

(** ** The error monad *)

Lemma bind_Ok_inv {A B} (r : result A) (f : A → result B) (b : B) :
  r ≫= f = Ok b → ∃ a, r = Ok a ∧ f a = Ok b.
Proof. destruct r as [a|e]; [eauto | discriminate]. Qed.

Lemma mapM_Ok {A B} (f : A → result B) (g : A → B) (l : list A) :
  Forall (λ x, f x = Ok (g x)) l → mapM f l = Ok (g <$> l).
Proof.
  induction 1 as [|x l Hx _ IH]; [done|].
  cbn. rewrite Hx. cbn. by rewrite IH.
Qed.

Lemma mapM_Ok_inv {A B} (f : A → result B) (l : list A) (k : list B) :
  mapM f l = Ok k → Forall2 (λ x y, f x = Ok y) l k.
Proof.
  revert k. induction l as [|x l IH]; intros k Hk; cbn in Hk.
  - injection Hk as <-. constructor.
  - apply bind_Ok_inv in Hk as (y & Hy & Hk).
    apply bind_Ok_inv in Hk as (k' & Hk' & Hk).
    injection Hk as <-. constructor; auto.
Qed.

Lemma zipM_Ok {A B C} (f : A → B → result C) (g : A → B → C) (l1 : list A) (l2 : list B) :
  length l1 = length l2 →
  (∀ i x y, l1 !! i = Some x → l2 !! i = Some y → f x y = Ok (g x y)) →
  zipM f l1 l2 = Ok (zip_with g l1 l2).
Proof.
  intros Hlen Hf. unfold zipM. rewrite decide_True by done.
  rewrite (mapM_Ok _ (λ ab, g ab.1 ab.2)).
  - f_equal. clear. revert l2.
    induction l1 as [|x l1 IH]; intros [|y l2]; cbn; f_equal; auto.
  - apply Forall_lookup_2. intros i [x y] Hi.
    apply lookup_zip_with_Some in Hi as (x' & y' & [= <- <-] & Hx & Hy). eauto.
Qed.

Lemma zipM_Ok_inv {A B C} (f : A → B → result C) (l1 : list A) (l2 : list B) (k : list C) :
  zipM f l1 l2 = Ok k →
  length l1 = length l2 ∧ length k = length l1 ∧
  ∀ i x y z, l1 !! i = Some x → l2 !! i = Some y → k !! i = Some z → f x y = Ok z.
Proof.
  unfold zipM. case_decide as Hlen; [|discriminate]. intros Hk.
  apply mapM_Ok_inv in Hk. split; [done|]. split.
  - apply Forall2_length in Hk. rewrite <-Hk, length_zip_with. lia.
  - intros i x y z Hx Hy Hz.
    eapply (Forall2_lookup_lr _ _ _ i (x, y) z) in Hk; [done| |done].
    apply lookup_zip_with_Some. eauto.
Qed.

(** ** Sorting indices *)

Global Instance Qle_total : Total Qle.
Proof. intros x y. destruct (Qlt_le_dec x y); [left; by apply Qlt_le_weak | by right]. Qed.
Global Instance Qle_transitive : Transitive Qle.
Proof. intros x y z. apply Qle_trans. Qed.

Section argsort_facts.
Context {A : Type} `{Inhabited A} (le : relation A) `{∀ x y, Decision (le x y)}.
Implicit Types keys : list A.

Lemma argsort_Permutation keys : argsort le keys ≡ₚ seq 0 (length keys).
Proof. apply merge_sort_Permutation. Qed.

Lemma length_argsort keys : length (argsort le keys) = length keys.
Proof. by rewrite argsort_Permutation, length_seq. Qed.

Lemma elem_of_argsort keys i : i ∈ argsort le keys ↔ i < length keys.
Proof. rewrite argsort_Permutation, elem_of_seq. lia. Qed.

Lemma NoDup_argsort keys : NoDup (argsort le keys).
Proof. rewrite argsort_Permutation. apply NoDup_seq. Qed.

Lemma Sorted_argsort `{!Total le} keys : Sorted (key_le le keys) (argsort le keys).
Proof.
  apply Sorted_merge_sort. intros i j. unfold key_le. apply (total le).
Qed.

(** The keys, read in the order [argsort] gives, ascend. *)
Lemma Sorted_argsort_keys `{!Total le} keys :
  Sorted le ((keys !!!.) <$> argsort le keys).
Proof. eapply Sorted_fmap, Sorted_argsort. auto. Qed.

(** Keys that are already strictly ascending are left in place. *)
Lemma argsort_ascending `{!Total le, !Transitive le} keys :
  (∀ i j, i < j < length keys → le (keys !!! i) (keys !!! j)) →
  (∀ i j, i < j < length keys → ¬ le (keys !!! j) (keys !!! i)) →
  argsort le keys = seq 0 (length keys).
Proof.
  intros Hasc Hstrict.
  assert (Transitive (key_le le keys)).
  { intros i j k. unfold key_le. apply transitivity. }
  apply (Sorted_unique_strong (key_le le keys)).
  - intros i j Hi Hj Hij Hji.
    apply elem_of_argsort in Hi. apply elem_of_seq in Hj.
    destruct (decide (i = j)) as [|Hne]; [done|]. exfalso.
    destruct (decide (i < j)).
    + apply (Hstrict i j); [lia | done].
    + apply (Hstrict j i); [lia | done].
  - apply Sorted_argsort.
  - assert (∀ n s, s + n ≤ length keys → Sorted (key_le le keys) (seq s n)) as Hs.
    { induction n as [|n IH]; intros s Hs; cbn; constructor.
      - apply IH. lia.
      - destruct n; cbn; constructor. apply Hasc. lia. }
    by apply Hs.
  - apply argsort_Permutation.
Qed.
End argsort_facts.

Lemma Sorted_le_seq (s n : nat) : Sorted le (seq s n).
Proof.
  revert s. induction n as [|n IH]; intros s; cbn; constructor; [apply IH|].
  destruct n; cbn; constructor. lia.
Qed.

Lemma fmap_lookup_total_seq {A} `{Inhabited A} (l : list A) :
  (l !!!.) <$> seq 0 (length l) = l.
Proof.
  apply list_eq. intros i. rewrite list_lookup_fmap.
  destruct (decide (i < length l)) as [Hi|Hi].
  - rewrite lookup_seq_lt by done. cbn.
    by rewrite list_lookup_lookup_total_lt.
  - rewrite (lookup_ge_None_2 l) by lia.
    rewrite (lookup_ge_None_2 (seq _ _)); [done|]. rewrite length_seq. lia.
Qed.

(** Sorting a permutation of [0..n-1] yields its inverse. *)
Lemma argsort_inverse (p : list nat) :
  p ≡ₚ seq 0 (length p) → (p !!!.) <$> argsort le p = seq 0 (length p).
Proof.
  intros Hp. apply (Sorted_unique le).
  - apply Sorted_argsort_keys; apply _.
  - apply Sorted_le_seq.
  - rewrite argsort_Permutation, fmap_lookup_total_seq. done.
Qed.

Lemma argsort_inverse_lookup (p : list nat) (j : nat) :
  p ≡ₚ seq 0 (length p) → j < length p →
  ∃ i, argsort le p !! j = Some i ∧ p !! i = Some j.
Proof.
  intros Hp Hj.
  destruct (lookup_lt_is_Some_2 (argsort le p) j) as [i Hi].
  { by rewrite length_argsort. }
  exists i. split; [done|].
  assert (i < length p) as Hlt.
  { eapply elem_of_argsort, list_elem_of_lookup_2, Hi. }
  pose proof (argsort_inverse p Hp) as Hinv.
  apply (f_equal (.!! j)) in Hinv.
  rewrite list_lookup_fmap, Hi, lookup_seq_lt in Hinv by done. cbn in Hinv.
  injection Hinv as Hinv. rewrite list_lookup_lookup_total_lt by done. by f_equal.
Qed.

(** ** Slices *)

Lemma slice_bound_le (n : Z) (len : nat) : slice_bound n len ≤ len.
Proof. unfold slice_bound. destruct (Z.ltb_spec n 0); lia. Qed.

Lemma slice_bound_nonneg (n : Z) (len : nat) :
  (0 ≤ n ≤ Z.of_nat len)%Z → slice_bound n len = Z.to_nat n.
Proof. intros Hn. unfold slice_bound. destruct (Z.ltb_spec n 0); lia. Qed.

Lemma slice_to_from {A} (n : Z) (l : list A) : slice_to n l ++ slice_from n l = l.
Proof. apply take_drop. Qed.

Lemma length_slice_to {A} (n : Z) (l : list A) :
  length (slice_to n l) = slice_bound n (length l).
Proof.
  unfold slice_to. rewrite length_take. pose proof (slice_bound_le n (length l)). lia.
Qed.

Lemma length_slice_from {A} (n : Z) (l : list A) :
  length (slice_from n l) = length l - slice_bound n (length l).
Proof. unfold slice_from. by rewrite length_drop. Qed.

Lemma fill_to_replicate {A} (n : Z) (x y : A) (len : nat) :
  fill_to n x (replicate len y) =
  replicate (slice_bound n len) x ++ replicate (len - slice_bound n len) y.
Proof.
  unfold fill_to, slice_from. by rewrite length_replicate, drop_replicate.
Qed.

(** ** The dense mask of one sample *)

(** Gathering the block mask [1..1 0..0] through the inverse of the
    permutation [p] marks exactly the members of [p[:k]]. *)
Lemma gather_mask_row (p : list nat) (k : Z) (L : nat) :
  p ≡ₚ seq 0 L →
  gather (fill_to k 1%R (replicate L 0%R)) (argsort le p) =
  Ok ((λ j, if decide (j ∈ slice_to k p) then 1%R else 0%R) <$> seq 0 L).
Proof.
  intros Hp.
  assert (length p = L) as Hlen by (by rewrite Hp, length_seq).
  assert (NoDup p) as Hnd by (rewrite Hp; apply NoDup_seq).
  rewrite <-Hlen in Hp.
  set (base := fill_to k 1%R (replicate L 0%R)).
  assert (length base = L) as Hbase.
  { unfold base. rewrite fill_to_replicate, length_app, !length_replicate.
    pose proof (slice_bound_le k L). lia. }
  unfold gather. rewrite (mapM_Ok _ (base !!!.)).
  2:{ apply Forall_forall. intros i Hi. apply elem_of_argsort in Hi.
      rewrite list_lookup_lookup_total_lt by lia. done. }
  f_equal. apply list_eq. intros j. rewrite !list_lookup_fmap.
  destruct (decide (j < L)) as [Hj|Hj].
  2:{ rewrite !lookup_ge_None_2; [done| |]; rewrite ?length_seq, ?length_argsort; lia. }
  destruct (argsort_inverse_lookup p j Hp) as (i & Hi & Hpi); [lia|].
  rewrite Hi, lookup_seq_lt by done. cbn. f_equal.
  assert (i < L) as HiL by (apply lookup_lt_Some in Hpi; lia).
  unfold base. rewrite fill_to_replicate. unfold slice_to. rewrite Hlen.
  pose proof (slice_bound_le k L) as Hs.
  destruct (decide (i < slice_bound k L)) as [Hlt|Hge].
  - rewrite decide_True.
    + apply list_lookup_total_correct.
      rewrite lookup_app_l by (rewrite length_replicate; lia).
      by apply lookup_replicate_2.
    + apply elem_of_take. eauto.
  - rewrite decide_False.
    + apply list_lookup_total_correct.
      rewrite lookup_app_r by (rewrite length_replicate; lia).
      apply lookup_replicate_2. rewrite length_replicate. lia.
    + intros (i' & Hi' & Hlt')%elem_of_take.
      assert (i = i') by (eapply NoDup_lookup; eauto). lia.
Qed.

Lemma mapM_Ok_Forall2 {A B} (f : A → result B) (l : list A) (k : list B) :
  Forall2 (λ x y, f x = Ok y) l k → mapM f l = Ok k.
Proof.
  induction 1 as [|x y l k Hx _ IH]; [done|].
  cbn. rewrite Hx. cbn. by rewrite IH.
Qed.

Lemma zipM_Ok_lookup {A B C} (f : A → B → result C) (l1 : list A) (l2 : list B)
    (k : list C) :
  length l1 = length l2 → length k = length l1 →
  (∀ i x y z, l1 !! i = Some x → l2 !! i = Some y → k !! i = Some z → f x y = Ok z) →
  zipM f l1 l2 = Ok k.
Proof.
  intros Hlen Hk Hf. unfold zipM. rewrite decide_True by done.
  apply mapM_Ok_Forall2, Forall2_same_length_lookup_2.
  - rewrite length_zip_with. lia.
  - intros i [x y] z Hxy Hz.
    apply lookup_zip_with_Some in Hxy as (x' & y' & [= <- <-] & Hx & Hy). eauto.
Qed.

(** ** The masking engine *)

Section mask_out_facts.
Variables (self : Encoder.t) (randn : nat → nat → Q).

Lemma length_noise (B L : nat) : length (Encoder.noise self randn B L) = B.
Proof. unfold Encoder.noise. destruct (Encoder.training self); by rewrite length_fmap, length_seq. Qed.

Lemma length_noise_row (B L b : nat) (row : list Q) :
  Encoder.noise self randn B L !! b = Some row → length row = L.
Proof.
  unfold Encoder.noise. destruct (Encoder.training self);
    rewrite list_lookup_fmap; intros Hrow;
    apply fmap_Some in Hrow as (b' & _ & ->); by rewrite length_fmap, length_seq.
Qed.

(** The shuffle of sample [b] is a permutation of the patch indices. *)
Lemma random_indices_Permutation (B L b : nat) (p : list nat) :
  (argsort Qle <$> Encoder.noise self randn B L) !! b = Some p → p ≡ₚ seq 0 L.
Proof.
  rewrite list_lookup_fmap. intros (row & Hrow & ->)%fmap_Some.
  rewrite argsort_Permutation. by rewrite (length_noise_row _ _ _ _ Hrow).
Qed.

(** What [mask_out] returns on a batch of patch sequences, once
    [add_encodings] has assigned [num_patches]. *)
Lemma mask_out_Ok (patches : tensor3) (n : nat) :
  Forall (λ m, length m = size1 patches) patches →
  Encoder.num_patches self = Some n →
  let B := length patches in
  let L := size1 patches in
  let random_indices := argsort Qle <$> Encoder.noise self randn B L in
  let k := Encoder.num_masked (Encoder.mask_ratio self) n in
  Encoder.mask_out self randn patches =
    Ok (zip_with (λ row idx, (row !!!.) <$> idx) patches (slice_from k <$> random_indices),
        slice_from k <$> random_indices,
        slice_to k <$> random_indices,
        (λ p, (λ j, if decide (j ∈ slice_to k p) then 1%R else 0%R) <$> seq 0 L)
          <$> random_indices).
Proof.
  intros Hrect Hn B L ri k. unfold Encoder.mask_out. rewrite Hn. cbn [from_lookup].
  fold B L. fold ri. fold k.
  assert (length ri = B) as Hri by (unfold ri; by rewrite length_fmap, length_noise).
  assert (∀ b p, ri !! b = Some p → p ≡ₚ seq 0 L) as Hperm.
  { intros b p. apply random_indices_Permutation. }
  clearbody ri.
  assert (∀ (sl : list nat → list nat),
            (∀ p, sl p ⊆ p) →
            index_select patches (sl <$> ri) =
            Ok (zip_with (λ row idx, (row !!!.) <$> idx) patches (sl <$> ri))) as Hsel.
  { intros sl Hsl. unfold index_select. apply zipM_Ok.
    - rewrite length_fmap. lia.
    - intros b row idx Hrow Hidx. apply mapM_Ok, Forall_forall. intros i Hi.
      rewrite list_lookup_fmap in Hidx. apply fmap_Some in Hidx as (p & Hp & ->).
      apply Hsl in Hi. rewrite (Hperm _ _ Hp) in Hi. apply elem_of_seq in Hi.
      rewrite list_lookup_lookup_total_lt; [done|].
      rewrite Forall_lookup in Hrect. rewrite (Hrect _ _ Hrow). fold L. lia. }
  cbn.
  rewrite (zipM_Ok_lookup gather _ _
    ((λ p, (λ j, if decide (j ∈ slice_to k p) then 1%R else 0%R) <$> seq 0 L) <$> ri)).
  - cbn. fold k. rewrite (Hsel (slice_from k)).
    2:{ intros p x (i & Hi)%list_elem_of_lookup_1. unfold slice_from in Hi.
        rewrite lookup_drop in Hi. eapply list_elem_of_lookup_2, Hi. }
    cbn. rewrite (Hsel (slice_to k)).
    2:{ intros p x (i & Hi & _)%elem_of_take. by eapply list_elem_of_lookup_2. }
    done.
  - rewrite !length_fmap, length_replicate. lia.
  - rewrite !length_fmap, length_replicate. lia.
  - intros b x y z Hx Hy Hz.
    rewrite list_lookup_fmap in Hx. rewrite list_lookup_fmap in Hy.
    rewrite list_lookup_fmap in Hz.
    apply fmap_Some in Hz as (p & Hp & ->).
    rewrite Hp in Hy. cbn in Hy. injection Hy as <-.
    apply fmap_Some in Hx as (x0 & Hx0 & ->).
    apply lookup_replicate in Hx0 as [-> _].
    apply gather_mask_row. eauto.
Qed.
End mask_out_facts.

Lemma shape3_rect {A} (t : list (list (list A))) (B L D : nat) :
  shape3 t B L D → Forall (λ m, length m = size1 t) t ∧ (t ≠ [] → size1 t = L).
Proof.
  intros [_ Hrows]. destruct t as [|m t]; [by split|].
  assert (length m = L) as Hm by (by inversion Hrows as [|?? [? _]]).
  unfold size1. cbn. split; [|done].
  eapply Forall_impl; [exact Hrows|]. intros m' [Hm' _]. cbn in Hm'. congruence.
Qed.

(** ** Floating-point products *)

Lemma rint_nonneg (x : Q) : (0 <= x)%Q → (0 ≤ rint x)%Z.
Proof.
  intros Hx. unfold rint.
  assert (0 ≤ Qfloor x)%Z as Hf.
  { change 0%Z with (Qfloor 0). by apply Qfloor_resp_le. }
  destruct (_ ?= _)%Q; [destruct (Z.even _)| |]; lia.
Qed.

Lemma rint_le (x : Q) (N : Z) : (x <= inject_Z N)%Q → (rint x ≤ N)%Z.
Proof.
  intros Hx. unfold rint.
  assert (Qfloor x ≤ N)%Z as Hf.
  { rewrite <-(Qfloor_Z N). by apply Qfloor_resp_le. }
  destruct (decide (Qfloor x = N)) as [Heq|Hne].
  - assert (x - inject_Z (Qfloor x) < 1 # 2)%Q as Hlt.
    { rewrite Heq. apply Qle_lt_trans with 0%Q; [|done].
      apply Qle_trans with (inject_Z N + - inject_Z N)%Q.
      - by apply Qplus_le_l.
      - rewrite Qplus_opp_r. apply Qle_refl. }
    rewrite Qlt_alt in Hlt. rewrite Hlt. lia.
  - destruct (_ ?= _)%Q; [destruct (Z.even _)| |]; lia.
Qed.

Lemma ldexp_1_nonneg (l : Z) : (0 ≤ l)%Z → ldexp 1 l = (1 * inject_Z (2 ^ l))%Q.
Proof. intros Hl. unfold ldexp. by destruct (Z.leb_spec 0 l); [|lia]. Qed.

(** A positive [x] is at least [2 ** c] for every [c] from 0 to
    [ilogb x]. *)
Lemma ilogb_ge (x : Q) (c : Z) :
  (0 < x)%Q → (0 ≤ c ≤ ilogb x)%Z → (inject_Z (2 ^ c) <= x)%Q.
Proof.
  intros Hx [Hc Hcl]. unfold ilogb in Hcl.
  destruct x as [a b]. cbn [Qnum Qden] in Hcl.
  assert (0 < a)%Z as Ha by (unfold Qlt in Hx; cbn in Hx; lia).
  pose proof (Z.log2_spec a Ha) as [HA1 HA2].
  pose proof (Z.log2_spec (Z.pos b) ltac:(lia)) as [HB1 HB2].
  pose proof (Z.log2_nonneg a) as HA0. pose proof (Z.log2_nonneg (Z.pos b)) as HB0.
  set (A := Z.log2 a) in *. set (Bq := Z.log2 (Z.pos b)) in *.
  destruct (Qle_bool (ldexp 1 (A - Bq)) (a # b)) eqn:Hle.
  - apply Qle_bool_iff in Hle. rewrite ldexp_1_nonneg in Hle by lia.
    eapply Qle_trans; [|exact Hle]. rewrite Qmult_1_l.
    rewrite <-Zle_Qle. apply Z.pow_le_mono_r; lia.
  - unfold Qle. cbn [Qnum Qden inject_Z]. rewrite Z.mul_1_r.
    assert (2 ^ c ≤ 2 ^ (A - Bq - 1))%Z as Hpow by (apply Z.pow_le_mono_r; lia).
    assert (2 ^ (A - Bq - 1) * 2 ^ (Z.succ Bq) = 2 ^ A)%Z as Hsplit.
    { rewrite <-Z.pow_add_r by lia. f_equal. lia. }
    assert (0 < 2 ^ c)%Z by (apply Z.pow_pos_nonneg; lia).
    nia.
Qed.

(** Rounding a value that is at most an integer below [2 ** 53] does not
    pass that integer. *)
Lemma float_bound (x : Q) (N : Z) :
  (0 <= x)%Q → (x <= inject_Z N)%Q → (N < 2 ^ 53)%Z →
  (0 <= float x ∧ float x <= inject_Z N)%Q.
Proof.
  intros H0 HN H53. unfold float.
  destruct (Qeq_bool x 0) eqn:Hz.
  { split; [done|]. by apply Qle_trans with x. }
  apply Qeq_bool_neq in Hz.
  assert (0 < x)%Q as Hpos.
  { apply Qle_lteq in H0 as [?|Heq]; [done|]. by destruct Hz. }
  assert (Qabs x = x) as ->.
  { destruct x as [a b]. unfold Qle in H0. cbn in H0 |- *.
    by rewrite Z.abs_eq by lia. }
  assert (ilogb x ≤ 52)%Z as Hlog.
  { destruct (Z.le_gt_cases (ilogb x) 52) as [?|Hgt]; [done|].
    pose proof (ilogb_ge x 53 Hpos ltac:(lia)) as Hge.
    assert (inject_Z (2 ^ 53) <= inject_Z N)%Q as Hc by (by apply Qle_trans with x).
    rewrite <-Zle_Qle in Hc. lia. }
  set (e := Z.max (ilogb x - 52) (-1074)).
  assert (e ≤ 0)%Z as He by lia. clearbody e.
  set (P := (2 ^ (- e))%Z).
  assert (0 < P)%Z as HP by (apply Z.pow_pos_nonneg; lia).
  assert (ldexp x (- e) = x * inject_Z P)%Q as ->.
  { unfold ldexp. by destruct (Z.leb_spec 0 (- e)); [|lia]. }
  set (m := rint (x * inject_Z P)).
  assert (0 ≤ m ≤ N * P)%Z as [Hm0 HmN].
  { split.
    - apply rint_nonneg. apply Qmult_le_0_compat; [done|]. rewrite <-(Zle_Qle 0). lia.
    - apply rint_le. rewrite inject_Z_mult. apply Qmult_le_compat_r; [done|].
      rewrite <-(Zle_Qle 0). lia. }
  clearbody m. unfold ldexp. destruct (Z.leb_spec 0 e) as [He0|He0].
  - assert (e = 0)%Z as -> by lia. change (2 ^ 0)%Z with 1%Z.
    change (- 0)%Z with 0%Z in P. change (2 ^ 0)%Z with 1%Z in P. unfold P in HmN.
    rewrite Qmult_1_r, <-(Zle_Qle 0), <-Zle_Qle. lia.
  - fold P. split.
    + apply Qle_shift_div_l; [by rewrite <-(Zlt_Qlt 0)|].
      rewrite Qmult_0_l, <-(Zle_Qle 0). done.
    + apply Qle_shift_div_r; [by rewrite <-(Zlt_Qlt 0)|].
      rewrite <-inject_Z_mult, <-Zle_Qle. done.
Qed.

Lemma int_bound (y : Q) (N : Z) :
  (0 <= y)%Q → (y <= inject_Z N)%Q → (0 ≤ int y ≤ N)%Z.
Proof.
  intros H0 HN. unfold int. destruct y as [a b].
  unfold Qle in *. cbn in *.
  assert (0 ≤ a)%Z by lia. assert (a ≤ N * Z.pos b)%Z by lia.
  rewrite Z.quot_div_nonneg by lia.
  split; [apply Z.div_pos; lia|].
  apply Z.div_le_upper_bound; lia.
Qed.

Lemma mul_float_int_bound (r : Q) (n : Z) :
  (0 <= r)%Q → (r < 1)%Q → (0 ≤ n < 2 ^ 53)%Z →
  (0 ≤ int (mul_float_int r n) ≤ n)%Z.
Proof.
  intros H0 H1 [Hn0 Hn]. unfold mul_float_int.
  destruct (float_bound (inject_Z n) n) as [Hf0 Hfn];
    [by rewrite <-(Zle_Qle 0)|apply Qle_refl|done|].
  assert (0 <= r * float (inject_Z n))%Q as Hp0 by by apply Qmult_le_0_compat.
  assert (r * float (inject_Z n) <= inject_Z n)%Q as Hpn.
  { apply Qle_trans with (1 * float (inject_Z n))%Q.
    - apply Qmult_le_compat_r; [by apply Qlt_le_weak|done].
    - by rewrite Qmult_1_l. }
  destruct (float_bound _ n Hp0 Hpn Hn). by apply int_bound.
Qed.

(** The number of masked patches for a ratio in [[0, 1)] and a patch
    count that a double holds exactly stays within the count. *)
Lemma num_masked_bounds (r : Q) (n : nat) :
  (0 <= r)%Q → (r < 1)%Q → (Z.of_nat n < 2 ^ 53)%Z →
  (0 ≤ Encoder.num_masked r n ≤ Z.of_nat n)%Z.
Proof.
  intros H0 H1 Hn. unfold Encoder.num_masked.
  apply mul_float_int_bound; [done|done|lia].
Qed.

Section masking_engine.
Variables (self : Encoder.t) (randn : nat → nat → Q).
Variables (patches : tensor3) (B L D n : nat).
Hypothesis Hshape : shape3 patches B L D.
Hypothesis Hn : Encoder.num_patches self = Some n.

Let k : Z := Encoder.num_masked (Encoder.mask_ratio self) n.

(** Sample by sample: the shuffle [p] is a permutation of the indices,
    the masked indices are [p[:k]], the unmasked ones [p[k:]], and the
    dense mask marks the members of [p[:k]]. *)
Lemma mask_out_samples :
  ∃ up ui mi mm,
    Encoder.mask_out self randn patches = Ok (up, ui, mi, mm) ∧
    length ui = B ∧ length mi = B ∧ length mm = B ∧
    ∀ b, b < B →
      ∃ p, (argsort Qle <$> Encoder.noise self randn B L) !! b = Some p ∧
           p ≡ₚ seq 0 L ∧
           mi !! b = Some (slice_to k p) ∧
           ui !! b = Some (slice_from k p) ∧
           mm !! b = Some ((λ j, if decide (j ∈ slice_to k p) then 1%R else 0%R)
                             <$> seq 0 L).
Proof.
  destruct (shape3_rect _ _ _ _ Hshape) as [Hrect HL].
  destruct Hshape as [HB _].
  eexists _, _, _, _. split; [by apply mask_out_Ok|].
  rewrite !length_fmap, !length_noise. repeat split; try done.
  intros b Hb.
  assert (size1 patches = L) as -> by (apply HL; intros ->; cbn in HB; lia).
  rewrite HB.
  destruct (lookup_lt_is_Some_2 (argsort Qle <$> Encoder.noise self randn B L) b)
    as [p Hp].
  { by rewrite length_fmap, length_noise. }
  exists p. split; [done|]. split; [by eapply random_indices_Permutation|].
  rewrite list_lookup_fmap in Hp.
  repeat split; repeat (rewrite list_lookup_fmap); by rewrite Hp.
Qed.
End masking_engine.

(** [add_encodings] assigns [num_patches] and leaves the configuration
    of the encoder alone. *)
Lemma add_encodings_num_patches `{Externals} (self self' : Encoder.t)
    (patches out : tensor3) (time latlon : tensor2) (gsd : tensor) :
  Encoder.add_encodings self patches time latlon gsd = Ok (self', out) →
  self' = Encoder.set_num_patches self (Nat.sqrt (size1 patches) ^ 2).
Proof.
  unfold Encoder.add_encodings. intros Hadd.
  apply bind_Ok_inv in Hadd as (gsd0 & _ & Hadd).
  apply bind_Ok_inv in Hadd as (pos & _ & Hadd).
  apply bind_Ok_inv in Hadd as (md & _ & Hadd).
  apply bind_Ok_inv in Hadd as (pme & _ & Hadd).
  apply bind_Ok_inv in Hadd as (sum & _ & Hadd).
  by injection Hadd as <- _.
Qed.

(** ** Claims about the masking engine *)

(** C1 (as amended): for patches of shape [(B, L, D)] with [L] below
    [2 ** 53], a mask ratio in [[0, 1)] and [num_patches] as
    [add_encodings] assigns it, [mask_out] returns [B] masked and [B]
    unmasked index lists; for every sample the two lists together are a
    permutation of [0..L-1] without duplicates, and the number of masked
    indices is [int(mask_ratio * num_patches)], the floating-point product
    (the exact product rounded to the nearest double) truncated, with
    [num_patches = int(sqrt(L)) ** 2]. *)
Theorem mask_out_partition (self : Encoder.t) (randn : nat → nat → Q)
    (patches : tensor3) (B L D : nat) :
  shape3 patches B L D →
  (Z.of_nat L < 2 ^ 53)%Z →
  (0 <= Encoder.mask_ratio self)%Q → (Encoder.mask_ratio self < 1)%Q →
  Encoder.num_patches self = Some (Nat.sqrt L ^ 2) →
  ∃ up ui mi mm,
    Encoder.mask_out self randn patches = Ok (up, ui, mi, mm) ∧
    length mi = B ∧ length ui = B ∧
    ∀ b m u, mi !! b = Some m → ui !! b = Some u →
      m ++ u ≡ₚ seq 0 L ∧ NoDup (m ++ u) ∧
      Z.of_nat (length m) =
        int (mul_float_int (Encoder.mask_ratio self) (Z.of_nat (Nat.sqrt L ^ 2))) ∧
      length u = L - length m.
Proof.
  intros Hshape H53 H0 H1 Hn.
  destruct (mask_out_samples self randn patches B L D _ Hshape Hn)
    as (up & ui & mi & mm & Hout & Hui & Hmi & Hmm & Hrows).
  exists up, ui, mi, mm. split; [done|]. split; [done|]. split; [done|].
  intros b m u Hm Hu.
  destruct (Hrows b) as (p & _ & Hp & Hm' & Hu' & _).
  { apply lookup_lt_Some in Hm. lia. }
  assert (length p = L) as Hlen by (by rewrite Hp, length_seq).
  simplify_eq. split; [|split; [|split]].
  - by rewrite slice_to_from.
  - rewrite slice_to_from, Hp. apply NoDup_seq.
  - rewrite length_slice_to.
    pose proof (Nat.sqrt_spec' (length p)) as Hsq.
    assert (Nat.sqrt (length p) ^ 2 ≤ length p) as Hsq' by (unfold Nat.pow; nia).
    pose proof (num_masked_bounds _ (Nat.sqrt (length p) ^ 2) H0 H1 ltac:(lia)) as Hk.
    rewrite slice_bound_nonneg by lia.
    unfold Encoder.num_masked in *. lia.
  - rewrite length_slice_to, length_slice_from. done.
Qed.

Ltac solve_shape :=
  lazymatch goal with
  | |- shape2 _ _ _ => idtac
  | |- shape3 _ _ _ _ => idtac
  | |- shape4 _ _ _ _ _ => idtac
  end;
  repeat first [ split | constructor | reflexivity ].

(** At the ratio 0.7 and 100 patches the product rounds to 70.0 and 70
    patches are masked; the exact product of the double 0.7 and 100 lies
    below 70. *)
Lemma mask_out_partition_witness :
  let self := Encoder.set_num_patches (sample_encoder (float (7 # 10))) 100 in
  int (mul_float_int (float (7 # 10)) (Z.of_nat (Nat.sqrt 100 ^ 2))) = 70%Z ∧
  int (float (7 # 10) * inject_Z (Z.of_nat (Nat.sqrt 100 ^ 2))) = 69%Z ∧
  ∃ up ui mi mm,
    Encoder.mask_out self sample_randn (zeros3 2 100 1) = Ok (up, ui, mi, mm) ∧
    length mi = 2 ∧ length ui = 2 ∧
    ∀ b m u, mi !! b = Some m → ui !! b = Some u →
      m ++ u ≡ₚ seq 0 100 ∧ NoDup (m ++ u) ∧
      Z.of_nat (length m) =
        int (mul_float_int (float (7 # 10)) (Z.of_nat (Nat.sqrt 100 ^ 2))) ∧
      length u = 100 - length m.
Proof.
  split; [vm_compute; reflexivity|]. split; [vm_compute; reflexivity|].
  apply (mask_out_partition
           (Encoder.set_num_patches (sample_encoder (float (7 # 10))) 100)
           sample_randn (zeros3 2 100 1) 2 100 1);
    [solve_shape | done | vm_compute; discriminate | vm_compute; reflexivity
    | reflexivity].
Defined.

(** C1, the claim as stated fails: with [mask_ratio = 0.75] and nine patches
    the engine masks [int(6.75) = 6] patches, while [round(0.75 * 9)] is 7. *)
Lemma mask_out_round_counterexample :
  let self := Encoder.set_num_patches (sample_encoder (3 # 4)) 9 in
  Encoder.mask_out self sample_randn (zeros3 1 9 1) =
    Ok ([[[0%R]; [0%R]; [0%R]]],
        [[6; 4; 2]],
        [[0; 7; 5; 3; 1; 8]],
        [[1; 1; 0; 1; 0; 1; 0; 1; 1]%R]) ∧
  round ((3 # 4) * inject_Z 9) = 7%Z ∧
  Z.of_nat (length [0; 7; 5; 3; 1; 8]) ≠ round ((3 # 4) * inject_Z 9).
Proof. vm_compute. split; [reflexivity|]. split; [reflexivity | discriminate]. Qed.

(** In evaluation mode every sample keeps the original patch order. *)
Lemma eval_random_indices (self : Encoder.t) (randn : nat → nat → Q) (B L : nat) :
  Encoder.training self = false →
  argsort Qle <$> Encoder.noise self randn B L = replicate B (seq 0 L).
Proof.
  intros Heval. unfold Encoder.noise. rewrite Heval.
  symmetry. apply replicate_as_Forall. split; [by rewrite !length_fmap, length_seq|].
  rewrite <-list_fmap_compose. apply Forall_fmap, Forall_forall. intros b _. cbn.
  symmetry.
  set (keys := (λ l, inject_Z (Z.of_nat (b * L + l))) <$> seq 0 L).
  assert (length keys = L) as Hlen by (unfold keys; by rewrite length_fmap, length_seq).
  assert (∀ i, i < L → keys !!! i = inject_Z (Z.of_nat (b * L + i))) as Hkey.
  { intros i Hi. apply list_lookup_total_correct. unfold keys.
    rewrite list_lookup_fmap, lookup_seq_lt by done. done. }
  rewrite <-Hlen at 1. apply argsort_ascending; try apply _; rewrite Hlen.
  - intros i j Hij. rewrite !Hkey by lia. rewrite <-Zle_Qle. lia.
  - intros i j Hij. rewrite !Hkey by lia. rewrite <-Zle_Qle. lia.
Qed.

Lemma mask_out_eval (self : Encoder.t) (randn : nat → nat → Q) (patches : tensor3)
    (B L D n : nat) :
  Encoder.training self = false →
  shape3 patches B L D →
  Encoder.num_patches self = Some n →
  let s := slice_bound (Encoder.num_masked (Encoder.mask_ratio self) n) L in
  ∃ up,
    Encoder.mask_out self randn patches =
      Ok (up, replicate B (seq s (L - s)), replicate B (seq 0 s),
          replicate B ((λ j, if decide (j ∈ seq 0 s) then 1%R else 0%R) <$> seq 0 L)).
Proof.
  intros Heval Hshape Hn s.
  destruct (shape3_rect _ _ _ _ Hshape) as [Hrect HL].
  destruct Hshape as [HB _].
  rewrite (mask_out_Ok _ _ _ n Hrect Hn).
  rewrite eval_random_indices, HB by done.
  destruct B as [|B']; [by eexists|].
  rewrite HL by (intros ->; discriminate).
  rewrite !fmap_replicate. unfold slice_to, slice_from. rewrite length_seq. fold s.
  rewrite take_seq, drop_seq.
  pose proof (slice_bound_le (Encoder.num_masked (Encoder.mask_ratio self) n) L).
  fold s in H. replace (s `min` L) with s by lia. by eexists.
Qed.

(** C5: in evaluation mode the scores are the positions themselves, so for
    every sample the masked indices are [0..num_masked-1] and the unmasked
    ones the rest, in the original order, [num_masked] being the truncated
    floating-point product [int(mask_ratio * num_patches)]; two calls on
    batches of the same [B] and [L] (below [2 ** 53]) return the same index
    lists and the same dense mask, whatever the patch contents and the
    state of the random source. *)
Theorem mask_out_eval_deterministic (self : Encoder.t) (randn randn' : nat → nat → Q)
    (patches patches' : tensor3) (B L D D' n : nat) :
  Encoder.training self = false →
  shape3 patches B L D → shape3 patches' B L D' →
  (Z.of_nat L < 2 ^ 53)%Z →
  (0 <= Encoder.mask_ratio self)%Q → (Encoder.mask_ratio self < 1)%Q →
  Encoder.num_patches self = Some n → n ≤ L →
  let num_masked := Z.to_nat (Encoder.num_masked (Encoder.mask_ratio self) n) in
  ∃ up up' mm,
    Encoder.mask_out self randn patches =
      Ok (up, replicate B (seq num_masked (L - num_masked)),
          replicate B (seq 0 num_masked), mm) ∧
    Encoder.mask_out self randn' patches' =
      Ok (up', replicate B (seq num_masked (L - num_masked)),
          replicate B (seq 0 num_masked), mm).
Proof.
  intros Heval Hshape Hshape' H53 H0 H1 Hn HnL num_masked.
  destruct (mask_out_eval self randn patches B L D n Heval Hshape Hn) as [up Hup].
  destruct (mask_out_eval self randn' patches' B L D' n Heval Hshape' Hn) as [up' Hup'].
  pose proof (num_masked_bounds _ n H0 H1 ltac:(lia)) as Hk.
  rewrite slice_bound_nonneg in Hup, Hup' by lia.
  eauto.
Qed.

(** At the ratio 0.7 and 100 patches the masked indices are [0..69]. *)
Lemma mask_out_eval_deterministic_witness :
  let self :=
    Encoder.set_training
      (Encoder.set_num_patches (sample_encoder (float (7 # 10))) 100) false in
  ∃ up up' mm,
    Encoder.mask_out self sample_randn (zeros3 2 100 1) =
      Ok (up, replicate 2 (seq 70 (100 - 70)), replicate 2 (seq 0 70), mm) ∧
    Encoder.mask_out self (λ _ _, 0%Q) (zeros3 2 100 3) =
      Ok (up', replicate 2 (seq 70 (100 - 70)), replicate 2 (seq 0 70), mm).
Proof.
  apply (mask_out_eval_deterministic
           (Encoder.set_training
              (Encoder.set_num_patches (sample_encoder (float (7 # 10))) 100) false)
           sample_randn (λ _ _, 0%Q) (zeros3 2 100 1) (zeros3 2 100 3) 2 100 1 3 100);
    [reflexivity | solve_shape | solve_shape | done | vm_compute; discriminate
    | vm_compute; reflexivity | reflexivity | lia].
Defined.

(** C6: the dense mask agrees with the index lists.  For every sample [b]
    the row [masked_matrix[b]] has length [L] and entries 0 and 1 only;
    it holds 1 at every position listed in [masked_indices[b]] and 0 at
    every position listed in [unmasked_indices[b]]. *)
Theorem mask_out_matrix_consistent (self : Encoder.t) (randn : nat → nat → Q)
    (patches : tensor3) (B L D n : nat) :
  shape3 patches B L D →
  Encoder.num_patches self = Some n →
  ∃ up ui mi mm,
    Encoder.mask_out self randn patches = Ok (up, ui, mi, mm) ∧
    shape2 mm B L ∧
    ∀ b row m u, mm !! b = Some row → mi !! b = Some m → ui !! b = Some u →
      Forall (λ x, x = 0%R ∨ x = 1%R) row ∧
      ∀ j, (j ∈ m → row !! j = Some 1%R) ∧ (j ∈ u → row !! j = Some 0%R).
Proof.
  intros Hshape Hn.
  destruct (mask_out_samples self randn patches B L D _ Hshape Hn)
    as (up & ui & mi & mm & Hout & Hui & Hmi & Hmm & Hrows).
  exists up, ui, mi, mm. split; [done|]. split.
  { split; [done|]. apply Forall_lookup. intros b row Hrow.
    destruct (Hrows b) as (p & _ & _ & _ & _ & Hrow').
    { apply lookup_lt_Some in Hrow. lia. }
    simplify_eq. by rewrite length_fmap, length_seq. }
  intros b row m u Hrow Hm Hu.
  destruct (Hrows b) as (p & _ & Hp & Hm' & Hu' & Hrow').
  { apply lookup_lt_Some in Hrow. lia. }
  simplify_eq. split.
  { apply Forall_fmap, Forall_forall. intros j _. cbn. case_decide; auto. }
  assert (NoDup (slice_to (Encoder.num_masked (Encoder.mask_ratio self) n) p ++
                 slice_from (Encoder.num_masked (Encoder.mask_ratio self) n) p)) as Hnd.
  { rewrite slice_to_from, Hp. apply NoDup_seq. }
  assert (∀ j, j ∈ p → j < L) as Hlt.
  { intros j Hj. rewrite Hp in Hj. apply elem_of_seq in Hj. lia. }
  intros j. split; intros Hj.
  - assert (j < L).
    { apply Hlt. rewrite <-(slice_to_from (Encoder.num_masked (Encoder.mask_ratio self) n) p).
      apply elem_of_app. by left. }
    rewrite list_lookup_fmap, lookup_seq_lt by done. cbn. by rewrite decide_True.
  - assert (j < L).
    { apply Hlt. rewrite <-(slice_to_from (Encoder.num_masked (Encoder.mask_ratio self) n) p).
      apply elem_of_app. by right. }
    rewrite list_lookup_fmap, lookup_seq_lt by done. cbn. rewrite decide_False; [done|].
    intros Hj'. apply NoDup_app in Hnd as (_ & Hdisj & _). by apply (Hdisj j).
Qed.

Lemma mask_out_matrix_consistent_witness :
  let self := Encoder.set_num_patches (sample_encoder (3 # 4)) 9 in
  ∃ up ui mi mm,
    Encoder.mask_out self sample_randn (zeros3 2 9 1) = Ok (up, ui, mi, mm) ∧
    shape2 mm 2 9 ∧
    ∀ b row m u, mm !! b = Some row → mi !! b = Some m → ui !! b = Some u →
      Forall (λ x, x = 0%R ∨ x = 1%R) row ∧
      ∀ j, (j ∈ m → row !! j = Some 1%R) ∧ (j ∈ u → row !! j = Some 0%R).
Proof.
  apply (mask_out_matrix_consistent (Encoder.set_num_patches (sample_encoder (3 # 4)) 9)
           sample_randn (zeros3 2 9 1) 2 9 1 9); [solve_shape | reflexivity].
Defined.

(** ** The metadata encoder *)

Lemma column_Ok (t : tensor2) (j : nat) :
  Forall (λ row, j < length row) t → column t j = Ok ((.!!! j) <$> t).
Proof.
  intros Ht. apply mapM_Ok. eapply Forall_impl; [exact Ht|].
  intros row Hj. cbn beta. by rewrite list_lookup_lookup_total_lt.
Qed.

Lemma set_column_Ok (t : tensor2) (j : nat) (col : tensor1) :
  length col = length t →
  set_column t j col = Ok (zip_with (λ row x, <[j := x]> row) t col).
Proof. intros Hlen. unfold set_column. by rewrite decide_True. Qed.

Lemma encode_metadata_rows (time latlon : tensor2) (has_time has_lat_lon : bool) (B : nat) :
  shape2 time B 2 → shape2 latlon B 2 →
  encode_metadata time latlon has_time has_lat_lon =
    Ok (zip_with (λ t ll, encoded_row t ll has_time has_lat_lon) time latlon).
Proof.
  intros [Ht Htime] [Hl Hlatlon]. unfold encode_metadata.
  assert (∀ j, j < 2 → Forall (λ row : list R, j < length row) time) as Hct.
  { intros j Hj. eapply Forall_impl; [exact Htime|]. cbn. lia. }
  assert (∀ j, j < 2 → Forall (λ row : list R, j < length row) latlon) as Hcl.
  { intros j Hj. eapply Forall_impl; [exact Hlatlon|]. cbn. lia. }
  assert (length time = length latlon) as Hlen by lia. clear Ht Hl B.
  destruct has_lat_lon, has_time; cbn [negb];
    rewrite ?column_Ok by auto; cbn [mbind result_bind];
    repeat (rewrite set_column_Ok
              by (rewrite ?length_zip_with, ?length_fmap, ?length_replicate; lia);
            cbn [mbind result_bind]);
    f_equal; clear Hct Hcl;
    revert latlon Hlatlon Hlen;
    induction Htime as [|t time Ht Htime IH]; intros [|ll latlon] Hlatlon Hlen;
      try done; inversion Hlatlon as [|?? Hll Hlatlon']; subst;
      destruct t as [|hour [|week [|??]]]; try done;
      destruct ll as [|lat [|lon [|??]]]; try done;
      cbn in Hlen; injection Hlen as Hlen;
      specialize (IH latlon Hlatlon' Hlen);
      cbn in *; f_equal; done.
Qed.

(** C3: at latitude, longitude, hour and week all zero and both flags
    true, the code returns [[0, 1, 0, 1, 0, 0, 0, 0]]: the lat/lon block is
    populated, the time block is zeroed, because the time block is guarded
    by [not has_time].  The vector of the specification is
    [[0, 1, 0, 1, 0, 1, 0, 1]]. *)
Theorem encode_metadata_time_block_inverted :
  encode_metadata [[0; 0]%R] [[0; 0]%R] true true
    = Ok [[0; 1; 0; 1; 0; 0; 0; 0]%R] ∧
  specified_metadata [0; 0]%R [0; 0]%R true true = [0; 1; 0; 1; 0; 1; 0; 1]%R ∧
  encode_metadata [[0; 0]%R] [[0; 0]%R] true true
    ≠ Ok [specified_metadata [0; 0]%R [0; 0]%R true true].
Proof.
  rewrite (encode_metadata_rows _ _ _ _ 1) by solve_shape.
  unfold encoded_row, specified_metadata. cbn.
  replace (0 * PI / 180)%R with 0%R by lra.
  replace (0 * 2 * PI / 24)%R with 0%R by lra.
  replace (0 * 2 * PI / 52)%R with 0%R by lra.
  rewrite sin_0, cos_0. split; [done|]. split; [done|].
  intros [= Hne]. lra.
Qed.

(** ** Elementwise operations on well-shaped tensors *)

Lemma zipM1_Ok {A B C} (f : A → B → result C) (g : A → B → C) (l1 : list A) (l2 : list B) :
  length l1 = length l2 → (∀ x y, f x y = Ok (g x y)) →
  zipM f l1 l2 = Ok (zip_with g l1 l2).
Proof. intros Hlen Hf. apply zipM_Ok; auto. Qed.

Lemma shape2_lookup {A} (t : list (list A)) (B L b : nat) (row : list A) :
  shape2 t B L → t !! b = Some row → length row = L.
Proof. intros [_ Ht] Hrow. by eapply (Forall_lookup_1 _ _ _ _ Ht). Qed.

Lemma shape3_lookup {A} (t : list (list (list A))) (B L D b : nat) (m : list (list A)) :
  shape3 t B L D → t !! b = Some m → shape2 m L D.
Proof. intros [_ Ht] Hm. by eapply (Forall_lookup_1 _ _ _ _ Ht). Qed.

Lemma zipM2_Ok {A B C} (f : A → B → result C) (g : A → B → C)
    (t : list (list A)) (u : list (list B)) (n L : nat) :
  shape2 t n L → shape2 u n L → (∀ x y, f x y = Ok (g x y)) →
  zipM (zipM f) t u = Ok (zip_with (zip_with g) t u).
Proof.
  intros Ht Hu Hf. apply zipM_Ok.
  - destruct Ht, Hu. congruence.
  - intros b x y Hx Hy. apply zipM1_Ok; [|done].
    rewrite (shape2_lookup _ _ _ _ _ Ht Hx), (shape2_lookup _ _ _ _ _ Hu Hy). done.
Qed.

Lemma zipM3_Ok {A B C} (f : A → B → result C) (g : A → B → C)
    (t : list (list (list A))) (u : list (list (list B))) (n L D : nat) :
  shape3 t n L D → shape3 u n L D → (∀ x y, f x y = Ok (g x y)) →
  zipM (zipM (zipM f)) t u = Ok (zip_with (zip_with (zip_with g)) t u).
Proof.
  intros Ht Hu Hf. apply zipM_Ok.
  - destruct Ht, Hu. congruence.
  - intros b x y Hx Hy. eapply zipM2_Ok; [| |done].
    + eapply shape3_lookup, Hx. exact Ht.
    + eapply shape3_lookup, Hy. exact Hu.
Qed.

Lemma shape2_zip_with {A B C} (g : A → B → C) (t : list (list A)) (u : list (list B))
    (n L : nat) :
  shape2 t n L → shape2 u n L → shape2 (zip_with (zip_with g) t u) n L.
Proof.
  intros Ht Hu. split.
  - rewrite length_zip_with. destruct Ht, Hu. lia.
  - apply Forall_lookup. intros b row Hrow.
    apply lookup_zip_with_Some in Hrow as (x & y & -> & Hx & Hy).
    rewrite length_zip_with.
    rewrite (shape2_lookup _ _ _ _ _ Ht Hx), (shape2_lookup _ _ _ _ _ Hu Hy). lia.
Qed.

(** ** Patches *)

Lemma length_bind_const {A B} (f : A → list B) (l : list A) (n : nat) :
  (∀ x, x ∈ l → length (f x) = n) → length (l ≫= f) = length l * n.
Proof.
  induction l as [|x l IH]; intros Hf; [done|].
  cbn. rewrite length_app, Hf, IH; [lia| |left].
  intros y Hy. apply Hf. by right.
Qed.

Lemma shape_patch_rows (p : nat) (img : list (list (list R))) (C H W : nat) :
  0 < C → 0 < H → shape3 img C H W →
  shape2 (ClayMAE.patch_rows p img) ((H / p) * (W / p)) (C * p * p).
Proof.
  intros HC HH [Hlen Himg].
  assert (size1 img = H ∧ size2 img = W) as [H1 H2].
  { destruct img as [|m img]; [cbn in Hlen; lia|].
    inversion Himg as [|?? [Hm Hrows] _]; subst.
    unfold size2, size1. cbn. split; [done|].
    destruct m as [|r m]; [cbn in HH; lia|].
    by inversion Hrows. }
  unfold ClayMAE.patch_rows. rewrite H1, H2, Hlen. split.
  - rewrite (length_bind_const _ _ (W / p)); [by rewrite length_seq|].
    intros h _. rewrite (length_bind_const _ _ 1); [rewrite length_seq; lia|done].
  - apply Forall_forall. intros row (h & Hrow & _)%list_elem_of_bind.
    apply list_elem_of_bind in Hrow as (w & Hrow & _).
    apply list_elem_of_singleton in Hrow as ->.
    rewrite (length_bind_const _ _ (p * p)); [rewrite length_seq; lia|].
    intros c _. rewrite (length_bind_const _ _ p); [by rewrite length_seq|].
    intros i _. rewrite (length_bind_const _ _ 1); [rewrite length_seq; lia|done].
Qed.

Lemma patchify_Ok (p : nat) (img : list (list (list R))) (C H W : nat) :
  0 < p → H `mod` p = 0 → W `mod` p = 0 → 0 < C → 0 < H → shape3 img C H W →
  ClayMAE.patchify p img = Ok (ClayMAE.patch_rows p img).
Proof.
  intros Hp HHp HWp HC HH Himg. unfold ClayMAE.patchify.
  assert (length img = C ∧ size1 img = H ∧ size2 img = W) as (H0 & H1 & H2).
  { destruct Himg as [Hlen Himg]. split; [done|].
    destruct img as [|m img]; [cbn in Hlen; lia|].
    inversion Himg as [|?? [Hm Hrows] _]; subst.
    unfold size2, size1. cbn. split; [done|].
    destruct m as [|r m]; [cbn in HH; lia|].
    by inversion Hrows. }
  rewrite decide_True; [done|]. rewrite H0, H1, H2. repeat split; try done; try lia.
  all: by destruct Himg.
Qed.

Lemma shape3_shape2 {A} (t : list (list (list A))) (B L D : nat) :
  shape3 t B L D → shape2 t B L.
Proof.
  intros [Hlen Ht]. split; [done|].
  eapply Forall_impl; [exact Ht|]. by intros m [Hm _].
Qed.

Lemma fmap_zip_with {A B C D} (f : C → D) (g : A → B → C) (l : list A) (k : list B) :
  f <$> zip_with g l k = zip_with (λ x y, f (g x y)) l k.
Proof. revert k. induction l as [|x l IH]; intros [|y k]; cbn; f_equal; auto. Qed.

(** ** The reconstruction loss *)

Section per_pixel_loss_facts.
Variables (self : ClayMAE.t) (cube : tensor4) (B C H W : nat).
Let p := ClayMAE.patch_size self.
Let L := (H / p) * (W / p).
Hypothesis Hp : 0 < p.
Hypothesis HHp : H `mod` p = 0.
Hypothesis HWp : W `mod` p = 0.
Hypothesis HC : 0 < C.
Hypothesis HH : 0 < H.
Hypothesis Hcube : shape4 cube B C H W.

Lemma patchify_cube :
  mapM (ClayMAE.patchify p) cube = Ok (ClayMAE.patch_rows p <$> cube).
Proof.
  apply mapM_Ok. destruct Hcube as [_ Himgs].
  eapply Forall_impl; [exact Himgs|]. intros img Himg. cbn beta.
  by apply (patchify_Ok p img C H W).
Qed.

Lemma shape_target_patches : shape3 (target_patches self cube) B L (C * p * p).
Proof.
  assert (shape3 (ClayMAE.patch_rows p <$> cube) B L (C * p * p)) as Hpatches.
  { destruct Hcube as [Hlen Himgs]. split; [by rewrite length_fmap|].
    apply Forall_fmap. eapply Forall_impl; [exact Himgs|]. intros img Himg.
    by apply shape_patch_rows. }
  unfold target_patches. fold p. destruct (ClayMAE.norm_pix_loss self); [|done].
  destruct Hpatches as [Hlen Hrows]. split; [by rewrite length_fmap|].
  apply Forall_fmap. eapply Forall_impl; [exact Hrows|]. intros m [Hm Hv].
  split; [by rewrite length_fmap|].
  apply Forall_fmap. eapply Forall_impl; [exact Hv|]. intros v Hlen'. cbn.
  unfold ClayMAE.normalise. by rewrite length_fmap.
Qed.

(** The loss is the mask-weighted sum of the per-patch errors over the sum
    of the mask. *)
Lemma per_pixel_loss_formula (pixels : tensor3) (masked_matrix : tensor2) :
  shape3 pixels B L (C * p * p) → shape2 masked_matrix B L →
  ClayMAE.per_pixel_loss self cube pixels masked_matrix =
    Ok (fdiv (sum2 (zip_with (zip_with Rmult) (per_patch_error self cube pixels)
                      masked_matrix))
             (sum2 masked_matrix)).
Proof.
  intros Hpixels Hmask. unfold ClayMAE.per_pixel_loss. fold p.
  rewrite patchify_cube. cbn [mbind result_bind].
  change (if ClayMAE.norm_pix_loss self
          then (λ m : tensor2, ClayMAE.normalise <$> m) <$> (ClayMAE.patch_rows p <$> cube)
          else ClayMAE.patch_rows p <$> cube)
    with (target_patches self cube).
  pose proof shape_target_patches as Htarget.
  unfold ClayMAE.mse_loss.
  rewrite (zipM3_Ok _ (λ x y, (x - y) * (x - y))%R _ _ B L (C * p * p)) by done.
  cbn [mbind result_bind].
  rewrite fmap_zip_with.
  erewrite (zip_with_ext _ (zip_with patch_error)); [| |done..].
  2:{ intros m m'. by rewrite fmap_zip_with. }
  fold (per_patch_error self cube pixels).
  unfold mul2, mul1.
  rewrite (zipM2_Ok _ Rmult _ _ B L); [done| |done|done].
  apply shape2_zip_with; by eapply shape3_shape2.
Qed.
End per_pixel_loss_facts.

(** ** Sums weighted by a mask *)

Lemma sum1_cons (x : R) (l : tensor1) : sum1 (x :: l) = (x + sum1 l)%R.
Proof. reflexivity. Qed.

Lemma sum1_zero (l : tensor1) : Forall (λ x, x = 0%R) l → sum1 l = 0%R.
Proof. induction 1 as [|x l -> _ IH]; [done|]. rewrite sum1_cons, IH. lra. Qed.

Lemma sum1_single (l : tensor1) (j : nat) (v : R) :
  l !! j = Some v → (∀ i x, l !! i = Some x → i ≠ j → x = 0%R) → sum1 l = v.
Proof.
  revert j. induction l as [|x l IH]; intros [|j] Hj Hz; try done;
    rewrite sum1_cons; cbn in Hj.
  - simplify_eq. rewrite sum1_zero; [lra|].
    apply Forall_lookup. intros i y Hy. by apply (Hz (S i)).
  - rewrite (Hz 0 x) by done. rewrite (IH j); [lra|done|].
    intros i y Hy Hne. apply (Hz (S i)); [done|lia].
Qed.





Lemma lookup2_zip_with {A B C} (g : A → B → C) (t : list (list A)) (u : list (list B))
    (b l : nat) :
  zip_with (zip_with g) t u !! b ≫= (.!! l) =
  x ← t !! b ≫= (.!! l); y ← u !! b ≫= (.!! l); Some (g x y).
Proof.
  rewrite lookup_zip_with.
  destruct (t !! b) as [r|]; [|done]. cbn.
  destruct (u !! b) as [s|]; cbn.
  - rewrite lookup_zip_with. by destruct (r !! l).
  - by destruct (r !! l).
Qed.



(** ** Calls that return *)

Lemma returns_Ok {A} (a : A) (P : A → Prop) : P a → returns (Ok a) P.
Proof. intros Ha. by exists a. Qed.

Lemma returns_bind {A B} (r : result A) (f : A → result B) (P : A → Prop) (Q : B → Prop) :
  returns r P → (∀ a, P a → returns (f a) Q) → returns (r ≫= f) Q.
Proof. intros (a & -> & Ha) Hf. by apply Hf. Qed.

Lemma returns_impl {A} (r : result A) (P Q : A → Prop) :
  returns r P → (∀ a, P a → Q a) → returns r Q.
Proof. intros (a & -> & Ha) HPQ. exists a. auto. Qed.

(** ** Shapes of the tensor operations *)

Lemma shape2_replicate {A} (n : nat) (row : list A) :
  shape2 (replicate n row) n (length row).
Proof.
  split; [by rewrite length_replicate|].
  apply Forall_forall. by intros r ->%elem_of_replicate_inv.
Qed.

Lemma shape2_replicate_vec {A} (n D : nat) (x : A) :
  shape2 (replicate n (replicate D x)) n D.
Proof.
  split; [by rewrite length_replicate|].
  apply Forall_forall. intros r ->%elem_of_replicate_inv. by rewrite length_replicate.
Qed.

Lemma shape3_replicate {A} (n : nat) (m : list (list A)) (L D : nat) :
  shape2 m L D → shape3 (replicate n m) n L D.
Proof.
  intros Hm. split; [by rewrite length_replicate|].
  apply Forall_forall. by intros r ->%elem_of_replicate_inv.
Qed.

Lemma shape3_zip_with {A B C} (g : list A → list B → list C)
    (t : list (list (list A))) (u : list (list (list B))) (n L D1 D2 D : nat) :
  (∀ x y, length x = D1 → length y = D2 → length (g x y) = D) →
  shape3 t n L D1 → shape3 u n L D2 →
  shape3 (zip_with (zip_with g) t u) n L D.
Proof.
  intros Hg Ht Hu. split.
  - rewrite length_zip_with. destruct Ht, Hu. lia.
  - apply Forall_lookup. intros b m Hm.
    apply lookup_zip_with_Some in Hm as (x & y & -> & Hx & Hy).
    destruct (shape3_lookup _ _ _ _ _ _ Ht Hx) as [Hlx Hfx].
    destruct (shape3_lookup _ _ _ _ _ _ Hu Hy) as [Hly Hfy].
    split; [rewrite length_zip_with; lia|].
    apply Forall_lookup. intros l v Hv.
    apply lookup_zip_with_Some in Hv as (x' & y' & -> & Hx' & Hy').
    apply Hg.
    + by eapply (Forall_lookup_1 _ _ _ _ Hfx).
    + by eapply (Forall_lookup_1 _ _ _ _ Hfy).
Qed.

Lemma add3_returns (a b : tensor3) (n L D : nat) :
  shape3 a n L D → shape3 b n L D →
  returns (add3 a b) (λ c, shape3 c n L D).
Proof.
  intros Ha Hb. unfold add3, add2, add1.
  rewrite (zipM3_Ok _ Rplus _ _ n L D) by done.
  apply returns_Ok. eapply shape3_zip_with; [|done..].
  intros x y Hx Hy. rewrite length_zip_with. lia.
Qed.

Lemma cat_last_returns (a b : tensor3) (n L D1 D2 : nat) :
  shape3 a n L D1 → shape3 b n L D2 →
  returns (cat_last a b) (λ c, shape3 c n L (D1 + D2)).
Proof.
  intros Ha Hb. unfold cat_last.
  rewrite (zipM2_Ok _ app _ _ n L); [|by eapply shape3_shape2..|done].
  apply returns_Ok. eapply shape3_zip_with; [|done..].
  intros x y Hx Hy. rewrite length_app. lia.
Qed.

Lemma cat_dim1_returns (a b : tensor3) (n L1 L2 D : nat) :
  shape3 a n L1 D → shape3 b n L2 D →
  returns (cat_dim1 a b) (λ c, shape3 c n (L1 + L2) D).
Proof.
  intros Ha Hb. unfold cat_dim1.
  rewrite (zipM_Ok _ app).
  - apply returns_Ok. split.
    + rewrite length_zip_with. destruct Ha, Hb. lia.
    + apply Forall_lookup. intros i m Hm.
      apply lookup_zip_with_Some in Hm as (x & y & -> & Hx & Hy).
      destruct (shape3_lookup _ _ _ _ _ _ Ha Hx) as [Hlx Hfx].
      destruct (shape3_lookup _ _ _ _ _ _ Hb Hy) as [Hly Hfy].
      split; [rewrite length_app; lia|]. by apply Forall_app.
  - destruct Ha, Hb. lia.
  - intros i x y Hx Hy.
    destruct (shape3_lookup _ _ _ _ _ _ Ha Hx) as [Hlx Hfx].
    destruct (shape3_lookup _ _ _ _ _ _ Hb Hy) as [Hly Hfy].
    rewrite decide_True; [done|].
    eapply Forall_impl; [exact Hfx|]. intros u Hu. cbn beta in *.
    eapply Forall_impl; [exact Hfy|]. intros v Hv. cbn beta in *. congruence.
Qed.

Lemma index_select_returns (t : tensor3) (indices : list (list nat)) (n L D K : nat) :
  shape3 t n L D → shape2 indices n K →
  Forall (Forall (λ i, i < L)) indices →
  returns (index_select t indices)
    (λ c, c = zip_with (λ row idx, (row !!!.) <$> idx) t indices ∧ shape3 c n K D).
Proof.
  intros Ht Hidx Hlt. unfold index_select.
  rewrite (zipM_Ok _ (λ row idx, (row !!!.) <$> idx)).
  - apply returns_Ok. split; [done|]. split.
    + rewrite length_zip_with. destruct Ht, Hidx. lia.
    + apply Forall_lookup. intros b m Hm.
      apply lookup_zip_with_Some in Hm as (row & idx & -> & Hrow & Hi).
      destruct (shape3_lookup _ _ _ _ _ _ Ht Hrow) as [Hlen Hrows].
      split; [rewrite length_fmap; by eapply shape2_lookup|].
      apply Forall_fmap, Forall_forall. intros i Hin. cbn.
      assert (i < L) as HiL.
      { rewrite Forall_lookup in Hlt. specialize (Hlt _ _ Hi).
        rewrite Forall_forall in Hlt. auto. }
      destruct (lookup_lt_is_Some_2 row i) as [v Hv]; [lia|].
      rewrite (list_lookup_total_correct _ _ _ Hv).
      by eapply (Forall_lookup_1 _ _ _ _ Hrows).
  - destruct Ht, Hidx. lia.
  - intros b row idx Hrow Hi. apply mapM_Ok, Forall_forall. intros i Hin.
    destruct (shape3_lookup _ _ _ _ _ _ Ht Hrow) as [Hlen Hrows].
    rewrite Forall_lookup in Hlt. specialize (Hlt _ _ Hi).
    rewrite Forall_forall in Hlt.
    rewrite list_lookup_lookup_total_lt; [done|]. rewrite Hlen. auto.
Qed.

Lemma mapM_returns {A B} (f : A → result B) (P : B → Prop) (l : list A) :
  Forall (λ x, returns (f x) P) l →
  returns (mapM f l) (λ k, length k = length l ∧ Forall P k).
Proof.
  induction 1 as [|x l (y & Hy & HPy) _ (k & Hk & Hlen & HPk)].
  - by apply returns_Ok.
  - cbn. rewrite Hy. cbn. rewrite Hk. cbn. apply returns_Ok.
    split; [cbn; lia | by constructor].
Qed.

Lemma zipM_returns {A B C} (f : A → B → result C) (P : C → Prop)
    (l1 : list A) (l2 : list B) :
  length l1 = length l2 →
  (∀ i x y, l1 !! i = Some x → l2 !! i = Some y → returns (f x y) P) →
  returns (zipM f l1 l2) (λ k, length k = length l1 ∧ Forall P k).
Proof.
  intros Hlen Hf. unfold zipM. rewrite decide_True by done.
  eapply returns_impl.
  - apply (mapM_returns _ P). apply Forall_lookup. intros i [x y] Hxy.
    apply lookup_zip_with_Some in Hxy as (x' & y' & [= <- <-] & Hx & Hy).
    cbn. eauto.
  - intros k [Hk HP]. split; [|done]. rewrite Hk, length_zip_with. lia.
Qed.

Lemma put_row_returns (row : tensor2) (idx : list nat) (src : tensor2) (L D K : nat) :
  shape2 row L D → length idx = K → shape2 src K D → Forall (λ i, i < L) idx →
  returns (put_row row idx src) (λ r, shape2 r L D).
Proof.
  intros Hrow Hidx [Hsrc HsrcD] Hlt. unfold put_row.
  rewrite decide_True by lia.
  assert (Forall (λ iv : nat * list R, iv.1 < L ∧ length iv.2 = D) (zip idx src)) as Hzip.
  { apply Forall_lookup. intros j [i v] Hiv.
    apply lookup_zip_with_Some in Hiv as (i' & v' & [= <- <-] & Hi & Hv). cbn. split.
    - by eapply (Forall_lookup_1 _ _ _ _ Hlt).
    - by eapply (Forall_lookup_1 _ _ _ _ HsrcD). }
  clear Hidx Hsrc HsrcD Hlt. revert row Hrow.
  induction Hzip as [|[i v] l [Hi Hv] _ IH]; intros row Hrow; cbn in *.
  - by apply returns_Ok.
  - destruct Hrow as [Hlen HrowD]. rewrite decide_True.
    + apply IH. split; [by rewrite length_insert|].
      apply Forall_insert; [done|]. done.
    + split; [lia|]. eapply Forall_impl; [exact HrowD|]. cbn. congruence.
Qed.

Lemma index_put_returns (t : tensor3) (indices : list (list nat)) (src : tensor3)
    (n L D K : nat) :
  shape3 t n L D → shape2 indices n K → shape3 src n K D →
  Forall (Forall (λ i, i < L)) indices →
  returns (index_put t indices src) (λ c, shape3 c n L D).
Proof.
  intros Ht Hidx Hsrc Hlt. unfold index_put.
  rewrite decide_True by (destruct Hidx, Hsrc; lia).
  eapply returns_impl.
  - apply (zipM_returns _ (λ r, shape2 r L D)).
    + rewrite length_zip_with. destruct Ht, Hidx, Hsrc. lia.
    + intros b row [idx s] Hrow His.
      apply lookup_zip_with_Some in His as (idx' & s' & [= <- <-] & Hi & Hs). cbn.
      eapply put_row_returns.
      * by eapply shape3_lookup.
      * by eapply shape2_lookup.
      * by eapply shape3_lookup.
      * by eapply (Forall_lookup_1 _ _ _ _ Hlt).
  - intros c [Hc HcD]. split; [|done]. destruct Ht. lia.
Qed.

Lemma slice_bound_1 (n : nat) : slice_bound 1 (S n) = 1.
Proof. rewrite slice_bound_nonneg; lia. Qed.

Lemma shape3_slice_to_1 {A} (t : list (list (list A))) (n L D : nat) :
  shape3 t n (S L) D → shape3 (slice_to 1 <$> t) n 1 D.
Proof.
  intros [Hlen Ht]. split; [by rewrite length_fmap|].
  apply Forall_fmap. eapply Forall_impl; [exact Ht|]. intros m [Hm HmD]. unfold compose.
  destruct m as [|v m]; [done|]. unfold slice_to.
  change (length (v :: m)) with (S (length m)). rewrite slice_bound_1. cbn. split; [done|].
  inversion HmD; subst. by repeat constructor.
Qed.

Lemma shape3_slice_from_1 {A} (t : list (list (list A))) (n L D : nat) :
  shape3 t n (S L) D → shape3 (slice_from 1 <$> t) n L D.
Proof.
  intros [Hlen Ht]. split; [by rewrite length_fmap|].
  apply Forall_fmap. eapply Forall_impl; [exact Ht|]. intros m [Hm HmD]. unfold compose.
  destruct m as [|v m]; [done|]. unfold slice_from.
  change (length (v :: m)) with (S (length m)). rewrite slice_bound_1. cbn.
  rewrite drop_0. cbn in Hm. split; [lia|].
  by inversion HmD.
Qed.

(** ** The forward pass *)

Lemma encode_metadata_returns (time latlon : tensor2) (B : nat) :
  shape2 time B 2 → shape2 latlon B 2 →
  returns (encode_metadata time latlon true true) (λ md, shape2 md B 8).
Proof.
  intros Ht Hl. rewrite (encode_metadata_rows _ _ _ _ B) by done.
  apply returns_Ok. split.
  - rewrite length_zip_with. destruct Ht, Hl. lia.
  - apply Forall_lookup. intros b row Hrow.
    by apply lookup_zip_with_Some in Hrow as (t & ll & -> & _ & _).
Qed.

Lemma shape3_size1 {A} (t : list (list (list A))) (B L D : nat) :
  0 < B → shape3 t B L D → length t = B ∧ size1 t = L.
Proof.
  intros HB Ht. destruct (shape3_rect _ _ _ _ Ht) as [_ HL].
  destruct Ht as [Hlen _]. split; [done|]. apply HL. intros ->. cbn in Hlen. lia.
Qed.

Lemma shape2_size1 {A} (t : list (list A)) (B L : nat) :
  0 < B → shape2 t B L → length t = B ∧ size1 t = L.
Proof.
  intros HB [Hlen Ht]. split; [done|].
  destruct t as [|r t]; [cbn in Hlen; lia|]. by inversion Ht.
Qed.

Section forward_facts.
Context {E : Externals} {HE : ExternalsSpec E}.

(** The positional and metadata encoding that the encoder and the decoder
    both add has the shape of the tokens. *)
Lemma pos_metadata_returns (time latlon : tensor2) (gsd0 : tensor) (B L d : nat) :
  8 ≤ d → Nat.sqrt L ^ 2 = L → shape2 time B 2 → shape2 latlon B 2 →
  returns
    (pos_encoding ←
       posemb_sincos_2d_with_gsd (Nat.sqrt L) (Nat.sqrt L) (Z.of_nat d - 8) gsd0;
     metadata ← encode_metadata time latlon true true;
     cat_last (replicate B pos_encoding) (replicate L <$> metadata))
    (λ c, shape3 c B L d).
Proof.
  intros Hd HL Ht Hl.
  eapply returns_bind; [apply posemb_shape; lia|]. intros pos Hpos. cbn beta.
  eapply returns_bind; [by apply (encode_metadata_returns _ _ B)|]. intros md Hmd.
  cbn beta in *.
  eapply returns_impl; [apply (cat_last_returns _ _ B L (d - 8) 8)|].
  3:{ intros c Hc. by replace d with ((d - 8) + 8) by lia. }
  - apply shape3_replicate. rewrite Nat.pow_2_r in HL. rewrite HL in Hpos.
    by rewrite Z2Nat.inj_sub, Nat2Z.id in Hpos by lia.
  - destruct Hmd as [Hlen Hmd]. split; [by rewrite length_fmap|].
    apply Forall_fmap. eapply Forall_impl; [exact Hmd|]. intros row Hrow.
    unfold compose. rewrite <-Hrow. apply shape2_replicate.
Qed.

Lemma add_encodings_returns (self : Encoder.t) (patches : tensor3)
    (time latlon : tensor2) (gsd gsd0 : tensor) (B L : nat) :
  0 < B → shape3 patches B L (Encoder.dim self) →
  8 ≤ Encoder.dim self → Nat.sqrt L ^ 2 = L →
  shape2 time B 2 → shape2 latlon B 2 → index0 gsd = Ok gsd0 →
  returns (Encoder.add_encodings self patches time latlon gsd)
    (λ r, r.1 = Encoder.set_num_patches self L ∧ shape3 r.2 B L (Encoder.dim self)).
Proof.
  intros HB Hp Hd HL Ht Hl Hg. unfold Encoder.add_encodings.
  destruct (shape3_size1 _ _ _ _ HB Hp) as [-> ->]. rewrite Hg. cbn [mbind result_bind].
  destruct (pos_metadata_returns time latlon gsd0 _ L _ Hd HL Ht Hl)
    as (pme & Hpme & Hshape).
  apply bind_Ok_inv in Hpme as (pos & Hpos & Hpme).
  apply bind_Ok_inv in Hpme as (md & Hmd & Hpme).
  cbn [Encoder.dim Encoder.set_num_patches].
  rewrite Hpos. cbn [mbind result_bind]. rewrite Hmd. cbn [mbind result_bind].
  rewrite Hpme. cbn [mbind result_bind].
  eapply returns_bind; [by apply (add3_returns _ _ B L (Encoder.dim self))|].
  intros out Hout. apply returns_Ok. rewrite HL. done.
Qed.
End forward_facts.

Lemma mask_out_shapes (self : Encoder.t) (randn : nat → nat → Q) (patches : tensor3)
    (B L d n : nat) :
  0 < B → shape3 patches B L d → Encoder.num_patches self = Some n →
  let s := slice_bound (Encoder.num_masked (Encoder.mask_ratio self) n) L in
  ∃ up ui mi mm,
    Encoder.mask_out self randn patches = Ok (up, ui, mi, mm) ∧
    shape3 up B (L - s) d ∧ shape2 ui B (L - s) ∧ shape2 mi B s ∧ shape2 mm B L ∧
    Forall (Forall (λ i, i < L)) ui ∧ Forall (Forall (λ i, i < L)) mi.
Proof.
  intros HB Hp Hn s.
  destruct (shape3_rect _ _ _ _ Hp) as [Hrect _].
  destruct (shape3_size1 _ _ _ _ HB Hp) as [HlenB HL].
  pose proof (mask_out_Ok self randn patches n Hrect Hn) as Hout.
  cbn zeta in Hout. rewrite HlenB, HL in Hout.
  set (ri := argsort Qle <$> Encoder.noise self randn B L) in *.
  set (k := Encoder.num_masked (Encoder.mask_ratio self) n) in *.
  assert (length ri = B) as Hri by (unfold ri; by rewrite length_fmap, length_noise).
  assert (∀ b p, ri !! b = Some p → p ≡ₚ seq 0 L) as Hperm.
  { intros b p. apply random_indices_Permutation. }
  assert (∀ b p, ri !! b = Some p → length p = L) as Hlenp.
  { intros b p Hp'. by rewrite (Hperm b p Hp'), length_seq. }
  assert (∀ (sl : list nat → list nat), (∀ p, sl p ⊆ p) →
            Forall (Forall (λ i, i < L)) (sl <$> ri)) as Hlt.
  { intros sl Hsl. apply Forall_fmap, Forall_lookup. intros b p Hb. unfold compose.
    apply Forall_forall. intros i Hi. apply Hsl in Hi.
    rewrite (Hperm b p Hb) in Hi. apply elem_of_seq in Hi. lia. }
  assert (∀ p : list nat, slice_from k p ⊆ p) as Hfrom.
  { intros p x (i & Hi)%list_elem_of_lookup_1. unfold slice_from in Hi.
    rewrite lookup_drop in Hi. eapply list_elem_of_lookup_2, Hi. }
  assert (∀ p : list nat, slice_to k p ⊆ p) as Hto.
  { intros p x (i & Hi & _)%elem_of_take. by eapply list_elem_of_lookup_2. }
  assert (shape2 (slice_from k <$> ri) B (L - s)) as Hui.
  { split; [by rewrite length_fmap|]. apply Forall_fmap, Forall_lookup.
    intros b p Hb. unfold compose. by rewrite length_slice_from, (Hlenp b p Hb). }
  assert (shape2 (slice_to k <$> ri) B s) as Hmi.
  { split; [by rewrite length_fmap|]. apply Forall_fmap, Forall_lookup.
    intros b p Hb. unfold compose. by rewrite length_slice_to, (Hlenp b p Hb). }
  destruct (index_select_returns patches (slice_from k <$> ri) B L d (L - s) Hp Hui
              (Hlt _ Hfrom)) as (up & _ & Hup & Hups).
  eexists _, _, _, _. split; [exact Hout|]. rewrite <-Hup.
  split; [done|]. split; [done|]. split; [done|]. split; [|split; auto].
  split; [by rewrite length_fmap|]. apply Forall_fmap, Forall_forall.
  intros p _. unfold compose. by rewrite length_fmap, length_seq.
Qed.

Section encoder_forward.
Context {E : Externals} {HE : ExternalsSpec E}.
Variables (self : Encoder.t) (randn : nat → nat → Q) (datacube : Datacube.t).
Variables (B C H W : nat) (waves0 gsd0 : tensor).
Let p := Encoder.patch_size self.
Let d := Encoder.dim self.
Let L := (H / p) * (W / p).
Let s := slice_bound (Encoder.num_masked (Encoder.mask_ratio self) L) L.
Hypothesis Hbuilt : Encoder_built self.
Hypothesis Hp : 0 < p.
Hypothesis Hd : 8 ≤ d.
Hypothesis HB : 0 < B.
Hypothesis HC : 0 < C.
Hypothesis HH : 0 < H.
Hypothesis HL : Nat.sqrt L ^ 2 = L.
Hypothesis Hpixels : shape4 (Datacube.pixels datacube) B C H W.
Hypothesis Htime : shape2 (Datacube.time datacube) B 2.
Hypothesis Hlatlon : shape2 (Datacube.latlon datacube) B 2.
Hypothesis Hgsd : index0 (Datacube.gsd datacube) = Ok gsd0.
Hypothesis Hwaves : index0 (Datacube.waves datacube) = Ok waves0.

(** On a well-shaped datacube the encoder returns: it records
    [num_patches = L], and its outputs are those of [mask_out] on [L]
    embedded patches, the class token being prepended to the unmasked
    ones. *)
Lemma encoder_forward_returns :
  ∃ patches up emb ui mi mm,
    Encoder.forward self randn datacube
      = Ok (Encoder.set_num_patches self L, (emb, ui, mi, mm)) ∧
    shape3 patches B L d ∧
    Encoder.mask_out (Encoder.set_num_patches self L) randn patches
      = Ok (up, ui, mi, mm) ∧
    shape3 emb B (1 + (L - s)) d ∧ shape2 ui B (L - s) ∧ shape2 mi B s ∧
    shape2 mm B L ∧
    Forall (Forall (λ i, i < L)) ui ∧ Forall (Forall (λ i, i < L)) mi.
Proof.
  destruct Hbuilt as (depth & heads & dim_head & mlp_dim & Hemb & Htr & Hcls).
  unfold Encoder.forward. rewrite Hwaves. cbn [mbind result_bind].
  unfold Encoder.to_patch_embed. rewrite Hemb.
  destruct (encode_shape 128 128 p d (Datacube.pixels datacube) waves0 B C H W
              Hp HC HH Hpixels) as (patches0 & we & Henc & Hpatches0).
  fold p d. rewrite Henc. cbn [mbind result_bind].
  destruct (add_encodings_returns self patches0 _ _ _ gsd0 B L HB Hpatches0 Hd HL
              Htime Hlatlon Hgsd) as ([self' patches] & Hadd & Hself & Hpatches).
  cbn in Hself, Hpatches. subst self'. rewrite Hadd. cbn [mbind result_bind].
  destruct (mask_out_shapes (Encoder.set_num_patches self L) randn patches B L d L
              HB Hpatches eq_refl)
    as (up & ui & mi & mm & Hmask & Hup & Hui & Hmi & Hmm & Hltu & Hltm).
  cbn zeta in Hup, Hui, Hmi. cbn [Encoder.mask_ratio Encoder.set_num_patches] in *.
  fold s in Hup, Hui, Hmi.
  rewrite Hmask.
  cbn [mbind result_bind Encoder.cls_token Encoder.transformer Encoder.set_num_patches].
  rewrite Hcls.
  pose proof (cls_token_shape d) as Hcs. fold d.
  assert (size2 (cls_token_init d) = d) as Hsize.
  { destruct Hcs as [Hlen Hrows]. destruct (cls_token_init d) as [|m t]; [done|].
    inversion Hrows as [|?? [Hm Hv] _]; subst. destruct m as [|v m]; [done|].
    unfold size2, size1. cbn. by inversion Hv. }
  rewrite decide_True by (by rewrite Hsize). cbn [mbind result_bind].
  assert (shape3 (replicate (length (Datacube.pixels datacube)) (hd [] (cls_token_init d)))
            B 1 d) as Hct.
  { destruct Hpixels as [-> _]. apply shape3_replicate.
    destruct Hcs as [Hlen Hrows]. destruct (cls_token_init d) as [|m t]; [done|].
    by inversion Hrows. }
  destruct (cat_dim1_returns _ up B 1 (L - s) d Hct Hup) as (x & Hx & Hxs).
  rewrite Hx. cbn [mbind result_bind Encoder.transformer]. rewrite Htr.
  destruct (transformer_shape d depth heads dim_head mlp_dim x B (1 + (L - s)) Hxs)
    as (emb & Hemb' & Hembs).
  fold d. rewrite Hemb'. cbn [mbind result_bind].
  exists patches, up, emb, ui, mi, mm. done.
Qed.
End encoder_forward.

Section decoder_forward.
Context {E : Externals} {HE : ExternalsSpec E}.
Variables (self : Decoder.t) (encoded_unmasked_patches : tensor3).
Variables (unmasked_indices masked_indices : list (list nat)) (masked_matrix : tensor2).
Variables (time latlon : tensor2) (gsd waves gsd0 gsd00 waves0 : tensor).
Variables (B L s : nat).
Let p := Decoder.patch_size self.
Let d := Decoder.dim self.
Hypothesis Hbuilt : Decoder_built self.
Hypothesis Hd : 8 ≤ d.
Hypothesis HB : 0 < B.
Hypothesis HL : Nat.sqrt L ^ 2 = L.
Hypothesis Hk :
  int (mul_float_int (Decoder.mask_ratio self) (Z.of_nat (Nat.sqrt L ^ 2))) = Z.of_nat s.
Hypothesis Hemb : shape3 encoded_unmasked_patches B (1 + (L - s)) (Decoder.encoder_dim self).
Hypothesis Hui : shape2 unmasked_indices B (L - s).
Hypothesis Hmi : shape2 masked_indices B s.
Hypothesis Hmm : shape2 masked_matrix B L.
Hypothesis Hltu : Forall (Forall (λ i, i < L)) unmasked_indices.
Hypothesis Hltm : Forall (Forall (λ i, i < L)) masked_indices.
Hypothesis Htime : shape2 time B 2.
Hypothesis Hlatlon : shape2 latlon B 2.
Hypothesis Hgsd : index0 gsd = Ok gsd0.
Hypothesis Hgsd0 : index0 gsd0 = Ok gsd00.
Hypothesis Hwaves : index0 waves = Ok waves0.

Lemma reconstruct_returns (x : tensor3) :
  shape3 x B (1 + (L - s)) d →
  returns (Decoder.reconstruct_and_add_encoding self x unmasked_indices masked_indices
             masked_matrix time latlon gsd0)
    (λ r, r.1 = Decoder.set_num_patches self L ∧ shape3 r.2 B (1 + L) d).
Proof.
  intros Hx. destruct Hbuilt as (depth & heads & dim_head & mlp_dim & _ & Hmp & _ & _).
  unfold Decoder.reconstruct_and_add_encoding.
  destruct (shape2_size1 _ _ _ HB Hmm) as [-> ->]. rewrite Hgsd0.
  cbn [mbind result_bind Decoder.dim Decoder.mask_ratio Decoder.mask_patch
       Decoder.set_num_patches].
  destruct (pos_metadata_returns time latlon gsd00 B L d Hd HL Htime Hlatlon)
    as (pme & Hpme & Hshape).
  apply bind_Ok_inv in Hpme as (pos & Hpos & Hpme).
  apply bind_Ok_inv in Hpme as (md & Hmd & Hpme).
  fold d. rewrite Hpos. cbn [mbind result_bind]. rewrite Hmd. cbn [mbind result_bind].
  rewrite Hpme. cbn [mbind result_bind]. rewrite Hk.
  destruct (Z.ltb_spec (Z.of_nat s) 0) as [?|_]; [lia|]. rewrite Nat2Z.id.
  cbn [mbind result_bind].
  eapply returns_bind; [by apply (index_select_returns pme _ B L d s)|].
  intros me [_ Hme]. cbn beta.
  eapply returns_bind.
  { apply (add3_returns _ _ B s d); [|done].
    apply shape3_replicate. rewrite Hmp. split; [by rewrite length_replicate|].
    apply Forall_forall. intros v ->%elem_of_replicate_inv. apply mask_patch_shape. }
  intros masked_patches Hmasked. cbn beta.
  eapply returns_bind; [by apply (index_select_returns pme _ B L d (L - s))|].
  intros ue [_ Hue]. cbn beta.
  eapply returns_bind.
  { apply (add3_returns _ _ B (L - s) d); [|done].
    by apply (shape3_slice_from_1 x B (L - s) d). }
  intros unmasked_patches Hunmasked. cbn beta.
  eapply returns_bind.
  { apply (index_put_returns _ _ _ B L d (L - s)); [|done..].
    rewrite HL. apply shape3_replicate, shape2_replicate_vec. }
  intros dp Hdp. cbn beta.
  eapply returns_bind; [by apply (index_put_returns _ _ _ B L d s)|].
  intros dp' Hdp'. cbn beta.
  eapply returns_bind.
  { apply (cat_dim1_returns _ _ B 1 L d); [|done].
    by apply (shape3_slice_to_1 x B (L - s) d). }
  intros out Hout. apply returns_Ok. rewrite HL. done.
Qed.
(** On the outputs of the encoder the decoder returns [L] reconstructed
    patches per sample, as wide as the patch projector makes them. *)
Lemma decoder_forward_returns :
  ∃ pixels waves_encoded,
    Decoder.forward self encoded_unmasked_patches unmasked_indices masked_indices
      masked_matrix time latlon gsd waves
      = Ok (Decoder.set_num_patches self L, (pixels, waves_encoded)) ∧
    shape3 pixels B L (tensor_length waves0 * p * p).
Proof.
  destruct Hbuilt as (depth & heads & dim_head & mlp_dim & Hlin & _ & Htr & Hpx).
  unfold Decoder.forward. rewrite Hlin.
  assert (returns
            ((if decide (Decoder.encoder_dim self ≠ Decoder.dim self)
              then Linear (Decoder.encoder_dim self) (Decoder.dim self) else Ok)
               encoded_unmasked_patches)
            (λ x, shape3 x B (1 + (L - s)) d)) as (x & Hx & Hxs).
  { case_decide as Hne.
    - by apply linear_shape.
    - apply returns_Ok. unfold d.
      by replace (Decoder.dim self) with (Decoder.encoder_dim self) by lia. }
  rewrite Hx. cbn [mbind result_bind]. rewrite Hgsd. cbn [mbind result_bind].
  destruct (reconstruct_returns x Hxs) as ([self' dp] & Hrec & Hself & Hdp).
  cbn in Hself, Hdp. subst self'. rewrite Hrec.
  cbn [mbind result_bind Decoder.transformer Decoder.embed_to_pixels
       Decoder.set_num_patches].
  rewrite Htr. fold d.
  destruct (transformer_shape d depth heads dim_head mlp_dim dp B (1 + L) Hdp)
    as (y & Hy & Hys).
  rewrite Hy. cbn [mbind result_bind]. rewrite Hwaves. cbn [mbind result_bind].
  rewrite Hpx. fold p d.
  destruct (decode_shape 128 128 p d y waves0 B (1 + L) Hys) as (px & wv & Hdec & Hpxs).
  rewrite Hdec. cbn [mbind result_bind].
  eexists _, _. split; [done|]. by apply (shape3_slice_from_1 px B L).
Qed.
End decoder_forward.

Section clay_forward.
Context {E : Externals} {HE : ExternalsSpec E}.
Variables (mask_ratio : Q) (p : nat) (norm_pix_loss mode : bool).
Variables (randn : nat → nat → Q) (datacube : Datacube.t).
Variables (B C H W : nat) (waves0 gsd0 gsd00 : tensor).
Let self := ClayMAE.train (clay_mae_tiny mask_ratio p norm_pix_loss) mode.
Let L := (H / p) * (W / p).
Let k := Encoder.num_masked mask_ratio L.
Hypothesis Hk : (0 ≤ k ≤ Z.of_nat L)%Z.
Hypothesis Hp : 0 < p.
Hypothesis HB : 0 < B.
Hypothesis HC : 0 < C.
Hypothesis HH : 0 < H.
Hypothesis HL : Nat.sqrt L ^ 2 = L.
Hypothesis Hpixels : shape4 (Datacube.pixels datacube) B C H W.
Hypothesis Htime : shape2 (Datacube.time datacube) B 2.
Hypothesis Hlatlon : shape2 (Datacube.latlon datacube) B 2.
Hypothesis Hgsd : index0 (Datacube.gsd datacube) = Ok gsd0.
Hypothesis Hgsd0 : index0 gsd0 = Ok gsd00.
Hypothesis Hwaves : index0 (Datacube.waves datacube) = Ok waves0.

Lemma tiny_encoder_built : Encoder_built (ClayMAE.encoder self).
Proof. by eexists _, _, _, _. Qed.

Lemma tiny_decoder_built : Decoder_built (ClayMAE.decoder self).
Proof. by eexists _, _, _, _. Qed.

(** The encoder and then the decoder of the tiny model return on a
    well-shaped datacube, with these shapes. *)
Lemma tiny_forward_shapes :
  ∃ patches up emb ui mi mm pixels waves_encoded,
    Encoder.forward (ClayMAE.encoder self) randn datacube
      = Ok (Encoder.set_num_patches (ClayMAE.encoder self) L, (emb, ui, mi, mm)) ∧
    shape3 patches B L 192 ∧
    Encoder.mask_out (Encoder.set_num_patches (ClayMAE.encoder self) L) randn patches
      = Ok (up, ui, mi, mm) ∧
    shape3 emb B (1 + (L - Z.to_nat k)) 192 ∧
    shape2 ui B (L - Z.to_nat k) ∧ shape2 mi B (Z.to_nat k) ∧ shape2 mm B L ∧
    Decoder.forward (ClayMAE.decoder self) emb ui mi mm (Datacube.time datacube)
      (Datacube.latlon datacube) (Datacube.gsd datacube) (Datacube.waves datacube)
      = Ok (Decoder.set_num_patches (ClayMAE.decoder self) L, (pixels, waves_encoded)) ∧
    shape3 pixels B L (tensor_length waves0 * p * p).
Proof.
  destruct (encoder_forward_returns (ClayMAE.encoder self) randn datacube B C H W
              waves0 gsd0 tiny_encoder_built Hp ltac:(cbn; lia) HB HC HH HL Hpixels
              Htime Hlatlon Hgsd Hwaves)
    as (patches & up & emb & ui & mi & mm & Henc & Hps & Hmask & Hemb & Hui & Hmi
        & Hmm & Hltu & Hltm).
  cbn [ClayMAE.encoder self ClayMAE.train clay_mae_tiny ClayMAE.__init__
       Encoder.set_training Encoder.__init__ Encoder.patch_size Encoder.dim
       Encoder.mask_ratio] in Hps, Hemb, Hui, Hmi.
  fold L k in Hps, Hemb, Hui, Hmi.
  rewrite slice_bound_nonneg in Hemb, Hui, Hmi by lia.
  destruct (decoder_forward_returns (ClayMAE.decoder self) emb ui mi mm
              (Datacube.time datacube) (Datacube.latlon datacube)
              (Datacube.gsd datacube) (Datacube.waves datacube) gsd0 gsd00 waves0
              B L (Z.to_nat k) tiny_decoder_built ltac:(cbn; lia) HB HL)
    as (pixels & wv & Hdec & Hpx); try done.
  { rewrite HL. unfold k, Encoder.num_masked in *. cbn. lia. }
  exists patches, up, emb, ui, mi, mm, pixels, wv. done.
Qed.
End clay_forward.

(** ** Construction of the module *)

Lemma init_tiny `{Externals} (mask_ratio : Q) (norm_pix_loss : bool) (patch_size : nat)
    (lr wd b1 b2 : Q) (embeddings_level : string) :
  ClayMAEModule.__init__ "tiny" mask_ratio norm_pix_loss patch_size lr wd b1 b2
    embeddings_level =
  Ok (ClayMAEModule.mk
        (ClayMAEModule.mk_hparams "tiny" mask_ratio norm_pix_loss patch_size lr wd b1 b2
           embeddings_level)
        (clay_mae_tiny mask_ratio patch_size norm_pix_loss)).
Proof.
  unfold ClayMAEModule.__init__, ClayMAEModule.model_map.
  by rewrite lookup_singleton_eq.
Qed.

(** C7: for a datacube with [B = 2], [C = 4], [H = W = 32] and the tiny
    model with patch size 16 (so [L = 4]), in either mode, the encoder
    returns an embedding tensor of shape [(2, 1 + unmasked_count, D)] and
    the decoder a pixel tensor of shape [(2, 4, 4 * 16 * 16)], the output
    for the class token having been dropped; the collaborators are assumed
    to keep their shape contracts. *)
Theorem forward_shapes_tiny {E : Externals} {HE : ExternalsSpec E}
    (mask_ratio : Q) (norm_pix_loss mode : bool) (lr wd b1 b2 : Q)
    (embeddings_level : string) (self : ClayMAEModule.t)
    (randn : nat → nat → Q) (datacube : Datacube.t) (waves0 gsd0 gsd00 : tensor) :
  ClayMAEModule.__init__ "tiny" mask_ratio norm_pix_loss 16 lr wd b1 b2 embeddings_level
    = Ok self →
  (0 <= mask_ratio)%Q → (mask_ratio < 1)%Q →
  shape4 (Datacube.pixels datacube) 2 4 32 32 →
  shape2 (Datacube.time datacube) 2 2 →
  shape2 (Datacube.latlon datacube) 2 2 →
  index0 (Datacube.gsd datacube) = Ok gsd0 → index0 gsd0 = Ok gsd00 →
  index0 (Datacube.waves datacube) = Ok waves0 → tensor_length waves0 = 4 →
  let model := ClayMAE.train (ClayMAEModule.model self) mode in
  ∃ encoder emb ui mi mm decoder pixels waves_encoded unmasked_count,
    Encoder.forward (ClayMAE.encoder model) randn datacube
      = Ok (encoder, (emb, ui, mi, mm)) ∧
    shape2 ui 2 unmasked_count ∧
    shape3 emb 2 (1 + unmasked_count) (Encoder.dim (ClayMAE.encoder model)) ∧
    Decoder.forward (ClayMAE.decoder model) emb ui mi mm (Datacube.time datacube)
      (Datacube.latlon datacube) (Datacube.gsd datacube) (Datacube.waves datacube)
      = Ok (decoder, (pixels, waves_encoded)) ∧
    shape3 pixels 2 4 (4 * 16 * 16).
Proof.
  intros Hinit H0 H1 Hpx Ht Hl Hg Hg0 Hw HN model.
  rewrite init_tiny in Hinit. injection Hinit as <-.
  destruct (tiny_forward_shapes mask_ratio 16 norm_pix_loss mode randn datacube
              2 4 32 32 waves0 gsd0 gsd00
              (num_masked_bounds mask_ratio 4 H0 H1 ltac:(lia)))
    as (patches & up & emb & ui & mi & mm & pixels & wv & Henc & _ & _ & Hemb & Hui
        & _ & _ & Hdec & Hpixels); try done; try lia.
  rewrite HN in Hpixels.
  eexists _, emb, ui, mi, mm, _, pixels, wv, _.
  split; [exact Henc|]. split; [exact Hui|]. split; [exact Hemb|].
  split; [exact Hdec|]. exact Hpixels.
Qed.

(** ** The concrete collaborators keep the contracts *)

Lemma shape3_zeros3 (B L D : nat) : shape3 (zeros3 B L D) B L D.
Proof. apply shape3_replicate, shape2_replicate_vec. Qed.

Lemma shape4_replicate {A} (B C H W : nat) (x : A) :
  shape4 (replicate B (replicate C (replicate H (replicate W x)))) B C H W.
Proof.
  split; [by rewrite length_replicate|].
  apply Forall_forall. intros m ->%elem_of_replicate_inv.
  apply shape3_replicate, shape2_replicate_vec.
Qed.

Lemma shape4_sizes {A} (t : list (list (list (list A)))) (B C H W : nat) :
  0 < B → 0 < C → 0 < H → shape4 t B C H W →
  length t = B ∧ size2 t = H ∧ size3 t = W.
Proof.
  intros HB HC HH [Hlen Ht]. split; [done|].
  destruct t as [|m t]; [cbn in Hlen; lia|].
  inversion Ht as [|?? Hm _]; subst.
  destruct (shape3_size1 _ _ _ _ HC Hm) as [HlenC Hsize]. split; [done|].
  destruct m as [|c m]; [cbn in HlenC; lia|].
  destruct Hm as [_ Hm]. inversion Hm as [|?? Hc _]; subst.
  destruct (shape2_size1 _ _ _ HH Hc) as [_ Hw]. done.
Qed.

Lemma sample_externals_spec : ExternalsSpec sample_externals.
Proof.
  split.
  - intros wd nl p d cube wv B C H W Hp HC HH Hcube. cbn. eexists _, _. split; [done|].
    destruct (decide (B = 0)) as [->|HB].
    + destruct Hcube as [Hlen _]. apply nil_length_inv in Hlen as ->. by split.
    + destruct (shape4_sizes cube B C H W ltac:(lia) HC HH Hcube) as (-> & -> & ->).
      apply shape3_zeros3.
  - intros wd nl p d tokens wv B T Htok. cbn. eexists _, _. split; [done|].
    destruct (decide (B = 0)) as [->|HB].
    + destruct Htok as [Hlen _]. apply nil_length_inv in Hlen as ->. by split.
    + destruct (shape3_size1 tokens B T d ltac:(lia) Htok) as [-> ->].
      apply shape3_zeros3.
  - intros dim depth heads dh mlp x B T Hx. cbn. eauto.
  - intros i o x B T [Hlen Hx]. cbn. eexists. split; [done|].
    split; [by rewrite length_fmap|]. apply Forall_fmap.
    eapply Forall_impl; [exact Hx|]. intros m [Hm _]. unfold compose.
    split; [by rewrite length_fmap|]. apply Forall_fmap, Forall_forall.
    intros v _. unfold compose. by rewrite length_replicate.
  - intros h w dim g Hdim. cbn. eexists. split; [done|]. apply shape2_replicate_vec.
  - intros dim. cbn. split; [done|]. repeat constructor. by rewrite length_replicate.
  - intros dim. cbn. by rewrite length_replicate.
Qed.

Lemma forward_shapes_tiny_witness :
  let model := ClayMAE.train (sample_model (3 # 4) 16) true in
  let datacube := sample_datacube 2 4 32 32 in
  ∃ encoder emb ui mi mm decoder pixels waves_encoded unmasked_count,
    Encoder.forward (H := sample_externals) (ClayMAE.encoder model) sample_randn datacube
      = Ok (encoder, (emb, ui, mi, mm)) ∧
    shape2 ui 2 unmasked_count ∧
    shape3 emb 2 (1 + unmasked_count) (Encoder.dim (ClayMAE.encoder model)) ∧
    Decoder.forward (H := sample_externals) (ClayMAE.decoder model) emb ui mi mm
      (Datacube.time datacube) (Datacube.latlon datacube) (Datacube.gsd datacube)
      (Datacube.waves datacube)
      = Ok (decoder, (pixels, waves_encoded)) ∧
    shape3 pixels 2 4 (4 * 16 * 16).
Proof.
  apply (forward_shapes_tiny (E := sample_externals) (HE := sample_externals_spec)
           (3 # 4) false true ClayMAEModule.default_lr ClayMAEModule.default_wd
           ClayMAEModule.default_b1 ClayMAEModule.default_b2 "mean"
           (ClayMAEModule.mk
              (ClayMAEModule.mk_hparams "tiny" (3 # 4) false 16 ClayMAEModule.default_lr
                 ClayMAEModule.default_wd ClayMAEModule.default_b1
                 ClayMAEModule.default_b2 "mean")
              (sample_model (3 # 4) 16))
           sample_randn (sample_datacube 2 4 32 32)
           (Nested (replicate 4 (Scalar 1%R))) (Nested [Scalar 10%R]) (Scalar 10%R));
    [apply init_tiny | done | done | apply shape4_replicate | solve_shape | solve_shape
    | reflexivity | reflexivity | reflexivity | reflexivity].
Defined.

(** ** Only row 0 of [gsd] and [waves] is read *)

Section row0.
Context {E : Externals}.

Lemma add_encodings_gsd (self : Encoder.t) (patches : tensor3) (time latlon : tensor2)
    (gsd gsd' : tensor) :
  index0 gsd = index0 gsd' →
  Encoder.add_encodings self patches time latlon gsd =
  Encoder.add_encodings self patches time latlon gsd'.
Proof. intros Hg. unfold Encoder.add_encodings. by rewrite Hg. Qed.

Lemma encoder_forward_row0 (self : Encoder.t) (randn : nat → nat → Q)
    (pixels : tensor4) (time latlon : tensor2) (gsd gsd' waves waves' : tensor) :
  index0 gsd = index0 gsd' → index0 waves = index0 waves' →
  Encoder.forward self randn (Datacube.mk pixels time latlon gsd waves) =
  Encoder.forward self randn (Datacube.mk pixels time latlon gsd' waves').
Proof.
  intros Hg Hw. unfold Encoder.forward. cbn [Datacube.pixels Datacube.time
    Datacube.latlon Datacube.gsd Datacube.waves].
  rewrite Hw. destruct (index0 waves') as [waves0|]; [|done]. cbn [mbind result_bind].
  destruct (Encoder.to_patch_embed self pixels waves0) as [[patches we]|]; [|done].
  cbn [mbind result_bind]. rewrite (add_encodings_gsd _ _ _ _ gsd gsd') by done.
  reflexivity.
Qed.

Lemma decoder_forward_row0 (self : Decoder.t) (emb : tensor3)
    (ui mi : list (list nat)) (mm : tensor2) (time latlon : tensor2)
    (gsd gsd' waves waves' : tensor) :
  index0 gsd = index0 gsd' → index0 waves = index0 waves' →
  Decoder.forward self emb ui mi mm time latlon gsd waves =
  Decoder.forward self emb ui mi mm time latlon gsd' waves'.
Proof. intros Hg Hw. unfold Decoder.forward. by rewrite Hg, Hw. Qed.

(** C8: two datacubes with the same pixels, times and positions whose
    [gsd] and [waves] agree at batch position 0 give, under the same random
    scores, the same encoder outputs, the same decoder outputs and the same
    loss (or the same exception). *)
Theorem forward_reads_row0_only (self : ClayMAE.t) (randn : nat → nat → Q)
    (datacube datacube' : Datacube.t) :
  Datacube.pixels datacube = Datacube.pixels datacube' →
  Datacube.time datacube = Datacube.time datacube' →
  Datacube.latlon datacube = Datacube.latlon datacube' →
  index0 (Datacube.gsd datacube) = index0 (Datacube.gsd datacube') →
  index0 (Datacube.waves datacube) = index0 (Datacube.waves datacube') →
  Encoder.forward (ClayMAE.encoder self) randn datacube
    = Encoder.forward (ClayMAE.encoder self) randn datacube' ∧
  (∀ emb ui mi mm,
     Decoder.forward (ClayMAE.decoder self) emb ui mi mm (Datacube.time datacube)
       (Datacube.latlon datacube) (Datacube.gsd datacube) (Datacube.waves datacube)
     = Decoder.forward (ClayMAE.decoder self) emb ui mi mm (Datacube.time datacube')
         (Datacube.latlon datacube') (Datacube.gsd datacube')
         (Datacube.waves datacube')) ∧
  ClayMAE.forward self randn datacube = ClayMAE.forward self randn datacube'.
Proof.
  destruct datacube as [px t l g w], datacube' as [px' t' l' g' w']. cbn.
  intros <- <- <- Hg Hw.
  pose proof (encoder_forward_row0 (ClayMAE.encoder self) randn px t l g g' w w' Hg Hw)
    as Henc.
  split; [done|]. split.
  - intros emb ui mi mm. by apply decoder_forward_row0.
  - unfold ClayMAE.forward. rewrite Henc. cbn [Datacube.pixels Datacube.time
      Datacube.latlon Datacube.gsd Datacube.waves].
    generalize (Encoder.forward (ClayMAE.encoder self) randn (Datacube.mk px t l g' w')).
    intros [[enc [[[emb ui] mi] mm]]|]; [|reflexivity].
    cbn [mbind result_bind].
    by rewrite (decoder_forward_row0 _ _ _ _ _ _ _ g g' w w').
Qed.
End row0.

Lemma forward_reads_row0_only_witness :
  let self := sample_model (3 # 4) 16 in
  let datacube := sample_datacube 2 4 32 32 in
  let datacube' :=
    Datacube.mk (Datacube.pixels datacube) (Datacube.time datacube)
      (Datacube.latlon datacube)
      (Nested [Nested [Scalar 10%R]; Nested [Scalar 30%R]])
      (Nested [Nested (replicate 4 (Scalar 1%R)); Nested (replicate 4 (Scalar 2%R))]) in
  Encoder.forward (H := sample_externals) (ClayMAE.encoder self) sample_randn datacube
    = Encoder.forward (H := sample_externals) (ClayMAE.encoder self) sample_randn datacube' ∧
  (∀ emb ui mi mm,
     Decoder.forward (H := sample_externals) (ClayMAE.decoder self) emb ui mi mm
       (Datacube.time datacube) (Datacube.latlon datacube) (Datacube.gsd datacube)
       (Datacube.waves datacube)
     = Decoder.forward (H := sample_externals) (ClayMAE.decoder self) emb ui mi mm
         (Datacube.time datacube') (Datacube.latlon datacube') (Datacube.gsd datacube')
         (Datacube.waves datacube')) ∧
  ClayMAE.forward (H := sample_externals) self sample_randn datacube
    = ClayMAE.forward (H := sample_externals) self sample_randn datacube'.
Proof.
  apply (forward_reads_row0_only (E := sample_externals)); reflexivity.
Defined.

Lemma sum2_single_zero (E M : tensor2) :
  Forall (Forall (λ x, x = 0%R)) M → sum2 (zip_with (zip_with Rmult) E M) = 0%R.
Proof.
  intros HM. unfold sum2. apply sum1_zero, Forall_fmap, Forall_lookup.
  intros b row Hrow. unfold compose.
  apply lookup_zip_with_Some in Hrow as (e & m & -> & _ & Hm).
  apply sum1_zero, Forall_lookup. intros l x Hx.
  apply lookup_zip_with_Some in Hx as (a & z & -> & _ & Hz).
  rewrite Forall_lookup in HM. specialize (HM _ _ Hm).
  rewrite Forall_lookup in HM. rewrite (HM _ _ Hz). lra.
Qed.

(** ** A mask ratio of zero *)

Lemma slice_to_0 {A} (l : list A) : slice_to 0 l = [].
Proof. unfold slice_to. rewrite slice_bound_nonneg by lia. done. Qed.

Lemma num_masked_zero (n : nat) : Encoder.num_masked 0 n = 0%Z.
Proof.
  unfold Encoder.num_masked, mul_float_int.
  assert (Qeq_bool (0 * float (inject_Z (Z.of_nat n))) 0 = true) as Hz.
  { apply Qeq_bool_iff, Qmult_0_l. }
  unfold float at 1. by rewrite Hz.
Qed.

(** With [mask_ratio = 0] no patch is masked and the dense mask is zero. *)
Lemma mask_out_ratio_zero (self : Encoder.t) (randn : nat → nat → Q) (patches : tensor3)
    (B L d n : nat) (up : tensor3) (ui mi : list (list nat)) (mm : tensor2) :
  Encoder.mask_ratio self = 0%Q →
  0 < B → shape3 patches B L d → Encoder.num_patches self = Some n →
  Encoder.mask_out self randn patches = Ok (up, ui, mi, mm) →
  mi = replicate B [] ∧ mm = replicate B (replicate L 0%R).
Proof.
  intros Hr HB Hp Hn Hout.
  destruct (shape3_rect _ _ _ _ Hp) as [Hrect _].
  destruct (shape3_size1 _ _ _ _ HB Hp) as [HlenB HL].
  rewrite (mask_out_Ok self randn patches n Hrect Hn) in Hout.
  rewrite Hr, num_masked_zero, HlenB, HL in Hout. injection Hout as _ _ <- <-.
  assert (length (argsort Qle <$> Encoder.noise self randn B L) = B) as Hlen.
  { by rewrite length_fmap, length_noise. }
  split; symmetry; apply replicate_as_Forall; (split; [by rewrite length_fmap|]);
    apply Forall_fmap, Forall_forall; intros p _; unfold compose.
  - by rewrite slice_to_0.
  - apply replicate_as_Forall. split; [by rewrite length_fmap, length_seq|].
    apply Forall_fmap, Forall_forall. intros j _. unfold compose.
    rewrite decide_False; [done|]. rewrite slice_to_0. apply not_elem_of_nil.
Qed.

Lemma sum2_zero (t : tensor2) : Forall (Forall (λ x, x = 0%R)) t → sum2 t = 0%R.
Proof.
  intros Ht. unfold sum2. apply sum1_zero, Forall_fmap.
  eapply Forall_impl; [exact Ht|]. intros row Hrow. by apply sum1_zero.
Qed.

Lemma fdiv_0_0 : fdiv 0 0 = NaN.
Proof.
  unfold fdiv. destruct (Req_dec_T 0 0) as [_|Hne]; [|done].
  by destruct (Req_dec_T 0 0).
Qed.

(** On a mask without a masked patch the loss is the quotient 0 / 0. *)
Lemma per_pixel_loss_zero_mask (self : ClayMAE.t) (cube : tensor4) (pixels : tensor3)
    (B C H W : nat) :
  let p := ClayMAE.patch_size self in
  let L := (H / p) * (W / p) in
  0 < p → H `mod` p = 0 → W `mod` p = 0 → 0 < C → 0 < H →
  shape4 cube B C H W → shape3 pixels B L (C * p * p) →
  ClayMAE.per_pixel_loss self cube pixels (replicate B (replicate L 0%R)) = Ok NaN.
Proof.
  intros p L Hp HHp HWp HC HH Hcube Hpixels.
  rewrite (per_pixel_loss_formula self cube B C H W) by (done || apply shape2_replicate_vec).
  assert (Forall (Forall (λ x, x = 0%R)) (replicate B (replicate L 0%R))) as Hzero.
  { apply Forall_forall. intros row ->%elem_of_replicate_inv.
    apply Forall_forall. by intros x ->%elem_of_replicate_inv. }
  rewrite (sum2_zero (replicate _ _)) by done.
  rewrite (sum2_single_zero _ _ Hzero). by rewrite fdiv_0_0.
Qed.

Section zero_ratio.
Context {E : Externals} {HE : ExternalsSpec E}.
Variables (p : nat) (norm_pix_loss : bool).
Variables (randn : nat → nat → Q) (datacube : Datacube.t).
Variables (B C H W : nat) (waves0 gsd0 gsd00 : tensor).
Let L := (H / p) * (W / p).
Hypothesis Hp : 0 < p.
Hypothesis HHp : H `mod` p = 0.
Hypothesis HWp : W `mod` p = 0.
Hypothesis HB : 0 < B.
Hypothesis HC : 0 < C.
Hypothesis HH : 0 < H.
Hypothesis HL : Nat.sqrt L ^ 2 = L.
Hypothesis Hpixels : shape4 (Datacube.pixels datacube) B C H W.
Hypothesis Htime : shape2 (Datacube.time datacube) B 2.
Hypothesis Hlatlon : shape2 (Datacube.latlon datacube) B 2.
Hypothesis Hgsd : index0 (Datacube.gsd datacube) = Ok gsd0.
Hypothesis Hgsd0 : index0 gsd0 = Ok gsd00.
Hypothesis Hwaves : index0 (Datacube.waves datacube) = Ok waves0.
Hypothesis HN : tensor_length waves0 = C.

(** The forward pass of the tiny model built with [mask_ratio = 0] returns
    NaN on every well-shaped datacube. *)
Lemma zero_ratio_forward :
  ∃ model, ClayMAE.forward (clay_mae_tiny 0 p norm_pix_loss) randn datacube
             = Ok (model, NaN).
Proof.
  destruct (tiny_forward_shapes 0 p norm_pix_loss true randn datacube B C H W
              waves0 gsd0 gsd00 ltac:(rewrite num_masked_zero; lia))
    as (patches & up & emb & ui & mi & mm & pixels & wv & Henc & Hps & Hmask & _ & _
        & _ & _ & Hdec & Hpx); try done.
  fold L in Henc, Hps, Hmask, Hdec, Hpx.
  destruct (mask_out_ratio_zero
              (Encoder.set_num_patches
                 (ClayMAE.encoder (ClayMAE.train (clay_mae_tiny 0 p norm_pix_loss) true)) L)
              randn patches B L 192 L up ui mi mm eq_refl HB Hps eq_refl Hmask) as [_ ->].
  unfold ClayMAE.forward.
  change (ClayMAE.encoder (clay_mae_tiny 0 p norm_pix_loss))
    with (ClayMAE.encoder (ClayMAE.train (clay_mae_tiny 0 p norm_pix_loss) true)).
  rewrite Henc. cbn [mbind result_bind].
  change (ClayMAE.decoder (clay_mae_tiny 0 p norm_pix_loss))
    with (ClayMAE.decoder (ClayMAE.train (clay_mae_tiny 0 p norm_pix_loss) true)).
  rewrite Hdec. cbn [mbind result_bind].
  rewrite HN in Hpx.
  pose proof (per_pixel_loss_zero_mask (clay_mae_tiny 0 p norm_pix_loss)
                (Datacube.pixels datacube) pixels B C H W Hp HHp HWp HC HH Hpixels Hpx)
    as Hloss.
  cbn [ClayMAE.patch_size clay_mae_tiny ClayMAE.__init__] in Hloss. fold L in Hloss.
  rewrite Hloss. cbn [mbind result_bind]. by eexists.
Qed.

Lemma zero_ratio_training_step (lr wd b1 b2 : Q) (embeddings_level : string)
    (batch_idx : nat) :
  ∃ self self',
    ClayMAEModule.__init__ "tiny" 0 norm_pix_loss p lr wd b1 b2 embeddings_level
      = Ok self ∧
    ClayMAEModule.training_step self randn datacube batch_idx = Ok (self', NaN).
Proof.
  destruct zero_ratio_forward as [model Hfwd].
  eexists _, _. split; [apply init_tiny|].
  unfold ClayMAEModule.training_step, ClayMAEModule.shared_step, ClayMAEModule.forward.
  cbn [ClayMAEModule.model]. rewrite Hfwd. done.
Qed.
End zero_ratio.

(** C4 (as amended): configuring the model with [mask_ratio = 0] raises
    no error.  Construction succeeds, and the training step on a
    well-shaped datacube, the collaborators keeping their shape contracts,
    returns without raising; the loss it returns is NaN, the quotient of
    the zero sums of an all-zero mask. *)
Theorem mask_ratio_zero_loss_is_nan {E : Externals} {HE : ExternalsSpec E}
    (p : nat) (norm_pix_loss : bool) (lr wd b1 b2 : Q) (embeddings_level : string)
    (randn : nat → nat → Q) (datacube : Datacube.t) (batch_idx : nat)
    (B C H W : nat) (waves0 gsd0 gsd00 : tensor) :
  0 < p → H `mod` p = 0 → W `mod` p = 0 → 0 < B → 0 < C → 0 < H →
  Nat.sqrt ((H / p) * (W / p)) ^ 2 = (H / p) * (W / p) →
  shape4 (Datacube.pixels datacube) B C H W →
  shape2 (Datacube.time datacube) B 2 →
  shape2 (Datacube.latlon datacube) B 2 →
  index0 (Datacube.gsd datacube) = Ok gsd0 → index0 gsd0 = Ok gsd00 →
  index0 (Datacube.waves datacube) = Ok waves0 → tensor_length waves0 = C →
  ∃ self self',
    ClayMAEModule.__init__ "tiny" 0 norm_pix_loss p lr wd b1 b2 embeddings_level
      = Ok self ∧
    ClayMAEModule.training_step self randn datacube batch_idx = Ok (self', NaN).
Proof.
  intros Hp HHp HWp HB HC HH HL Hpixels Htime Hlatlon Hgsd Hgsd0 Hwaves HN.
  exact (zero_ratio_training_step p norm_pix_loss randn datacube B C H W waves0 gsd0
           gsd00 Hp HHp HWp HB HC HH HL Hpixels Htime Hlatlon Hgsd Hgsd0 Hwaves HN
           lr wd b1 b2 embeddings_level batch_idx).
Qed.

Lemma mask_ratio_zero_loss_is_nan_witness :
  ∃ self self',
    ClayMAEModule.__init__ (H := sample_externals) "tiny" 0 false 16
      ClayMAEModule.default_lr ClayMAEModule.default_wd ClayMAEModule.default_b1
      ClayMAEModule.default_b2 "mean" = Ok self ∧
    ClayMAEModule.training_step (H := sample_externals) self sample_randn
      (sample_datacube 2 4 32 32) 0 = Ok (self', NaN).
Proof.
  apply (mask_ratio_zero_loss_is_nan (E := sample_externals) (HE := sample_externals_spec)
           16 false ClayMAEModule.default_lr ClayMAEModule.default_wd
           ClayMAEModule.default_b1 ClayMAEModule.default_b2 "mean" sample_randn
           (sample_datacube 2 4 32 32) 0 2 4 32 32
           (Nested (replicate 4 (Scalar 1%R))) (Nested [Scalar 10%R]) (Scalar 10%R));
    [lia | reflexivity | reflexivity | lia | lia | lia | reflexivity
    | apply shape4_replicate | solve_shape | solve_shape
    | reflexivity | reflexivity | reflexivity | reflexivity].
Defined.

(** C4, the claim as stated fails: the tiny model is constructed with
    [mask_ratio = 0] without an error, and a training step on a batch of
    two 4-band 32 x 32 images returns the loss NaN instead of raising. *)
Lemma mask_ratio_zero_counterexample :
  let self :=
    ClayMAEModule.mk
      (ClayMAEModule.mk_hparams "tiny" 0 false 16 ClayMAEModule.default_lr
         ClayMAEModule.default_wd ClayMAEModule.default_b1 ClayMAEModule.default_b2
         "mean")
      (sample_model 0 16) in
  ClayMAEModule.__init__ (H := sample_externals) "tiny" 0 false 16
    ClayMAEModule.default_lr ClayMAEModule.default_wd ClayMAEModule.default_b1
    ClayMAEModule.default_b2 "mean" = Ok self ∧
  ∃ self',
    ClayMAEModule.training_step (H := sample_externals) self sample_randn
      (sample_datacube 2 4 32 32) 0 = Ok (self', NaN).
Proof.
  intros self. split; [apply init_tiny|].
  destruct (zero_ratio_training_step (E := sample_externals) (HE := sample_externals_spec)
              16 false sample_randn (sample_datacube 2 4 32 32) 2 4 32 32
              (Nested (replicate 4 (Scalar 1%R))) (Nested [Scalar 10%R]) (Scalar 10%R))
    with (lr := ClayMAEModule.default_lr) (wd := ClayMAEModule.default_wd)
         (b1 := ClayMAEModule.default_b1) (b2 := ClayMAEModule.default_b2)
         (embeddings_level := "mean"%string) (batch_idx := 0)
    as (self0 & self' & Hinit & Hstep);
    try first [lia | reflexivity | apply shape4_replicate | solve_shape].
  rewrite init_tiny in Hinit. injection Hinit as <-. by exists self'.
Qed.

(** ** The model-size registry *)

Lemma dict_keys_model_map `{Externals} :
  dict_keys ClayMAEModule.model_map = "dict_keys(['tiny'])".
Proof.
  unfold dict_keys, ClayMAEModule.model_map. by rewrite map_to_list_singleton.
Qed.

(** C9: constructing the module with a model size that is not a key of
    the registry raises a [ValueError] whose message quotes the requested
    name and lists the registered names; with the registered name ["tiny"]
    construction returns a module. *)
Theorem init_unregistered_model_size `{Externals} (model_size : string)
    (mask_ratio : Q) (norm_pix_loss : bool) (patch_size : nat) (lr wd b1 b2 : Q)
    (embeddings_level : string) :
  ClayMAEModule.model_map !! model_size = None →
  ClayMAEModule.__init__ model_size mask_ratio norm_pix_loss patch_size lr wd b1 b2
    embeddings_level
    = Raise (ValueError ("Invalid model size " +:+ model_size
                         +:+ ". Expected one of dict_keys(['tiny'])")) ∧
  is_Ok (ClayMAEModule.__init__ "tiny" mask_ratio norm_pix_loss patch_size lr wd b1 b2
           embeddings_level).
Proof.
  intros Hnone. split.
  - unfold ClayMAEModule.__init__. by rewrite Hnone, dict_keys_model_map.
  - rewrite init_tiny. by eexists.
Qed.

Lemma init_unregistered_model_size_witness :
  ClayMAEModule.__init__ (H := sample_externals) "huge" (3 # 4) false 16
    ClayMAEModule.default_lr ClayMAEModule.default_wd ClayMAEModule.default_b1
    ClayMAEModule.default_b2 "mean"
    = Raise (ValueError "Invalid model size huge. Expected one of dict_keys(['tiny'])") ∧
  is_Ok (ClayMAEModule.__init__ (H := sample_externals) "tiny" (3 # 4) false 16
           ClayMAEModule.default_lr ClayMAEModule.default_wd ClayMAEModule.default_b1
           ClayMAEModule.default_b2 "mean").
Proof.
  apply (init_unregistered_model_size (H := sample_externals) "huge"). reflexivity.
Defined.

(** ** Prediction *)

Lemma getattr_B (self : Encoder.t) :
  Encoder.getattr self "B" = Raise (AttributeError "'Encoder' object has no attribute 'B'").
Proof. reflexivity. Qed.

(** C10: [predict_step] raises on every module and every batch.  When the
    encoder forward pass returns, the exception is the [AttributeError] of
    reading the attribute [B], which no method of [Encoder] assigns;
    otherwise it is the exception of the forward pass.  No GeoDataFrame is
    returned. *)
Theorem predict_step_always_raises `{Externals} (self : ClayMAEModule.t)
    (randn : nat → nat → Q) (batch : ClayMAEModule.Batch) (batch_idx : nat) :
  (∃ e, ClayMAEModule.predict_step self randn batch batch_idx = Raise e) ∧
  (is_Ok (Encoder.forward
            (Encoder.set_mask_ratio (ClayMAE.encoder (ClayMAEModule.model self)) 0)
            randn (ClayMAEModule.datacube batch)) →
   ClayMAEModule.predict_step self randn batch batch_idx
     = Raise (AttributeError "'Encoder' object has no attribute 'B'")).
Proof.
  unfold ClayMAEModule.predict_step.
  destruct (Encoder.forward
              (Encoder.set_mask_ratio (ClayMAE.encoder (ClayMAEModule.model self)) 0)
              randn (ClayMAEModule.datacube batch)) as [[encoder outputs]|e].
  - cbn [mbind result_bind]. rewrite getattr_B. cbn [mbind result_bind]. split; eauto.
  - split; [by eexists|]. by intros [a Ha].
Qed.

Lemma predict_step_always_raises_witness :
  let self :=
    ClayMAEModule.mk
      (ClayMAEModule.mk_hparams "tiny" (3 # 4) false 16 ClayMAEModule.default_lr
         ClayMAEModule.default_wd ClayMAEModule.default_b1 ClayMAEModule.default_b2
         "mean")
      (sample_model (3 # 4) 16) in
  let batch :=
    ClayMAEModule.mk_batch (sample_datacube 2 4 32 32)
      [[0; 0; 1; 1]; [1; 1; 2; 2]]%R [32633; 32633]%Z
      ["2022-12-12"; "2022-12-12"]%string ["s3://1.tif"; "s3://2.tif"]%string in
  ClayMAEModule.predict_step (H := sample_externals) self sample_randn batch 0
    = Raise (AttributeError "'Encoder' object has no attribute 'B'").
Proof.
  intros self batch.
  apply (proj2 (predict_step_always_raises (H := sample_externals) self sample_randn batch 0)).
  assert (Encoder_built (H := sample_externals)
            (Encoder.set_mask_ratio (ClayMAE.encoder (ClayMAEModule.model self)) 0))
    as Hbuilt by (by exists 4, 4, 48, 384%Z).
  destruct (encoder_forward_returns (E := sample_externals) (HE := sample_externals_spec)
              (Encoder.set_mask_ratio (ClayMAE.encoder (ClayMAEModule.model self)) 0)
              sample_randn (ClayMAEModule.datacube batch) 2 4 32 32
              (Nested (replicate 4 (Scalar 1%R))) (Nested [Scalar 10%R]) Hbuilt)
    as (patches & up & emb & ui & mi & mm & Hfwd & _);
    [cbn; lia | cbn; lia | lia | lia | lia | reflexivity | apply shape4_replicate
    | solve_shape | solve_shape | reflexivity | reflexivity |].
  eexists. exact Hfwd.
Defined.

(** * Further properties *)

(** ** The masking engine, beyond the claims *)




(** X2: whatever the mask ratio, as long as the floating-point product
    [mask_ratio * num_patches] does not overflow (its magnitude stays
    within the largest double, and [num_patches] below [2 ** 53]), the
    masked and the unmasked indices of a sample together are a permutation
    of the patch indices; the number of masked ones is the truncated
    product [int(mask_ratio * num_patches)] clamped as a Python slice bound
    clamps it: all patches when it reaches [L], and counted from the end
    when it is negative. *)
Theorem mask_out_clamps (self : Encoder.t) (randn : nat → nat → Q)
    (patches : tensor3) (B L D n : nat) :
  shape3 patches B L D →
  Encoder.num_patches self = Some n →
  (Z.of_nat n < 2 ^ 53)%Z →
  (Qabs (mul_float_int (Encoder.mask_ratio self) (Z.of_nat n)) <= max_double)%Q →
  let k := int (mul_float_int (Encoder.mask_ratio self) (Z.of_nat n)) in
  ∃ up ui mi mm,
    Encoder.mask_out self randn patches = Ok (up, ui, mi, mm) ∧
    ∀ b m u, mi !! b = Some m → ui !! b = Some u →
      m ++ u ≡ₚ seq 0 L ∧
      ((0 ≤ k ≤ Z.of_nat L)%Z → Z.of_nat (length m) = k) ∧
      ((Z.of_nat L ≤ k)%Z → length m = L ∧ u = []) ∧
      ((k < 0)%Z → Z.of_nat (length m) = Z.max 0 (k + Z.of_nat L)).
Proof.
  intros Hshape Hn _ _ k.
  destruct (mask_out_samples self randn patches B L D _ Hshape Hn)
    as (up & ui & mi & mm & Hout & Hui & Hmi & Hmm & Hrows).
  exists up, ui, mi, mm. split; [done|].
  intros b m u Hm Hu.
  destruct (Hrows b) as (p & _ & Hp & Hm' & Hu' & _).
  { apply lookup_lt_Some in Hm. lia. }
  assert (length p = L) as Hlen by (by rewrite Hp, length_seq).
  unfold Encoder.num_masked in Hm', Hu'. fold k in Hm', Hu'. simplify_eq.
  split; [by rewrite slice_to_from|].
  rewrite length_slice_to. unfold slice_from, slice_bound.
  destruct (Z.ltb_spec k 0); repeat split; try lia.
  apply drop_ge. lia.
Qed.

(** The ratio 1.5 on nine patches: the product is 13.5, and all nine are
    masked. *)
Lemma mask_out_clamps_witness :
  let self := Encoder.set_num_patches (sample_encoder (3 # 2)) 9 in
  let k := int (mul_float_int (Encoder.mask_ratio self) (Z.of_nat 9)) in
  ∃ up ui mi mm,
    Encoder.mask_out self sample_randn (zeros3 2 9 1) = Ok (up, ui, mi, mm) ∧
    ∀ b m u, mi !! b = Some m → ui !! b = Some u →
      m ++ u ≡ₚ seq 0 9 ∧
      ((0 ≤ k ≤ Z.of_nat 9)%Z → Z.of_nat (length m) = k) ∧
      ((Z.of_nat 9 ≤ k)%Z → length m = 9 ∧ u = []) ∧
      ((k < 0)%Z → Z.of_nat (length m) = Z.max 0 (k + Z.of_nat 9)).
Proof.
  apply (mask_out_clamps (Encoder.set_num_patches (sample_encoder (3 # 2)) 9)
           sample_randn (zeros3 2 9 1) 2 9 1 9);
    [apply shape3_zeros3 | reflexivity | done | vm_compute; discriminate].
Defined.

(** X3: the unmasked patches that [mask_out] returns are exactly the
    patches at the unmasked indices, in the order of those indices: for
    every sample as many rows as it has unmasked indices, the row at
    position [j] being the input patch at the [j]-th unmasked index. *)
Theorem mask_out_gathers_unmasked (self : Encoder.t) (randn : nat → nat → Q)
    (patches up : tensor3) (ui mi : list (list nat)) (mm : tensor2) (B L D n : nat) :
  shape3 patches B L D →
  Encoder.num_patches self = Some n →
  Encoder.mask_out self randn patches = Ok (up, ui, mi, mm) →
  length up = B ∧ length ui = B ∧
  ∀ b u, ui !! b = Some u →
    ∃ row rows,
      patches !! b = Some row ∧ up !! b = Some rows ∧
      length rows = length u ∧
      ∀ j i, u !! j = Some i → is_Some (row !! i) ∧ rows !! j = row !! i.
Proof.
  intros Hshape Hn Hout.
  destruct (shape3_rect _ _ _ _ Hshape) as [Hrect HL].
  rewrite (mask_out_Ok self randn patches n Hrect Hn) in Hout.
  cbv zeta in Hout. injection Hout as <- <- <- <-.
  destruct Hshape as [HB Hpatches].
  split.
  { rewrite length_zip_with, !length_fmap, length_noise. lia. }
  split.
  { by rewrite !length_fmap, length_noise. }
  intros b u Hu.
  rewrite list_lookup_fmap in Hu.
  destruct (_ !! b) as [p|] eqn:Hp in Hu; [|done]. cbn in Hu. injection Hu as <-.
  assert (b < B) as Hb.
  { apply lookup_lt_Some in Hp. rewrite length_fmap, length_noise in Hp. lia. }
  assert (size1 patches = L) as HL' by (apply HL; intros ->; cbn in HB; lia).
  assert (p ≡ₚ seq 0 L) as Hperm.
  { rewrite <-HL'. by eapply random_indices_Permutation. }
  destruct (lookup_lt_is_Some_2 patches b) as [row Hrow]; [lia|].
  assert (length row = L) as Hlen.
  { rewrite Forall_lookup in Hpatches. by destruct (Hpatches _ _ Hrow). }
  exists row, ((row !!!.) <$>
                 slice_from (Encoder.num_masked (Encoder.mask_ratio self) n) p).
  split; [done|]. split.
  { apply lookup_zip_with_Some. eexists _, _. split; [done|]. split; [done|].
    by rewrite list_lookup_fmap, Hp. }
  split; [by rewrite length_fmap|].
  intros j i Hi.
  assert (i < L) as HiL.
  { assert (i ∈ p) as Hin.
    { unfold slice_from in Hi. rewrite lookup_drop in Hi.
      by eapply list_elem_of_lookup_2. }
    rewrite Hperm in Hin. apply elem_of_seq in Hin. lia. }
  rewrite list_lookup_fmap, Hi. cbn.
  rewrite (list_lookup_lookup_total_lt row i) by lia.
  split; [by eexists|done].
Qed.

(** Nine patches that hold 10 to 18: the unmasked indices 6, 4, 2 gather
    the patches 16, 14, 12. *)
Lemma mask_out_gathers_unmasked_witness :
  let self := Encoder.set_num_patches (sample_encoder (3 # 4)) 9 in
  let patches : tensor3 :=
    [[[10]; [11]; [12]; [13]; [14]; [15]; [16]; [17]; [18]]]%R in
  let up : tensor3 := [[[16]; [14]; [12]]]%R in
  Encoder.mask_out self sample_randn patches =
    Ok (up, [[6; 4; 2]], [[0; 7; 5; 3; 1; 8]], [[1; 1; 0; 1; 0; 1; 0; 1; 1]%R]) ∧
  length up = 1 ∧ length [[6; 4; 2]] = 1 ∧
  ∀ b u, [[6; 4; 2]] !! b = Some u →
    ∃ row rows,
      patches !! b = Some row ∧ up !! b = Some rows ∧
      length rows = length u ∧
      ∀ j i, u !! j = Some i → is_Some (row !! i) ∧ rows !! j = row !! i.
Proof.
  intros self patches up.
  assert (Encoder.mask_out self sample_randn patches =
            Ok (up, [[6; 4; 2]], [[0; 7; 5; 3; 1; 8]],
                [[1; 1; 0; 1; 0; 1; 0; 1; 1]%R])) as Hout
    by (vm_compute; reflexivity).
  split; [exact Hout|].
  apply (mask_out_gathers_unmasked self sample_randn patches up [[6; 4; 2]]
           [[0; 7; 5; 3; 1; 8]] [[1; 1; 0; 1; 0; 1; 0; 1; 1]%R] 1 9 1 9);
    [solve_shape | reflexivity | exact Hout].
Defined.

(** Sums of indicator rows. *)
Lemma sum1_fmap_plus {A} (f g : A → R) (l : list A) :
  sum1 ((λ x, f x + g x)%R <$> l) = (sum1 (f <$> l) + sum1 (g <$> l))%R.
Proof.
  induction l as [|x l IH]; cbn [fmap list_fmap].
  - unfold sum1. cbn. lra.
  - rewrite !sum1_cons, IH. lra.
Qed.

Lemma sum1_const (l : tensor1) (c : R) :
  Forall (λ x, x = c) l → sum1 l = (INR (length l) * c)%R.
Proof.
  induction 1 as [|x l -> _ IH].
  - unfold sum1. cbn. lra.
  - rewrite sum1_cons, IH. cbn [length]. rewrite S_INR. lra.
Qed.

Lemma sum1_indicator (m : list nat) (L : nat) :
  NoDup m → Forall (λ i, i < L) m →
  sum1 ((λ j, if decide (j ∈ m) then 1%R else 0%R) <$> seq 0 L) = INR (length m).
Proof.
  induction 1 as [|x m Hx Hnd IH]; intros Hlt.
  - cbn [length INR]. apply sum1_zero, Forall_fmap, Forall_forall.
    intros j _. unfold compose. rewrite decide_False; [done|]. by intros ?%elem_of_nil.
  - inversion Hlt as [|?? HxL Hlt']; subst.
    erewrite list_fmap_ext.
    2:{ intros _ j _.
        instantiate (1 := λ j, ((if decide (j = x) then 1 else 0)
                                + (if decide (j ∈ m) then 1 else 0))%R).
        cbn beta.
        destruct (decide (j = x)) as [->|Hne].
        - rewrite decide_True by left. rewrite decide_False by done. lra.
        - destruct (decide (j ∈ m)) as [Hin|Hin].
          + rewrite decide_True by (by right). lra.
          + rewrite decide_False; [lra|]. by intros [?|?]%elem_of_cons. }
    rewrite sum1_fmap_plus, IH by done.
    rewrite (sum1_single _ x 1%R).
    + cbn [length]. rewrite S_INR. lra.
    + rewrite list_lookup_fmap, lookup_seq_lt by done. cbn. by rewrite decide_True.
    + intros i v Hv Hne. rewrite list_lookup_fmap in Hv.
      apply fmap_Some in Hv as (j & Hj & ->).
      apply lookup_seq in Hj as [-> _]. by rewrite decide_False.
Qed.

(** The dense mask has entries that are not negative, each of its rows
    sums to the number of masked indices of its sample, and its sum is [B]
    times the number of masked patches per sample. *)
Lemma mask_out_mask_sums (self : Encoder.t) (randn : nat → nat → Q)
    (patches up : tensor3) (ui mi : list (list nat)) (mm : tensor2) (B L D n : nat) :
  shape3 patches B L D →
  Encoder.num_patches self = Some n →
  Encoder.mask_out self randn patches = Ok (up, ui, mi, mm) →
  Forall (Forall (λ x, 0 <= x)%R) mm ∧
  (∀ b row m, mm !! b = Some row → mi !! b = Some m → sum1 row = INR (length m)) ∧
  sum2 mm =
    INR (B * slice_bound (Encoder.num_masked (Encoder.mask_ratio self) n) L).
Proof.
  intros Hshape Hn Hout.
  destruct (mask_out_samples self randn patches B L D _ Hshape Hn)
    as (up' & ui' & mi' & mm' & Hout' & Hui & Hmi & Hmm & Hrows).
  rewrite Hout in Hout'. injection Hout' as <- <- <- <-.
  assert (∀ b row m, mm !! b = Some row → mi !! b = Some m →
            sum1 row = INR (length m) ∧
            length m = slice_bound (Encoder.num_masked (Encoder.mask_ratio self) n) L)
    as Hrow.
  { intros b row m Hrow Hm.
    destruct (Hrows b) as (p & _ & Hp & Hm' & _ & Hrow').
    { apply lookup_lt_Some in Hm. lia. }
    assert (length p = L) as Hlen by (by rewrite Hp, length_seq).
    simplify_eq. split.
    - apply sum1_indicator.
      + unfold slice_to. eapply sublist_NoDup; [|apply sublist_take].
        rewrite Hp. apply NoDup_seq.
      + apply Forall_forall. intros i (j & Hj & _)%elem_of_take.
        apply list_elem_of_lookup_2 in Hj. rewrite Hp in Hj.
        apply elem_of_seq in Hj. lia.
    - by rewrite length_slice_to. }
  split; [|split; [intros b row m ??; by eapply Hrow|]].
  - apply Forall_lookup. intros b row Hrow'.
    destruct (Hrows b) as (p & _ & _ & _ & _ & Hrow'').
    { apply lookup_lt_Some in Hrow'. lia. }
    simplify_eq. apply Forall_fmap, Forall_forall. intros j _. unfold compose.
    destruct (decide _); lra.
  - unfold sum2. rewrite (sum1_const _ (INR (slice_bound
      (Encoder.num_masked (Encoder.mask_ratio self) n) L))).
    + rewrite length_fmap, Hmm, mult_INR. done.
    + apply Forall_fmap, Forall_lookup. intros b row Hb. unfold compose.
      destruct (lookup_lt_is_Some_2 mi b) as [m Hm].
      { apply lookup_lt_Some in Hb. lia. }
      destruct (Hrow _ _ _ Hb Hm) as [-> ->]. done.
Qed.

(** X4: every row of the dense mask sums to the number of masked indices
    of its sample, so the divisor [masked_matrix.sum()] of the loss is
    [B] times the number of masked patches per sample: the truncated
    floating-point product [int(mask_ratio * num_patches)], clamped as the
    slice bound of a row of [L] indices. *)
Theorem mask_out_matrix_sum (self : Encoder.t) (randn : nat → nat → Q)
    (patches up : tensor3) (ui mi : list (list nat)) (mm : tensor2) (B L D n : nat) :
  shape3 patches B L D →
  Encoder.num_patches self = Some n →
  Encoder.mask_out self randn patches = Ok (up, ui, mi, mm) →
  (∀ b row m, mm !! b = Some row → mi !! b = Some m → sum1 row = INR (length m)) ∧
  sum2 mm =
    INR (B * slice_bound (Encoder.num_masked (Encoder.mask_ratio self) n) L).
Proof.
  intros Hshape Hn Hout.
  by destruct (mask_out_mask_sums self randn patches up ui mi mm B L D n Hshape Hn Hout)
    as (_ & ? & ?).
Qed.

(** At the ratio 0.7 and 100 patches, in evaluation mode: 70 ones per
    row. *)
Lemma mask_out_matrix_sum_witness :
  let self :=
    Encoder.set_training
      (Encoder.set_num_patches (sample_encoder (float (7 # 10))) 100) false in
  let mi := [seq 0 70] in
  let mm : tensor2 := [replicate 70 1%R ++ replicate 30 0%R] in
  slice_bound (Encoder.num_masked (Encoder.mask_ratio self) 100) 100 = 70 ∧
  Encoder.mask_out self sample_randn (zeros3 1 100 1) =
    Ok (zeros3 1 30 1, [seq 70 30], mi, mm) ∧
  (∀ b row m, mm !! b = Some row → mi !! b = Some m → sum1 row = INR (length m)) ∧
  sum2 mm = INR (1 * slice_bound (Encoder.num_masked (Encoder.mask_ratio self) 100) 100).
Proof.
  intros self mi mm.
  assert (Encoder.mask_out self sample_randn (zeros3 1 100 1) =
            Ok (zeros3 1 30 1, [seq 70 30], mi, mm)) as Hout
    by (vm_compute; reflexivity).
  split; [vm_compute; reflexivity|]. split; [exact Hout|].
  apply (mask_out_matrix_sum self sample_randn (zeros3 1 100 1) (zeros3 1 30 1)
           [seq 70 30] mi mm 1 100 1 100);
    [apply shape3_zeros3 | reflexivity | exact Hout].
Defined.

(** X5: [reverse_indices], the argsort of the shuffle, is the inverse
    permutation of the shuffle: position [i] of the shuffle holds the patch
    [j] exactly when position [j] of the reverse indices holds [i]. *)
Theorem reverse_indices_inverse (self : Encoder.t) (randn : nat → nat → Q)
    (B L b : nat) (p : list nat) :
  (argsort Qle <$> Encoder.noise self randn B L) !! b = Some p →
  length (argsort le p) = L ∧
  ∀ i j, p !! i = Some j ↔ argsort le p !! j = Some i.
Proof.
  intros Hp. apply random_indices_Permutation in Hp.
  assert (length p = L) as Hlen by (by rewrite Hp, length_seq).
  assert (NoDup p) as Hnd by (rewrite Hp; apply NoDup_seq).
  rewrite <-Hlen in Hp.
  split; [by rewrite length_argsort|].
  intros i j. split.
  - intros Hi.
    assert (j < length p) as Hj.
    { apply list_elem_of_lookup_2 in Hi. rewrite Hp in Hi.
      apply elem_of_seq in Hi. lia. }
    destruct (argsort_inverse_lookup p j Hp Hj) as (i' & Hr & Hi').
    by rewrite (NoDup_lookup _ _ _ _ Hnd Hi Hi').
  - intros Hr.
    assert (j < length p) as Hj.
    { apply lookup_lt_Some in Hr. by rewrite length_argsort in Hr. }
    destruct (argsort_inverse_lookup p j Hp Hj) as (i' & Hr' & Hi').
    congruence.
Qed.

Lemma reverse_indices_inverse_witness :
  let p := [0; 7; 5; 3; 1; 8; 6; 4; 2] in
  length (argsort le p) = 9 ∧
  ∀ i j, p !! i = Some j ↔ argsort le p !! j = Some i.
Proof.
  apply (reverse_indices_inverse (sample_encoder (3 # 4)) sample_randn 1 9 0).
  vm_compute. reflexivity.
Defined.

(** X6: which patches are masked does not depend on the values of the
    patches, only on the batch size and the number of patches: two batches
    of the same shape get the same indices and the same mask. *)
Theorem mask_out_ignores_values (self : Encoder.t) (randn : nat → nat → Q)
    (patches patches' : tensor3) (B L D D' n : nat) :
  shape3 patches B L D → shape3 patches' B L D' →
  Encoder.num_patches self = Some n →
  ∃ up up' ui mi mm,
    Encoder.mask_out self randn patches = Ok (up, ui, mi, mm) ∧
    Encoder.mask_out self randn patches' = Ok (up', ui, mi, mm).
Proof.
  intros Hshape Hshape' Hn.
  destruct (shape3_rect _ _ _ _ Hshape) as [Hrect HL].
  destruct (shape3_rect _ _ _ _ Hshape') as [Hrect' HL'].
  rewrite (mask_out_Ok self randn patches n Hrect Hn).
  rewrite (mask_out_Ok self randn patches' n Hrect' Hn). cbv zeta.
  destruct Hshape as [HB _], Hshape' as [HB' _].
  destruct (decide (B = 0)) as [->|HB0].
  - apply nil_length_inv in HB as ->. apply nil_length_inv in HB' as ->.
    by eexists _, _, _, _, _.
  - rewrite HL, HL', HB, HB'.
    + by eexists _, _, _, _, _.
    + intros ->. cbn in HB'. lia.
    + intros ->. cbn in HB. lia.
Qed.

Lemma mask_out_ignores_values_witness :
  let self := Encoder.set_num_patches (sample_encoder (3 # 4)) 9 in
  ∃ up up' ui mi mm,
    Encoder.mask_out self sample_randn (zeros3 2 9 1) = Ok (up, ui, mi, mm) ∧
    Encoder.mask_out self sample_randn (replicate 2 (replicate 9 [1; 2]%R))
      = Ok (up', ui, mi, mm).
Proof.
  apply (mask_out_ignores_values (Encoder.set_num_patches (sample_encoder (3 # 4)) 9)
           sample_randn (zeros3 2 9 1) (replicate 2 (replicate 9 [1; 2]%R)) 2 9 1 2 9);
    [apply shape3_zeros3 | apply shape3_replicate, shape2_replicate | reflexivity].
Defined.

(** ** The metadata encoder, beyond the claims *)

(** X7: for every combination of the two flags and every batch,
    [encode_metadata] returns one row of eight entries per sample; the
    first four are the sines and cosines of latitude and longitude in
    radians when [has_lat_lon] is set and zero otherwise; the last four
    are zero when [has_time] is set, and the sines and cosines of the hour
    and week angles when it is not. *)
Theorem encode_metadata_blocks (time latlon : tensor2) (has_time has_lat_lon : bool)
    (B : nat) :
  shape2 time B 2 → shape2 latlon B 2 →
  ∃ md,
    encode_metadata time latlon has_time has_lat_lon = Ok md ∧
    shape2 md B 8 ∧
    ∀ b t ll, time !! b = Some t → latlon !! b = Some ll →
      ∃ row, md !! b = Some row ∧
        take 4 row =
          (if has_lat_lon
           then [sin ((ll !!! 0%nat) * PI / 180); cos ((ll !!! 0%nat) * PI / 180);
                 sin ((ll !!! 1%nat) * PI / 180); cos ((ll !!! 1%nat) * PI / 180)]
           else [0; 0; 0; 0])%R ∧
        drop 4 row =
          (if has_time
           then [0; 0; 0; 0]
           else [sin ((t !!! 0%nat) * 2 * PI / 24); cos ((t !!! 0%nat) * 2 * PI / 24);
                 sin ((t !!! 1%nat) * 2 * PI / 52); cos ((t !!! 1%nat) * 2 * PI / 52)])%R.
Proof.
  intros Ht Hl. rewrite (encode_metadata_rows _ _ _ _ B Ht Hl).
  eexists. split; [done|]. split.
  - destruct Ht as [Ht _], Hl as [Hl _]. split.
    + rewrite length_zip_with. lia.
    + apply Forall_lookup. intros b row Hrow.
      apply lookup_zip_with_Some in Hrow as (t & ll & -> & _ & _).
      unfold encoded_row, specified_metadata. by destruct has_time, has_lat_lon.
  - intros b t ll Htb Hlb. eexists. split.
    + apply lookup_zip_with_Some. eauto.
    + unfold encoded_row, specified_metadata. by destruct has_time, has_lat_lon.
Qed.

Lemma encode_metadata_blocks_witness :
  ∃ md,
    encode_metadata [[6; 26]%R] [[45; 90]%R] false true = Ok md ∧
    shape2 md 1 8 ∧
    ∀ b t ll, [[6; 26]%R] !! b = Some t → [[45; 90]%R] !! b = Some ll →
      ∃ row, md !! b = Some row ∧
        take 4 row =
          [sin ((ll !!! 0%nat) * PI / 180); cos ((ll !!! 0%nat) * PI / 180);
           sin ((ll !!! 1%nat) * PI / 180); cos ((ll !!! 1%nat) * PI / 180)]%R ∧
        drop 4 row =
          [sin ((t !!! 0%nat) * 2 * PI / 24); cos ((t !!! 0%nat) * 2 * PI / 24);
           sin ((t !!! 1%nat) * 2 * PI / 52); cos ((t !!! 1%nat) * 2 * PI / 52)]%R.
Proof.
  apply (encode_metadata_blocks [[6; 26]%R] [[45; 90]%R] false true 1); solve_shape.
Defined.

(** X8: every entry of the encoding lies in [[-1, 1]]; with
    [has_lat_lon] set, the latitude pair and the longitude pair of a row
    are points of the unit circle, and with the flags the model passes
    (both true) the squares of a row sum to 2. *)
Theorem encode_metadata_bounded (time latlon : tensor2) (has_time has_lat_lon : bool)
    (B : nat) (md : tensor2) :
  shape2 time B 2 → shape2 latlon B 2 →
  encode_metadata time latlon has_time has_lat_lon = Ok md →
  Forall (Forall (λ x, -1 <= x <= 1)%R) md ∧
  (has_lat_lon = true →
   ∀ b row, md !! b = Some row →
     ((row !!! 0%nat) * (row !!! 0%nat) + (row !!! 1%nat) * (row !!! 1%nat) = 1 ∧
      (row !!! 2%nat) * (row !!! 2%nat) + (row !!! 3%nat) * (row !!! 3%nat) = 1)%R ∧
     (has_time = true → sum1 ((λ x, x * x)%R <$> row) = 2%R)).
Proof.
  intros Ht Hl. rewrite (encode_metadata_rows _ _ _ _ B Ht Hl). intros [= <-].
  assert (∀ x, (sin x * sin x + cos x * cos x = 1)%R) as Hsc.
  { intros x. pose proof (sin2_cos2 x) as Hx. unfold Rsqr in Hx. lra. }
  split.
  - apply Forall_lookup. intros b row Hrow.
    apply lookup_zip_with_Some in Hrow as (t & ll & -> & _ & _).
    unfold encoded_row, specified_metadata.
    destruct has_time, has_lat_lon; cbn [negb app];
      repeat (apply Forall_cons_2; [first [apply SIN_bound | apply COS_bound | lra]|]);
      apply Forall_nil_2.
  - intros -> b row Hrow.
    apply lookup_zip_with_Some in Hrow as (t & ll & -> & _ & _).
    unfold encoded_row, specified_metadata. cbn.
    split; [split; apply Hsc|].
    intros ->. cbn.
    pose proof (Hsc (ll !!! 0%nat * PI / 180)%R).
    pose proof (Hsc (ll !!! 1%nat * PI / 180)%R). lra.
Qed.

Lemma encode_metadata_bounded_witness :
  let md := [[sin (45 * PI / 180); cos (45 * PI / 180);
              sin (90 * PI / 180); cos (90 * PI / 180); 0; 0; 0; 0]%R] in
  Forall (Forall (λ x, -1 <= x <= 1)%R) md ∧
  (true = true →
   ∀ b row, md !! b = Some row →
     ((row !!! 0%nat) * (row !!! 0%nat) + (row !!! 1%nat) * (row !!! 1%nat) = 1 ∧
      (row !!! 2%nat) * (row !!! 2%nat) + (row !!! 3%nat) * (row !!! 3%nat) = 1)%R ∧
     (true = true → sum1 ((λ x, x * x)%R <$> row) = 2%R)).
Proof.
  apply (encode_metadata_bounded [[6; 26]%R] [[45; 90]%R] true true 1);
    [solve_shape | solve_shape |].
  rewrite (encode_metadata_rows _ _ _ _ 1) by solve_shape. reflexivity.
Defined.

Lemma set_column_single (t : tensor2) (j : nat) (x : R) :
  set_column t j [x] = Ok ((λ row, <[j := x]> row) <$> t).
Proof.
  unfold set_column. destruct (decide _) as [Hlen|]; [|done].
  destruct t as [|row [|??]]; done.
Qed.

Lemma set_column_replicate (t : tensor2) (j n : nat) (x : R) :
  n = length t →
  set_column t j (replicate n x) = Ok ((λ row, <[j := x]> row) <$> t).
Proof.
  intros ->. rewrite set_column_Ok by (by rewrite length_replicate).
  by rewrite zip_with_replicate_r_eq.
Qed.

Lemma set_column_mismatch (t : tensor2) (j : nat) (col : tensor1) :
  length col ≠ length t → length col ≠ 1 →
  set_column t j col = Raise (RuntimeError "shape mismatch in assignment").
Proof.
  intros Hlen H1. unfold set_column. rewrite decide_False by done.
  by destruct col as [|x [|??]].
Qed.

(** X9: the number of lat/lon rows has to be the batch size or one: a
    single row is broadcast to every sample, any other number of rows
    makes the first column assignment raise [RuntimeError]. *)
Theorem encode_metadata_latlon_rows (time latlon : tensor2) (has_time : bool) (k : nat) :
  shape2 latlon k 2 →
  (k ≠ length time → k ≠ 1 →
   ∃ msg, encode_metadata time latlon has_time true = Raise (RuntimeError msg)) ∧
  (∀ ll, latlon = [ll] →
     encode_metadata time latlon has_time true
       = encode_metadata time (replicate (length time) ll) has_time true).
Proof.
  intros [Hk Hrows]. split.
  - intros HkB Hk1. unfold encode_metadata.
    rewrite (column_Ok latlon 0), (column_Ok latlon 1)
      by (eapply Forall_impl; [exact Hrows|]; cbn; lia).
    cbn [mbind result_bind].
    rewrite (set_column_mismatch (replicate (length time) _) 0)
      by (rewrite !length_fmap, ?length_replicate; lia).
    cbn. eauto.
  - intros ll ->. inversion Hrows as [|?? Hll _]; subst.
    unfold encode_metadata.
    rewrite (column_Ok [ll] 0), (column_Ok [ll] 1) by (repeat constructor; lia).
    rewrite (column_Ok (replicate _ ll) 0), (column_Ok (replicate _ ll) 1)
      by (apply Forall_forall; intros ? ->%elem_of_replicate_inv; lia).
    cbn [mbind result_bind fmap list_fmap].
    rewrite !fmap_replicate.
    repeat (rewrite set_column_single; cbn [mbind result_bind]).
    repeat (rewrite set_column_replicate
              by (by rewrite ?length_fmap, length_replicate);
            cbn [mbind result_bind]).
    done.
Qed.

Lemma encode_metadata_latlon_rows_witness :
  let time : tensor2 := [[0; 0]; [0; 0]; [0; 0]]%R in
  let latlon : tensor2 := [[45; 90]; [45; 90]]%R in
  (2 ≠ length time → 2 ≠ 1 →
   ∃ msg, encode_metadata time latlon true true = Raise (RuntimeError msg)) ∧
  (∀ ll, latlon = [ll] →
     encode_metadata time latlon true true
       = encode_metadata time (replicate (length time) ll) true true).
Proof.
  apply (encode_metadata_latlon_rows [[0; 0]; [0; 0]; [0; 0]]%R [[45; 90]; [45; 90]]%R
           true 2).
  solve_shape.
Defined.

(** ** The time input *)

Lemma encode_metadata_time_ignored (time time' latlon : tensor2) (has_lat_lon : bool) :
  length time = length time' →
  encode_metadata time latlon true has_lat_lon
    = encode_metadata time' latlon true has_lat_lon.
Proof. intros Hlen. unfold encode_metadata. by rewrite Hlen. Qed.

Section time_ignored.
Context {E : Externals}.

(** X10: both call sites pass [has_time=True], which zeroes the time
    block, so the forward pass reads of [time] only its number of rows: two
    datacubes that differ in the values of [time] alone give the same
    encoder result, the same decoder result and the same loss (or the same
    exception). *)
Theorem forward_ignores_time_values (self : ClayMAE.t) (randn : nat → nat → Q)
    (pixels : tensor4) (time time' latlon : tensor2) (gsd waves : tensor) :
  length time = length time' →
  let datacube := Datacube.mk pixels time latlon gsd waves in
  let datacube' := Datacube.mk pixels time' latlon gsd waves in
  Encoder.forward (ClayMAE.encoder self) randn datacube
    = Encoder.forward (ClayMAE.encoder self) randn datacube' ∧
  (∀ emb ui mi mm,
     Decoder.forward (ClayMAE.decoder self) emb ui mi mm time latlon gsd waves
     = Decoder.forward (ClayMAE.decoder self) emb ui mi mm time' latlon gsd waves) ∧
  ClayMAE.forward self randn datacube = ClayMAE.forward self randn datacube'.
Proof.
  intros Hlen datacube datacube'.
  assert (Encoder.forward (ClayMAE.encoder self) randn datacube
          = Encoder.forward (ClayMAE.encoder self) randn datacube') as Henc.
  { unfold Encoder.forward, Encoder.add_encodings, datacube, datacube'.
    cbn [Datacube.pixels Datacube.time Datacube.latlon Datacube.gsd Datacube.waves].
    by rewrite (encode_metadata_time_ignored time time'). }
  assert (∀ emb ui mi mm,
     Decoder.forward (ClayMAE.decoder self) emb ui mi mm time latlon gsd waves
     = Decoder.forward (ClayMAE.decoder self) emb ui mi mm time' latlon gsd waves)
    as Hdec.
  { intros emb ui mi mm.
    unfold Decoder.forward, Decoder.reconstruct_and_add_encoding.
    by rewrite (encode_metadata_time_ignored time time'). }
  split; [done|]. split; [done|].
  unfold ClayMAE.forward. rewrite Henc. unfold datacube, datacube'.
  cbn [Datacube.pixels Datacube.time Datacube.latlon Datacube.gsd Datacube.waves].
  generalize (Encoder.forward (ClayMAE.encoder self) randn
                (Datacube.mk pixels time' latlon gsd waves)).
  intros [[enc [[[emb ui] mi] mm]]|]; [|reflexivity].
  cbn [mbind result_bind]. by rewrite Hdec.
Qed.
End time_ignored.

Lemma forward_ignores_time_values_witness :
  let self := sample_model (3 # 4) 16 in
  let d := sample_datacube 2 4 32 32 in
  let datacube :=
    Datacube.mk (Datacube.pixels d) [[0; 0]; [0; 0]]%R (Datacube.latlon d)
      (Datacube.gsd d) (Datacube.waves d) in
  let datacube' :=
    Datacube.mk (Datacube.pixels d) [[6; 26]; [18; 51]]%R (Datacube.latlon d)
      (Datacube.gsd d) (Datacube.waves d) in
  Encoder.forward (H := sample_externals) (ClayMAE.encoder self) sample_randn datacube
    = Encoder.forward (H := sample_externals) (ClayMAE.encoder self) sample_randn datacube' ∧
  (∀ emb ui mi mm,
     Decoder.forward (H := sample_externals) (ClayMAE.decoder self) emb ui mi mm
       [[0; 0]; [0; 0]]%R (Datacube.latlon d) (Datacube.gsd d) (Datacube.waves d)
     = Decoder.forward (H := sample_externals) (ClayMAE.decoder self) emb ui mi mm
         [[6; 26]; [18; 51]]%R (Datacube.latlon d) (Datacube.gsd d) (Datacube.waves d)) ∧
  ClayMAE.forward (H := sample_externals) self sample_randn datacube
    = ClayMAE.forward (H := sample_externals) self sample_randn datacube'.
Proof.
  intros self d.
  apply (forward_ignores_time_values (E := sample_externals) self sample_randn
           (Datacube.pixels d) [[0; 0]; [0; 0]]%R [[6; 26]; [18; 51]]%R
           (Datacube.latlon d) (Datacube.gsd d) (Datacube.waves d)).
  reflexivity.
Defined.

(** ** Patches and the loss, beyond the claims *)

Lemma lookup_bind_const {A B} (f : A → list B) (l : list A) (n i j : nat) (x : A) :
  (∀ y, y ∈ l → length (f y) = n) → l !! i = Some x → j < n →
  (l ≫= f) !! (i * n + j) = f x !! j.
Proof.
  revert i. induction l as [|y l IH]; intros i Hf Hi Hj; [done|].
  cbn. destruct i as [|i].
  - injection Hi as ->. rewrite lookup_app_l; [done|]. rewrite Hf by left. lia.
  - rewrite lookup_app_r by (rewrite Hf by left; lia).
    rewrite Hf by left. replace (S i * n + j - n) with (i * n + j) by lia.
    apply IH; [|done|done]. intros z Hz. apply Hf. by right.
Qed.

Lemma lookup_bind_seq {B} (f : nat → list B) (m n i j : nat) :
  (∀ y, length (f y) = n) → i < m → j < n →
  (seq 0 m ≫= f) !! (i * n + j) = f i !! j.
Proof.
  intros Hf Hi Hj. apply lookup_bind_const; [auto| |done].
  by rewrite lookup_seq_lt.
Qed.

Lemma patch_rows_lookup (p : nat) (img : list (list (list R))) (h w c i j : nat) :
  h < size1 img / p → w < size2 img / p → c < length img → i < p → j < p →
  ClayMAE.patch_rows p img !! (h * (size2 img / p) + w)
    ≫= (.!! ((c * p + i) * p + j))
  = Some (((img !!! c) !!! (h * p + i)) !!! (w * p + j)).
Proof.
  intros Hh Hw Hc Hi Hj. unfold ClayMAE.patch_rows.
  rewrite (lookup_bind_seq _ _ (size2 img / p)); [|intros h'|done|done].
  2:{ rewrite (length_bind_const _ _ 1); [rewrite length_seq; lia|done]. }
  replace w with (w * 1 + 0) at 1 by lia.
  rewrite (lookup_bind_seq _ _ 1); [|done|done|lia].
  cbn [lookup list_lookup mbind option_bind].
  replace ((c * p + i) * p + j) with (c * (p * p) + (i * p + j)) by lia.
  rewrite (lookup_bind_seq _ _ (p * p)); [|intros c'|done|nia].
  2:{ rewrite (length_bind_const _ _ p); [by rewrite length_seq|].
      intros i' _. rewrite (length_bind_const _ _ 1); [rewrite length_seq; lia|done]. }
  rewrite (lookup_bind_seq _ _ p); [|intros i'|done|done].
  2:{ rewrite (length_bind_const _ _ 1); [rewrite length_seq; lia|done]. }
  replace j with (j * 1 + 0) at 1 by lia.
  rewrite (lookup_bind_seq _ _ 1); [|done|done|lia].
  done.
Qed.

(** X11: the layout of the patches that the loss compares with the
    reconstruction.  When [patchify] returns, patch [h * (W / p) + w] (the
    grid in row-major order) holds at position [(c * p + i) * p + j] (channel
    by channel, each channel row by row) the pixel of channel [c] at row
    [h * p + i] and column [w * p + j] of the image. *)
Theorem patchify_layout (p : nat) (img : list (list (list R))) (patches : tensor2) :
  ClayMAE.patchify p img = Ok patches →
  let C := length img in
  let H := size1 img in
  let W := size2 img in
  length patches = (H / p) * (W / p) ∧
  ∀ h w c i j, h < H / p → w < W / p → c < C → i < p → j < p →
    ∃ x : R, (img !! c ≫= (.!! (h * p + i))) ≫= (.!! (w * p + j)) = Some x ∧
         patches !! (h * (W / p) + w) ≫= (.!! ((c * p + i) * p + j)) = Some x.
Proof.
  unfold ClayMAE.patchify. destruct (decide _) as [(Hp & HH & HW & Himg)|]; [|done].
  intros [= <-].
  set (C := length img) in *. set (H := size1 img) in *. set (W := size2 img) in *.
  split.
  { unfold ClayMAE.patch_rows. fold H W.
    rewrite (length_bind_const _ _ (W / p)); [by rewrite length_seq|].
    intros h _. rewrite (length_bind_const _ _ 1); [rewrite length_seq; lia|done]. }
  intros h w c i j Hh Hw Hc Hi Hj.
  eexists. split; [|by apply patch_rows_lookup].
  destruct Himg as [_ Himg].
  destruct (lookup_lt_is_Some_2 img c Hc) as [m Hm].
  rewrite Forall_lookup in Himg. destruct (Himg _ _ Hm) as [Hlen Hrows].
  pose proof (Nat.div_mod H p Hp) as HdH. pose proof (Nat.div_mod W p Hp) as HdW.
  assert (h * p + i < H) as Hrow by nia.
  assert (w * p + j < W) as Hcol by nia.
  destruct (lookup_lt_is_Some_2 m (h * p + i)) as [r Hr]; [lia|].
  rewrite Forall_lookup in Hrows. pose proof (Hrows _ _ Hr) as Hlenr.
  destruct (lookup_lt_is_Some_2 r (w * p + j)) as [x Hx]; [lia|].
  rewrite Hm. cbn. rewrite Hr. cbn. rewrite Hx.
  by rewrite (list_lookup_total_correct _ _ _ Hm), (list_lookup_total_correct _ _ _ Hr),
    (list_lookup_total_correct _ _ _ Hx).
Qed.

Lemma patchify_layout_witness :
  let img : list (list (list R)) := [[[1; 2]; [3; 4]]; [[5; 6]; [7; 8]]]%R in
  let patches : tensor2 := [[1; 5]; [2; 6]; [3; 7]; [4; 8]]%R in
  length patches = (2 / 1) * (2 / 1) ∧
  ∀ h w c i j, h < 2 / 1 → w < 2 / 1 → c < 2 → i < 1 → j < 1 →
    ∃ x : R, (img !! c ≫= (.!! (h * 1 + i))) ≫= (.!! (w * 1 + j)) = Some x ∧
         patches !! (h * (2 / 1) + w) ≫= (.!! ((c * 1 + i) * 1 + j)) = Some x.
Proof.
  apply (patchify_layout 1 [[[1; 2]; [3; 4]]; [[5; 6]; [7; 8]]]%R
           [[1; 5]; [2; 6]; [3; 7]; [4; 8]]%R).
  unfold ClayMAE.patchify. rewrite decide_True; [reflexivity|].
  repeat split; try done; repeat constructor.
Defined.

(** X12: a cube whose height or width is not a multiple of the patch size
    cannot be cut into patches: the loss raises the [EinopsError] of
    [rearrange], whatever the reconstruction and the mask. *)
Theorem per_pixel_loss_indivisible (self : ClayMAE.t) (cube : tensor4)
    (pixels : tensor3) (masked_matrix : tensor2) (B C H W : nat) :
  let p := ClayMAE.patch_size self in
  0 < p → 0 < B → 0 < C → 0 < H →
  shape4 cube B C H W →
  H `mod` p ≠ 0 ∨ W `mod` p ≠ 0 →
  ∃ msg, ClayMAE.per_pixel_loss self cube pixels masked_matrix
           = Raise (EinopsError msg).
Proof.
  intros p Hp HB HC HH Hcube Hmod.
  destruct (shape4_sizes cube B C H W HB HC HH Hcube) as (Hlen & H2 & H3).
  destruct cube as [|img cube]; [cbn in Hlen; lia|].
  unfold size2, size3 in H2, H3. cbn [hd] in H2, H3.
  unfold ClayMAE.per_pixel_loss. fold p. cbn [mapM].
  assert (ClayMAE.patchify p img
          = Raise (EinopsError "Shape mismatch, can't divide axis")) as ->.
  { unfold ClayMAE.patchify. rewrite decide_False; [done|].
    fold (size2 img) in H3. rewrite H2, H3. intros (_ & ? & ? & _). lia. }
  cbn. eauto.
Qed.

Lemma per_pixel_loss_indivisible_witness :
  ∃ msg, ClayMAE.per_pixel_loss (sample_model (3 # 4) 2)
           [[[[1; 2; 3]; [4; 5; 6]]]]%R [[[0; 0; 0; 0]]]%R [[1%R]]
           = Raise (EinopsError msg).
Proof.
  apply (per_pixel_loss_indivisible (sample_model (3 # 4) 2)
           [[[[1; 2; 3]; [4; 5; 6]]]]%R [[[0; 0; 0; 0]]]%R [[1%R]] 1 1 2 3);
    [cbn; lia | lia | lia | lia | solve_shape | right; cbn; lia].
Defined.

Lemma sum1_nonneg (l : tensor1) : Forall (λ x, 0 <= x)%R l → (0 <= sum1 l)%R.
Proof.
  induction 1 as [|x l Hx _ IH]; [unfold sum1; cbn; lra|].
  rewrite sum1_cons. lra.
Qed.




Lemma patch_error_same (v : tensor1) : patch_error v v = 0%R.
Proof.
  unfold patch_error, mean1. rewrite sum1_zero; [by rewrite Rdiv_0_l|].
  apply Forall_lookup. intros i x Hx.
  apply lookup_zip_with_Some in Hx as (a & b & -> & Ha & Hb).
  assert (a = b) as -> by congruence. lra.
Qed.

Lemma Forall2_zip_with {A B C} (P : C → Prop) (g : A → B → C)
    (t : list (list A)) (u : list (list B)) :
  (∀ b l x y, t !! b ≫= (.!! l) = Some x → u !! b ≫= (.!! l) = Some y → P (g x y)) →
  Forall (Forall P) (zip_with (zip_with g) t u).
Proof.
  intros Hg. apply Forall_lookup. intros b row Hrow.
  apply lookup_zip_with_Some in Hrow as (r1 & r2 & -> & Hr1 & Hr2).
  apply Forall_lookup. intros l z Hz.
  apply lookup_zip_with_Some in Hz as (x & y & -> & Hx & Hy).
  apply (Hg b l); [by rewrite Hr1|by rewrite Hr2].
Qed.




(** X14: a reconstruction that equals the target patches (the patches of
    the cube, normalised when [norm_pix_loss] is set) has loss zero under
    every mask whose sum is not zero. *)
Theorem per_pixel_loss_perfect (self : ClayMAE.t) (cube : tensor4)
    (masked_matrix : tensor2) (B C H W : nat) :
  let p := ClayMAE.patch_size self in
  let L := (H / p) * (W / p) in
  0 < p → H `mod` p = 0 → W `mod` p = 0 → 0 < C → 0 < H →
  (ClayMAE.norm_pix_loss self = true → 2 ≤ C * p * p) →
  shape4 cube B C H W →
  shape2 masked_matrix B L →
  sum2 masked_matrix ≠ 0%R →
  ClayMAE.per_pixel_loss self cube (target_patches self cube) masked_matrix
    = Ok (Finite 0).
Proof.
  intros p L Hp HHp HWp HC HH _ Hcube Hmask Hsum.
  rewrite (per_pixel_loss_formula self cube B C H W); try done.
  2:{ by apply shape_target_patches. }
  rewrite sum2_zero.
  - unfold fdiv. destruct (Req_dec_T (sum2 masked_matrix) 0) as [|_]; [done|].
    by rewrite Rdiv_0_l.
  - apply Forall2_zip_with. intros b l e m He _.
    unfold per_patch_error in He. rewrite lookup2_zip_with in He.
    destruct (target_patches self cube !! b ≫= lookup l) as [t|]; [|done].
    cbn in He. injection He as <-. rewrite patch_error_same. lra.
Qed.

Lemma per_pixel_loss_perfect_witness :
  let self := sample_model (3 # 4) 1 in
  let cube : tensor4 := [[[[1; 2]; [3; 4]]]]%R in
  ClayMAE.per_pixel_loss self cube (target_patches self cube) [[0; 1; 0; 1]]%R
    = Ok (Finite 0).
Proof.
  apply (per_pixel_loss_perfect (sample_model (3 # 4) 1) [[[[1; 2]; [3; 4]]]]%R
           [[0; 1; 0; 1]]%R 1 1 2 2);
    [cbn; lia | reflexivity | reflexivity | lia | lia | discriminate
    | solve_shape | solve_shape
    | unfold sum2, sum1; cbn; lra].
Defined.

Lemma sum1_fmap_scale (f : R → R) (c : R) (l : tensor1) :
  sum1 ((λ x, f x * c)%R <$> l) = (sum1 (f <$> l) * c)%R.
Proof.
  induction l as [|x l IH]; cbn [fmap list_fmap].
  - unfold sum1. cbn. lra.
  - rewrite !sum1_cons, IH. lra.
Qed.

Lemma sum1_fmap_shift (m : R) (l : tensor1) :
  sum1 ((λ x, x - m)%R <$> l) = (sum1 l - INR (length l) * m)%R.
Proof.
  induction l as [|x l IH]; cbn [fmap list_fmap].
  - unfold sum1. cbn. lra.
  - rewrite !sum1_cons, IH. cbn [length]. rewrite S_INR. lra.
Qed.

Lemma var1_nonneg (u : tensor1) : 2 ≤ length u → (0 <= ClayMAE.var1 u)%R.
Proof.
  intros Hn. unfold ClayMAE.var1. apply Rle_mult_inv_pos.
  - apply sum1_nonneg, Forall_fmap, Forall_forall. intros x _.
    apply (Rle_0_sqr (x - mean1 u)).
  - assert (2 <= INR (length u))%R by (apply (le_INR 2); lia). lra.
Qed.

(** X15: with [norm_pix_loss], a target patch of at least two pixels is
    centred and rescaled: its mean becomes zero and its sample variance
    [var / (var + 1e-6)], which is below one. *)
Theorem normalise_mean_var (u : tensor1) :
  2 ≤ length u →
  length (ClayMAE.normalise u) = length u ∧
  mean1 (ClayMAE.normalise u) = 0%R ∧
  ClayMAE.var1 (ClayMAE.normalise u)
    = (ClayMAE.var1 u / (ClayMAE.var1 u + 1 / 1000000))%R ∧
  (0 <= ClayMAE.var1 (ClayMAE.normalise u) < 1)%R.
Proof.
  intros Hn.
  pose proof (var1_nonneg u Hn) as Hvar.
  set (v := ClayMAE.var1 u) in *.
  set (s := sqrt (v + 1 / 1000000)).
  assert (s * s = v + 1 / 1000000)%R as Hs by (apply sqrt_sqrt; lra).
  assert (s ≠ 0%R) as Hs0 by (intros Hz; rewrite Hz in Hs; lra).
  assert (2 <= INR (length u))%R as HnR by (apply (le_INR 2); lia).
  assert (length (ClayMAE.normalise u) = length u) as Hlen.
  { unfold ClayMAE.normalise. by rewrite length_fmap. }
  assert (mean1 (ClayMAE.normalise u) = 0%R) as Hmean.
  { unfold mean1 at 1. unfold ClayMAE.normalise. fold v. fold s.
    rewrite (sum1_fmap_scale (λ x, x - mean1 u)%R (/ s)), sum1_fmap_shift.
    unfold mean1. field. split; [lra|]. rewrite length_fmap. lra. }
  assert (ClayMAE.var1 (ClayMAE.normalise u) = v / (v + 1 / 1000000))%R as Hv.
  { unfold ClayMAE.var1 at 1. rewrite Hmean, Hlen.
    unfold ClayMAE.normalise. fold v. fold s. rewrite <-list_fmap_compose.
    erewrite list_fmap_ext.
    2:{ intros _ x _. unfold compose.
        instantiate (1 := λ x, ((x - mean1 u) * (x - mean1 u) * / (s * s))%R).
        cbn beta. field. done. }
    rewrite (sum1_fmap_scale (λ x, (x - mean1 u) * (x - mean1 u))%R (/ (s * s))).
    rewrite Hs.
    set (S := sum1 ((λ x, (x - mean1 u) * (x - mean1 u))%R <$> u)).
    transitivity (S / (INR (length u) - 1) / (v + 1 / 1000000))%R; [|reflexivity].
    clearbody S s v. field. split; lra. }
  split; [done|]. split; [done|]. split; [done|].
  rewrite Hv. split.
  - apply Rle_mult_inv_pos; lra.
  - apply (Rmult_lt_reg_r (v + 1 / 1000000)); [lra|].
    unfold Rdiv at 1. rewrite Rmult_assoc, Rinv_l by lra. lra.
Qed.

Lemma normalise_mean_var_witness :
  let u := [1; 2; 3; 4]%R in
  length (ClayMAE.normalise u) = length u ∧
  mean1 (ClayMAE.normalise u) = 0%R ∧
  ClayMAE.var1 (ClayMAE.normalise u)
    = (ClayMAE.var1 u / (ClayMAE.var1 u + 1 / 1000000))%R ∧
  (0 <= ClayMAE.var1 (ClayMAE.normalise u) < 1)%R.
Proof. apply (normalise_mean_var [1; 2; 3; 4]%R). cbn. lia. Defined.

(** ** The decoder, beyond the claims *)

(** What the tensor operations return, when they return. *)
Lemma zipM_Ok_rows {A B C} (f : A → B → result C) (l1 : list A) (l2 : list B)
    (k : list C) (i : nat) (z : C) :
  zipM f l1 l2 = Ok k → k !! i = Some z →
  ∃ x y, l1 !! i = Some x ∧ l2 !! i = Some y ∧ f x y = Ok z.
Proof.
  intros (Hlen & Hk & Hf)%zipM_Ok_inv Hz.
  pose proof (lookup_lt_Some _ _ _ Hz) as Hi.
  destruct (lookup_lt_is_Some_2 l1 i) as [x Hx]; [lia|].
  destruct (lookup_lt_is_Some_2 l2 i) as [y Hy]; [lia|].
  eauto 6.
Qed.

Lemma zipM_Ok_length {A B C} (f : A → B → result C) (l1 : list A) (l2 : list B)
    (k : list C) :
  zipM f l1 l2 = Ok k → length l1 = length l2 ∧ length k = length l1.
Proof. by intros (Hlen & Hk & _)%zipM_Ok_inv. Qed.

Lemma add1_Ok_inv (u v w : tensor1) :
  add1 u v = Ok w → length u = length v ∧ w = zip_with Rplus u v.
Proof.
  intros Hadd. pose proof (zipM_Ok_length _ _ _ _ Hadd) as [Hlen _].
  unfold add1 in Hadd. rewrite (zipM1_Ok _ Rplus) in Hadd by done.
  by injection Hadd as <-.
Qed.

Lemma add2_Ok_lookup (a b c : tensor2) (j : nat) (z : tensor1) :
  add2 a b = Ok c → c !! j = Some z →
  ∃ x y, a !! j = Some x ∧ b !! j = Some y ∧ z = zip_with Rplus x y.
Proof.
  intros Hadd Hz.
  destruct (zipM_Ok_rows _ _ _ _ _ _ Hadd Hz) as (x & y & Hx & Hy & Hxy).
  apply add1_Ok_inv in Hxy as [_ ->]. eauto.
Qed.

Lemma mapM_Ok_length {A B} (f : A → result B) (l : list A) (k : list B) :
  mapM f l = Ok k → length k = length l.
Proof. intros Hm%mapM_Ok_inv. symmetry. by eapply Forall2_length. Qed.

Lemma index_select_Ok_lookup {A} (t s : list (list A)) (indices : list (list nat))
    (b : nat) (sb : list A) :
  index_select t indices = Ok s → s !! b = Some sb →
  ∃ row idx, t !! b = Some row ∧ indices !! b = Some idx ∧
    length sb = length idx ∧
    ∀ j i, idx !! j = Some i → ∃ v, row !! i = Some v ∧ sb !! j = Some v.
Proof.
  intros Hsel Hsb.
  destruct (zipM_Ok_rows _ _ _ _ _ _ Hsel Hsb) as (row & idx & Hrow & Hidx & Hm).
  exists row, idx. split; [done|]. split; [done|].
  split; [by eapply mapM_Ok_length|].
  apply mapM_Ok_inv in Hm. intros j i Hi.
  destruct (Forall2_lookup_l _ _ _ _ _ Hm Hi) as (v & Hv & Hvi).
  exists v. split; [|done]. unfold from_lookup in Hvi.
  destruct (row !! i); [by injection Hvi as ->|done].
Qed.

Lemma foldl_Raise {A B} (f : result A → B → result A) (e : exception) (l : list B) :
  (∀ y, f (Raise e) y = Raise e) → foldl f (Raise e) l = Raise e.
Proof. intros Hf. induction l as [|y l IH]; cbn; [done|]. by rewrite Hf. Qed.

(** [row[idx] = src] on one sample with distinct indices: position
    [idx[j]] gets [src[j]], every other position keeps its row. *)
Lemma put_row_Ok_lookup (row : tensor2) (idx : list nat) (src r : tensor2) :
  put_row row idx src = Ok r → NoDup idx →
  length r = length row ∧ length idx = length src ∧
  (∀ j i, idx !! j = Some i → i < length row ∧ r !! i = src !! j) ∧
  (∀ i, i ∉ idx → r !! i = row !! i).
Proof.
  unfold put_row. destruct (decide _) as [Hlen|]; [|done].
  revert row src Hlen. induction idx as [|i idx IH]; intros row [|v src] Hlen;
    try done.
  - cbn. intros [= <-] _. repeat split; done.
  - cbn [zip zip_with foldl fst snd mbind result_bind].
    destruct (decide _) as [[Hi Hrows]|].
    2:{ rewrite foldl_Raise; done. }
    intros Hfold [Hni Hnd]%NoDup_cons.
    cbn in Hlen. injection Hlen as Hlen.
    destruct (IH (<[i:=v]> row) src Hlen Hfold Hnd) as (Hr & _ & Hin & Hout).
    rewrite length_insert in Hr, Hin.
    split; [done|]. split; [cbn; lia|]. split.
    + intros [|j] i' Hj; cbn in Hj.
      * injection Hj as <-. split; [done|]. rewrite (Hout i Hni). cbn.
        by apply list_lookup_insert_eq.
      * by apply Hin.
    + intros i' Hni'. rewrite Hout.
      * apply list_lookup_insert_ne. intros ->. apply Hni'. left.
      * intros ?. apply Hni'. by right.
Qed.

Lemma index_put_Ok_lookup (t t' : tensor3) (indices : list (list nat)) (src : tensor3)
    (b : nat) (r : tensor2) :
  index_put t indices src = Ok t' → t' !! b = Some r →
  ∃ row idx s, t !! b = Some row ∧ indices !! b = Some idx ∧ src !! b = Some s ∧
    put_row row idx s = Ok r.
Proof.
  unfold index_put. destruct (decide _) as [Hlen|]; [|done]. intros Hput Hr.
  destruct (zipM_Ok_rows _ _ _ _ _ _ Hput Hr) as (row & [idx s] & Hrow & Hy & Hp).
  apply lookup_zip_with_Some in Hy as (idx' & s' & [= <- <-] & Hidx & Hs).
  eauto 8.
Qed.

Lemma cat_dim1_Ok_lookup (a b c : tensor3) (i : nat) (z : tensor2) :
  cat_dim1 a b = Ok c → c !! i = Some z →
  ∃ x y, a !! i = Some x ∧ b !! i = Some y ∧ z = x ++ y.
Proof.
  intros Hcat Hz.
  destruct (zipM_Ok_rows _ _ _ _ _ _ Hcat Hz) as (x & y & Hx & Hy & Hxy).
  destruct (decide _) in Hxy; [|done]. injection Hxy as <-. eauto.
Qed.

Section decoder_values.
Context {E : Externals}.

(** X16: [reconstruct_and_add_encoding] puts every token back at the
    position it came from.  For a sample whose unmasked and masked indices
    are distinct, the row of patch [l] in the result is, behind the class
    token, the [j]-th unmasked token plus the encoding of position [l] when
    [l] is the [j]-th unmasked index, and the mask placeholder plus the
    encoding of position [l] when [l] is a masked index. *)
Theorem reconstruct_unshuffles (self self' : Decoder.t) (x out : tensor3)
    (ui mi : list (list nat)) (mm : tensor2) (time latlon : tensor2) (gsd0 : tensor) :
  Decoder.reconstruct_and_add_encoding self x ui mi mm time latlon gsd0
    = Ok (self', out) →
  let B := length mm in
  let L := size1 mm in
  ∃ pme : tensor3,
    (gsd00 ← index0 gsd0;
     pos ← posemb_sincos_2d_with_gsd (Nat.sqrt L) (Nat.sqrt L)
             (Z.of_nat (Decoder.dim self) - 8) gsd00;
     md ← encode_metadata time latlon true true;
     cat_last (replicate B pos) (replicate L <$> md)) = Ok pme ∧
    ∀ b ob u m, out !! b = Some ob → ui !! b = Some u → mi !! b = Some m →
      NoDup (u ++ m) →
      ∃ xb e_b rows,
        x !! b = Some xb ∧ pme !! b = Some e_b ∧
        ob = slice_to 1 xb ++ rows ∧ length rows = Nat.sqrt L ^ 2 ∧
        (∀ j l, u !! j = Some l →
           ∃ tok e, xb !! (1 + j) = Some tok ∧ e_b !! l = Some e ∧
                    rows !! l = Some (zip_with Rplus tok e)) ∧
        (∀ j l, m !! j = Some l →
           ∃ e, e_b !! l = Some e ∧
                rows !! l = Some (zip_with Rplus (Decoder.mask_patch self) e)).
Proof.
  intros Hrec B L. unfold Decoder.reconstruct_and_add_encoding in Hrec.
  fold B L in Hrec.
  apply bind_Ok_inv in Hrec as (gsd00 & Hgsd & Hrec).
  apply bind_Ok_inv in Hrec as (pos & Hpos & Hrec).
  apply bind_Ok_inv in Hrec as (md & Hmd & Hrec).
  apply bind_Ok_inv in Hrec as (pme & Hpme & Hrec).
  apply bind_Ok_inv in Hrec as (mp & Hmp & Hrec).
  apply bind_Ok_inv in Hrec as (me & Hme & Hrec).
  apply bind_Ok_inv in Hrec as (mp' & Hmp' & Hrec).
  apply bind_Ok_inv in Hrec as (ue & Hue & Hrec).
  apply bind_Ok_inv in Hrec as (un' & Hun' & Hrec).
  apply bind_Ok_inv in Hrec as (dp1 & Hdp1 & Hrec).
  apply bind_Ok_inv in Hrec as (dp2 & Hdp2 & Hrec).
  apply bind_Ok_inv in Hrec as (cat & Hcat & Hrec).
  injection Hrec as _ <-.
  cbn [Decoder.mask_ratio Decoder.dim Decoder.mask_patch Decoder.set_num_patches]
    in Hpos, Hmp, Hdp1.
  exists pme. split.
  { rewrite Hgsd. cbn [mbind result_bind]. rewrite Hpos. cbn [mbind result_bind].
    rewrite Hmd. cbn [mbind result_bind]. exact Hpme. }
  intros b ob u m Hob Hu Hm Hnd.
  apply NoDup_app in Hnd as (Hndu & Hdisj & Hndm).
  destruct (cat_dim1_Ok_lookup _ _ _ _ _ Hcat Hob) as (c & d2 & Hc & Hd2 & ->).
  rewrite list_lookup_fmap in Hc. apply fmap_Some in Hc as (xb & Hxb & ->).
  destruct (index_put_Ok_lookup _ _ _ _ _ _ Hdp2 Hd2)
    as (d1 & m' & mpb & Hd1 & Hm' & Hmpb & Hput2).
  destruct (index_put_Ok_lookup _ _ _ _ _ _ Hdp1 Hd1)
    as (z & u' & unb & Hz & Hu' & Hunb & Hput1).
  assert (m' = m) as -> by congruence. assert (u' = u) as -> by congruence.
  apply lookup_replicate in Hz as [-> _].
  destruct (put_row_Ok_lookup _ _ _ _ Hput1 Hndu) as (Hlen1 & Hlu & Hin1 & Hout1).
  destruct (put_row_Ok_lookup _ _ _ _ Hput2 Hndm) as (Hlen2 & Hlm & Hin2 & Hout2).
  rewrite length_replicate in Hlen1.
  destruct (zipM_Ok_rows _ _ _ _ _ _ Hun' Hunb) as (unb0 & ueb & Hunb0 & Hueb & Haddu).
  rewrite list_lookup_fmap, Hxb in Hunb0. injection Hunb0 as <-.
  destruct (index_select_Ok_lookup _ _ _ _ _ Hue Hueb)
    as (e_b & u'' & He_b & Hu'' & _ & Hselu).
  assert (u'' = u) as -> by congruence.
  destruct (zipM_Ok_rows _ _ _ _ _ _ Hmp' Hmpb) as (mpb0 & meb & Hmpb0 & Hmeb & Haddm).
  destruct (index_select_Ok_lookup _ _ _ _ _ Hme Hmeb)
    as (e_b' & m'' & He_b' & Hm'' & _ & Hselm).
  assert (m'' = m) as -> by congruence. assert (e_b' = e_b) as -> by congruence.
  assert (mpb0 = replicate (Z.to_nat (int (mul_float_int (Decoder.mask_ratio self) (Z.of_nat (Nat.sqrt L ^ 2))))) (Decoder.mask_patch self)) as ->.
  { destruct (_ <? _)%Z in Hmp; [done|]. injection Hmp as <-.
    by apply lookup_replicate in Hmpb0 as [-> _]. }
  exists xb, e_b, d2. split; [done|]. split; [done|]. split; [done|].
  split; [lia|]. split.
  - intros j l Hj.
    destruct (Hin1 j l Hj) as [_ Hd1l].
    destruct (Hselu j l Hj) as (e & He & Hej).
    destruct (lookup_lt_is_Some_2 unb j) as [zz Hzz].
    { apply lookup_lt_Some in Hj. lia. }
    destruct (add2_Ok_lookup _ _ _ _ _ Haddu Hzz) as (tok & e' & Htok & He' & ->).
    assert (e' = e) as -> by congruence.
    exists tok, e. split; [|split; [done|]].
    + unfold slice_from in Htok. rewrite lookup_drop in Htok.
      assert (xb ≠ []) as Hne by (intros ->; done).
      destruct xb as [|t0 xb]; [done|].
      change (length (t0 :: xb)) with (S (length xb)) in Htok.
      by rewrite slice_bound_1 in Htok.
    + rewrite Hout2, Hd1l; [done|]. apply Hdisj. by eapply list_elem_of_lookup_2.
  - intros j l Hj.
    destruct (Hin2 j l Hj) as [_ Hd2l].
    destruct (Hselm j l Hj) as (e & He & Hej).
    destruct (lookup_lt_is_Some_2 mpb j) as [zz Hzz].
    { apply lookup_lt_Some in Hj. lia. }
    destruct (add2_Ok_lookup _ _ _ _ _ Haddm Hzz) as (tok & e' & Htok & He' & ->).
    assert (e' = e) as -> by congruence.
    apply lookup_replicate in Htok as [-> _].
    exists e. split; [done|]. by rewrite Hd2l.
Qed.
End decoder_values.

Lemma reconstruct_unshuffles_witness :
  let self := Decoder.__init__ (H := sample_externals) (3 # 4) 1 8 8 1 1 1 2 in
  let x : tensor3 := [[[1; 1; 1; 1; 1; 1; 1; 1]; [2; 2; 2; 2; 2; 2; 2; 2]]]%R in
  let ui := [[3]] in
  let mi := [[0; 2; 1]] in
  let mm : tensor2 := [[1; 1; 1; 0]]%R in
  let time : tensor2 := [[0; 0]]%R in
  let latlon : tensor2 := [[0; 0]]%R in
  let gsd0 := Nested [Scalar 10%R] in
  ∃ self' out,
    Decoder.reconstruct_and_add_encoding (H := sample_externals) self x ui mi mm
      time latlon gsd0 = Ok (self', out) ∧
    ∃ pme : tensor3,
      (gsd00 ← index0 gsd0;
       pos ← posemb_sincos_2d_with_gsd (Externals := sample_externals)
               (Nat.sqrt 4) (Nat.sqrt 4) (Z.of_nat (Decoder.dim self) - 8) gsd00;
       md ← encode_metadata time latlon true true;
       cat_last (replicate 1 pos) (replicate 4 <$> md)) = Ok pme ∧
      ∀ b ob u m, out !! b = Some ob → ui !! b = Some u → mi !! b = Some m →
        NoDup (u ++ m) →
        ∃ xb e_b rows,
          x !! b = Some xb ∧ pme !! b = Some e_b ∧
          ob = slice_to 1 xb ++ rows ∧ length rows = Nat.sqrt 4 ^ 2 ∧
          (∀ j l, u !! j = Some l →
             ∃ tok e, xb !! (1 + j) = Some tok ∧ e_b !! l = Some e ∧
                      rows !! l = Some (zip_with Rplus tok e)) ∧
          (∀ j l, m !! j = Some l →
             ∃ e, e_b !! l = Some e ∧
                  rows !! l = Some (zip_with Rplus (Decoder.mask_patch self) e)).
Proof.
  intros self x ui mi mm time latlon gsd0. eexists _, _.
  split; [vm_compute; reflexivity|].
  refine (reconstruct_unshuffles (E := sample_externals) self
            (Decoder.set_num_patches self 4) x _ ui mi mm time latlon gsd0 _).
  reflexivity.
Defined.

(** ** Inputs the forward pass refuses *)

Section refused_inputs.
Context {E : Externals}.

Lemma decoder_forward_scalar_gsd (self : Decoder.t) (emb emb' : tensor3)
    (ui mi : list (list nat)) (mm : tensor2) (time latlon : tensor2)
    (gsd waves : tensor) (x : R) :
  index0 gsd = Ok (Scalar x) →
  Decoder.enc_to_dec self emb = Ok emb' →
  Decoder.forward self emb ui mi mm time latlon gsd waves
    = Raise (IndexError "invalid index of a 0-dim tensor").
Proof.
  intros Hgsd Henc. unfold Decoder.forward. rewrite Henc, Hgsd.
  cbn [mbind result_bind]. unfold Decoder.reconstruct_and_add_encoding.
  cbn [index0 mbind result_bind]. done.
Qed.

(** X17: the decoder indexes [gsd] twice, in [forward] and again in
    [reconstruct_and_add_encoding], the encoder once.  A [gsd] of rank one,
    whose first element is a number, is therefore accepted by the encoder
    and then makes the decoder raise [IndexError], so the forward pass of
    the model fails after the encoder has run. *)
Theorem forward_rank1_gsd (self : ClayMAE.t) (randn : nat → nat → Q)
    (datacube : Datacube.t) (x : R) (encoder : Encoder.t) (emb emb' : tensor3)
    (ui mi : list (list nat)) (mm : tensor2) :
  index0 (Datacube.gsd datacube) = Ok (Scalar x) →
  Encoder.forward (ClayMAE.encoder self) randn datacube = Ok (encoder, (emb, ui, mi, mm)) →
  Decoder.enc_to_dec (ClayMAE.decoder self) emb = Ok emb' →
  (∃ msg,
     Decoder.forward (ClayMAE.decoder self) emb ui mi mm (Datacube.time datacube)
       (Datacube.latlon datacube) (Datacube.gsd datacube) (Datacube.waves datacube)
     = Raise (IndexError msg)) ∧
  ∃ msg, ClayMAE.forward self randn datacube = Raise (IndexError msg).
Proof.
  intros Hgsd Henc Hlin.
  pose proof (decoder_forward_scalar_gsd (ClayMAE.decoder self) emb emb' ui mi mm
                (Datacube.time datacube) (Datacube.latlon datacube)
                (Datacube.gsd datacube) (Datacube.waves datacube) x Hgsd Hlin) as Hdec.
  split; [eauto|].
  unfold ClayMAE.forward. rewrite Henc. cbn [mbind result_bind].
  rewrite Hdec. cbn. eauto.
Qed.
End refused_inputs.

Lemma forward_rank1_gsd_witness :
  let d := sample_datacube 2 4 32 32 in
  let datacube :=
    Datacube.mk (Datacube.pixels d) (Datacube.time d) (Datacube.latlon d)
      (Nested [Scalar 10%R; Scalar 10%R]) (Datacube.waves d) in
  ∃ emb ui mi mm,
    (∃ encoder,
       Encoder.forward (H := sample_externals) (ClayMAE.encoder (sample_model (3 # 4) 16))
         sample_randn datacube = Ok (encoder, (emb, ui, mi, mm))) ∧
    (∃ msg,
       Decoder.forward (H := sample_externals) (ClayMAE.decoder (sample_model (3 # 4) 16))
         emb ui mi mm (Datacube.time datacube) (Datacube.latlon datacube)
         (Datacube.gsd datacube) (Datacube.waves datacube)
       = Raise (IndexError msg)) ∧
    ∃ msg, ClayMAE.forward (H := sample_externals) (sample_model (3 # 4) 16)
             sample_randn datacube = Raise (IndexError msg).
Proof.
  intros d datacube.
  destruct (encoder_forward_returns (E := sample_externals) (HE := sample_externals_spec)
              (ClayMAE.encoder (sample_model (3 # 4) 16)) sample_randn datacube
              2 4 32 32 (Nested (replicate 4 (Scalar 1%R))) (Scalar 10%R))
    as (patches & up & emb & ui & mi & mm & Henc & _);
    [by exists 4, 4, 48, 384%Z | cbn; lia | cbn; lia | lia | lia | lia | reflexivity
    | apply shape4_replicate | solve_shape | solve_shape | reflexivity | reflexivity |].
  exists emb, ui, mi, mm. split; [eauto|].
  eapply (forward_rank1_gsd (E := sample_externals) (sample_model (3 # 4) 16)
            sample_randn datacube 10%R); [reflexivity | exact Henc | reflexivity].
Defined.

Lemma mapM_Raise_hd {A B} (f : A → result B) (x : A) (l : list A) (e : exception) :
  f x = Raise e → mapM f (x :: l) = Raise e.
Proof. intros Hx. cbn. by rewrite Hx. Qed.

Section nonsquare.
Context {E : Externals} {HE : ExternalsSpec E}.

(** X18: only a square number of patches is supported.  When the number
    [L] of patches of a sample is not a perfect square, the position
    encoding has [int(sqrt(L)) ** 2] rows, fewer than the [L] rows of the
    repeated metadata, and concatenating the two raises [RuntimeError]:
    the encoder fails before masking. *)
Theorem encoder_forward_nonsquare (self : Encoder.t) (randn : nat → nat → Q)
    (datacube : Datacube.t) (B C H W : nat) (waves0 gsd0 : tensor) :
  let p := Encoder.patch_size self in
  let L := (H / p) * (W / p) in
  Encoder_built self →
  0 < p → 8 ≤ Encoder.dim self → 0 < B → 0 < C → 0 < H →
  Nat.sqrt L ^ 2 ≠ L →
  shape4 (Datacube.pixels datacube) B C H W →
  shape2 (Datacube.time datacube) B 2 →
  shape2 (Datacube.latlon datacube) B 2 →
  index0 (Datacube.gsd datacube) = Ok gsd0 →
  index0 (Datacube.waves datacube) = Ok waves0 →
  ∃ msg, Encoder.forward self randn datacube = Raise (RuntimeError msg).
Proof.
  intros p L Hbuilt Hp Hd HB HC HH HL Hpixels Htime Hlatlon Hgsd Hwaves.
  destruct Hbuilt as (depth & heads & dim_head & mlp_dim & Hemb & Htr & Hcls).
  unfold Encoder.forward. rewrite Hwaves. cbn [mbind result_bind].
  unfold Encoder.to_patch_embed. rewrite Hemb.
  destruct (encode_shape 128 128 p (Encoder.dim self) (Datacube.pixels datacube) waves0
              B C H W Hp HC HH Hpixels) as (patches & we & Henc & Hpatches).
  fold p. rewrite Henc. cbn [mbind result_bind].
  unfold Encoder.add_encodings.
  destruct (shape3_size1 _ _ _ _ HB Hpatches) as [-> ->]. fold L.
  rewrite Hgsd. cbn [mbind result_bind Encoder.dim Encoder.set_num_patches].
  destruct (posemb_shape (Nat.sqrt L) (Nat.sqrt L) (Z.of_nat (Encoder.dim self) - 8) gsd0)
    as (pos & -> & [Hpos _]); [lia|].
  cbn [mbind result_bind].
  destruct (encode_metadata_returns _ _ B Htime Hlatlon) as (md & -> & [Hmd _]).
  cbn [mbind result_bind].
  assert (∃ msg, cat_last (replicate B pos) (replicate L <$> md) = Raise (RuntimeError msg))
    as [msg ->]; [|cbn; eauto].
  unfold cat_last. unfold zipM at 1.
  rewrite decide_True by (by rewrite length_fmap, length_replicate).
  destruct B as [|B]; [lia|]. destruct md as [|m md]; [done|].
  cbn [replicate fmap list_fmap zip zip_with].
  eexists. apply mapM_Raise_hd. cbn [fst snd]. unfold zipM.
  rewrite decide_False; [done|]. rewrite length_replicate, Hpos.
  rewrite Nat.pow_2_r in HL. done.
Qed.
End nonsquare.

Lemma encoder_forward_nonsquare_witness :
  ∃ msg,
    Encoder.forward (H := sample_externals) (ClayMAE.encoder (sample_model (3 # 4) 16))
      sample_randn (sample_datacube 2 4 32 48) = Raise (RuntimeError msg).
Proof.
  apply (encoder_forward_nonsquare (E := sample_externals) (HE := sample_externals_spec)
           (ClayMAE.encoder (sample_model (3 # 4) 16)) sample_randn
           (sample_datacube 2 4 32 48) 2 4 32 48
           (Nested (replicate 4 (Scalar 1%R))) (Nested [Scalar 10%R]));
    [by exists 4, 4, 48, 384%Z | cbn; lia | cbn; lia | lia | lia | lia
    | vm_compute; lia | apply shape4_replicate | solve_shape | solve_shape
    | reflexivity | reflexivity].
Defined.

(** ** The loss of a training step *)

Section masked_loss.
Context {E : Externals} {HE : ExternalsSpec E}.
Variables (mask_ratio : Q) (p : nat) (norm_pix_loss : bool).
Variables (randn : nat → nat → Q) (datacube : Datacube.t).
Variables (B C H W : nat) (waves0 gsd0 gsd00 : tensor).
Let L := (H / p) * (W / p).
Hypothesis Hk : (1 ≤ Encoder.num_masked mask_ratio L ≤ Z.of_nat L)%Z.
Hypothesis Hp : 0 < p.
Hypothesis HHp : H `mod` p = 0.
Hypothesis HWp : W `mod` p = 0.
Hypothesis HB : 0 < B.
Hypothesis HC : 0 < C.
Hypothesis HH : 0 < H.
Hypothesis HL : Nat.sqrt L ^ 2 = L.
Hypothesis Hpixels : shape4 (Datacube.pixels datacube) B C H W.
Hypothesis Htime : shape2 (Datacube.time datacube) B 2.
Hypothesis Hlatlon : shape2 (Datacube.latlon datacube) B 2.
Hypothesis Hgsd : index0 (Datacube.gsd datacube) = Ok gsd0.
Hypothesis Hgsd0 : index0 gsd0 = Ok gsd00.
Hypothesis Hwaves : index0 (Datacube.waves datacube) = Ok waves0.
Hypothesis HN : tensor_length waves0 = C.

(** With at least one masked patch per sample the forward pass returns
    the masked mean of the per-patch errors of the decoder's
    reconstruction, and the divisor is the number of masked patches of the
    batch. *)
Lemma masked_forward_loss :
  let model := clay_mae_tiny mask_ratio p norm_pix_loss in
  ∃ enc emb ui mi mm dec pixels wv model',
    Encoder.forward (ClayMAE.encoder model) randn datacube
      = Ok (enc, (emb, ui, mi, mm)) ∧
    Decoder.forward (ClayMAE.decoder model) emb ui mi mm (Datacube.time datacube)
      (Datacube.latlon datacube) (Datacube.gsd datacube) (Datacube.waves datacube)
      = Ok (dec, (pixels, wv)) ∧
    sum2 mm = INR (B * Z.to_nat (Encoder.num_masked mask_ratio L)) ∧
    ClayMAE.forward model randn datacube
      = Ok (model',
            fdiv (sum2 (zip_with (zip_with Rmult)
                          (per_patch_error model (Datacube.pixels datacube) pixels) mm))
                 (sum2 mm)).
Proof.
  intros model.
  destruct (tiny_forward_shapes mask_ratio p norm_pix_loss true randn datacube B C H W
              waves0 gsd0 gsd00 ltac:(fold L; lia))
    as (patches & up & emb & ui & mi & mm & pixels & wv & Henc & Hps & Hmask & _ & _
        & _ & Hmm & Hdec & Hpx); try done.
  fold L in Henc, Hps, Hmask, Hdec, Hpx, Hmm.
  destruct (mask_out_mask_sums
              (Encoder.set_num_patches
                 (ClayMAE.encoder
                    (ClayMAE.train (clay_mae_tiny mask_ratio p norm_pix_loss) true)) L)
              randn patches up ui mi mm B L 192 L Hps eq_refl Hmask)
    as (Hpos & _ & Hsum).
  cbn [Encoder.mask_ratio Encoder.set_num_patches ClayMAE.encoder ClayMAE.train
       clay_mae_tiny ClayMAE.__init__ Encoder.set_training Encoder.__init__] in Hsum.
  rewrite slice_bound_nonneg in Hsum by lia.
  change (ClayMAE.encoder (ClayMAE.train (clay_mae_tiny mask_ratio p norm_pix_loss) true))
    with (ClayMAE.encoder model) in Henc.
  change (ClayMAE.decoder (ClayMAE.train (clay_mae_tiny mask_ratio p norm_pix_loss) true))
    with (ClayMAE.decoder model) in Hdec.
  eexists _, emb, ui, mi, mm, _, pixels, wv, _.
  split; [exact Henc|]. split; [exact Hdec|]. split; [exact Hsum|].
  unfold ClayMAE.forward. rewrite Henc. cbn [mbind result_bind].
  rewrite Hdec. cbn [mbind result_bind].
  rewrite HN in Hpx.
  rewrite (per_pixel_loss_formula model (Datacube.pixels datacube) B C H W) by done.
  done.
Qed.
End masked_loss.

(** X19: when between one and all [L] patches of a sample are masked
    ([1 <= int(mask_ratio * L) <= L]), the training step of the tiny model
    on a well-shaped datacube returns the masked mean: the sum of the
    per-patch errors of the decoder's reconstruction weighted by the mask
    that the encoder returned, divided by the sum of that mask; that sum
    is [B * int(mask_ratio * L)] and not zero, so the division is not the
    [0 / 0] of an empty mask. *)
Theorem training_step_masked_mean {E : Externals} {HE : ExternalsSpec E}
    (mask_ratio : Q) (p : nat) (norm_pix_loss : bool) (lr wd b1 b2 : Q)
    (embeddings_level : string) (randn : nat → nat → Q) (datacube : Datacube.t)
    (batch_idx : nat) (B C H W : nat) (waves0 gsd0 gsd00 : tensor) :
  (1 ≤ Encoder.num_masked mask_ratio ((H / p) * (W / p))
     ≤ Z.of_nat ((H / p) * (W / p)))%Z →
  0 < p → H `mod` p = 0 → W `mod` p = 0 → 0 < B → 0 < C → 0 < H →
  Nat.sqrt ((H / p) * (W / p)) ^ 2 = (H / p) * (W / p) →
  (norm_pix_loss = true → 2 ≤ C * p * p) →
  shape4 (Datacube.pixels datacube) B C H W →
  shape2 (Datacube.time datacube) B 2 →
  shape2 (Datacube.latlon datacube) B 2 →
  index0 (Datacube.gsd datacube) = Ok gsd0 → index0 gsd0 = Ok gsd00 →
  index0 (Datacube.waves datacube) = Ok waves0 → tensor_length waves0 = C →
  ∃ self self' enc emb ui mi mm dec pixels wv,
    ClayMAEModule.__init__ "tiny" mask_ratio norm_pix_loss p lr wd b1 b2 embeddings_level
      = Ok self ∧
    Encoder.forward (ClayMAE.encoder (ClayMAEModule.model self)) randn datacube
      = Ok (enc, (emb, ui, mi, mm)) ∧
    Decoder.forward (ClayMAE.decoder (ClayMAEModule.model self)) emb ui mi mm
      (Datacube.time datacube) (Datacube.latlon datacube) (Datacube.gsd datacube)
      (Datacube.waves datacube)
      = Ok (dec, (pixels, wv)) ∧
    sum2 mm = INR (B * Z.to_nat (Encoder.num_masked mask_ratio ((H / p) * (W / p)))) ∧
    sum2 mm ≠ 0%R ∧
    ClayMAEModule.training_step self randn datacube batch_idx
      = Ok (self',
            fdiv (sum2 (zip_with (zip_with Rmult)
                          (per_patch_error (ClayMAEModule.model self)
                             (Datacube.pixels datacube) pixels) mm))
                 (sum2 mm)).
Proof.
  intros Hk Hp HHp HWp HB HC HH HL _ Hpx Ht Hl Hg Hg0 Hw HN.
  destruct (masked_forward_loss mask_ratio p norm_pix_loss randn datacube B C H W
              waves0 gsd0 gsd00 Hk Hp HHp HWp HB HC HH HL Hpx Ht Hl Hg Hg0 Hw HN)
    as (enc & emb & ui & mi & mm & dec & pixels & wv & model' & Henc & Hdec & Hsum
        & Hfwd).
  eexists _, _, enc, emb, ui, mi, mm, dec, pixels, wv.
  split; [apply init_tiny|]. cbn [ClayMAEModule.model].
  split; [exact Henc|]. split; [exact Hdec|]. split; [exact Hsum|].
  split; [rewrite Hsum; apply not_0_INR; nia|].
  unfold ClayMAEModule.training_step, ClayMAEModule.shared_step, ClayMAEModule.forward.
  cbn [ClayMAEModule.model]. rewrite Hfwd. done.
Qed.

Lemma training_step_masked_mean_witness :
  ∃ self self' enc emb ui mi mm dec pixels wv,
    ClayMAEModule.__init__ (H := sample_externals) "tiny" (3 # 4) false 16
      ClayMAEModule.default_lr ClayMAEModule.default_wd ClayMAEModule.default_b1
      ClayMAEModule.default_b2 "mean" = Ok self ∧
    Encoder.forward (H := sample_externals) (ClayMAE.encoder (ClayMAEModule.model self)) sample_randn
      (sample_datacube 2 4 32 32) = Ok (enc, (emb, ui, mi, mm)) ∧
    Decoder.forward (H := sample_externals) (ClayMAE.decoder (ClayMAEModule.model self)) emb ui mi mm
      (Datacube.time (sample_datacube 2 4 32 32))
      (Datacube.latlon (sample_datacube 2 4 32 32))
      (Datacube.gsd (sample_datacube 2 4 32 32))
      (Datacube.waves (sample_datacube 2 4 32 32))
      = Ok (dec, (pixels, wv)) ∧
    sum2 mm = INR (2 * Z.to_nat (Encoder.num_masked (3 # 4) ((32 / 16) * (32 / 16)))) ∧
    sum2 mm ≠ 0%R ∧
    ClayMAEModule.training_step (H := sample_externals) self sample_randn
      (sample_datacube 2 4 32 32) 0
      = Ok (self',
            fdiv (sum2 (zip_with (zip_with Rmult)
                          (per_patch_error (ClayMAEModule.model self)
                             (Datacube.pixels (sample_datacube 2 4 32 32)) pixels) mm))
                 (sum2 mm)).
Proof.
  apply (training_step_masked_mean (E := sample_externals) (HE := sample_externals_spec)
           (3 # 4) 16 false ClayMAEModule.default_lr ClayMAEModule.default_wd
           ClayMAEModule.default_b1 ClayMAEModule.default_b2 "mean" sample_randn
           (sample_datacube 2 4 32 32) 0 2 4 32 32
           (Nested (replicate 4 (Scalar 1%R))) (Nested [Scalar 10%R]) (Scalar 10%R));
    [vm_compute; split; discriminate | lia | reflexivity | reflexivity | lia | lia
    | lia | reflexivity | discriminate | apply shape4_replicate | solve_shape | solve_shape
    | reflexivity | reflexivity | reflexivity | reflexivity].
Defined.

(** ** The encoder as [predict_step] calls it *)

Section predict_encoder.
Context {E : Externals} {HE : ExternalsSpec E}.
Variables (self : Encoder.t) (randn : nat → nat → Q) (datacube : Datacube.t).
Variables (B C H W : nat) (waves0 gsd0 : tensor).
Let p := Encoder.patch_size self.
Let d := Encoder.dim self.
Let L := (H / p) * (W / p).
Hypothesis Hbuilt : Encoder_built self.
Hypothesis Hp : 0 < p.
Hypothesis Hd : 8 ≤ d.
Hypothesis HB : 0 < B.
Hypothesis HC : 0 < C.
Hypothesis HH : 0 < H.
Hypothesis HL : Nat.sqrt L ^ 2 = L.
Hypothesis Hpixels : shape4 (Datacube.pixels datacube) B C H W.
Hypothesis Htime : shape2 (Datacube.time datacube) B 2.
Hypothesis Hlatlon : shape2 (Datacube.latlon datacube) B 2.
Hypothesis Hgsd : index0 (Datacube.gsd datacube) = Ok gsd0.
Hypothesis Hwaves : index0 (Datacube.waves datacube) = Ok waves0.

(** With [mask_ratio = 0.0], as [predict_step] sets it, the encoder
    masks nothing. *)
Lemma unmasked_encoder_forward :
  ∃ emb ui mi mm,
    Encoder.forward (Encoder.set_mask_ratio self 0) randn datacube
      = Ok (Encoder.set_num_patches (Encoder.set_mask_ratio self 0) L,
            (emb, ui, mi, mm)) ∧
    shape3 emb B (1 + L) d ∧
    mi = replicate B [] ∧ mm = replicate B (replicate L 0%R) ∧
    length ui = B ∧
    (∀ b u, ui !! b = Some u → u ≡ₚ seq 0 L) ∧
    (Encoder.training self = false → ui = replicate B (seq 0 L)).
Proof.
  assert (Encoder_built (Encoder.set_mask_ratio self 0)) as Hbuilt0.
  { destruct Hbuilt as (depth & heads & dh & mlp & ? & ? & ?).
    by exists depth, heads, dh, mlp. }
  destruct (encoder_forward_returns (Encoder.set_mask_ratio self 0) randn datacube
              B C H W waves0 gsd0 Hbuilt0 Hp Hd HB HC HH HL Hpixels Htime Hlatlon
              Hgsd Hwaves)
    as (patches & up & emb & ui & mi & mm & Henc & Hps & Hmask & Hemb & Hui & _ & _).
  cbn [Encoder.set_mask_ratio Encoder.patch_size Encoder.dim Encoder.mask_ratio]
    in Henc, Hps, Hmask, Hemb, Hui.
  fold p d L in Henc, Hps, Hmask, Hemb, Hui.
  rewrite num_masked_zero in Hemb, Hui.
  rewrite slice_bound_nonneg in Hemb, Hui by lia.
  change (Z.to_nat 0) with 0 in Hemb, Hui. rewrite Nat.sub_0_r in Hemb, Hui.
  set (enc := Encoder.set_num_patches (Encoder.set_mask_ratio self 0) L) in *.
  destruct (mask_out_ratio_zero enc randn patches B L d L up ui mi mm eq_refl HB Hps
              eq_refl Hmask) as [-> ->].
  exists emb, ui, (replicate B []), (replicate B (replicate L 0%R)).
  split; [exact Henc|]. split; [done|]. split; [done|]. split; [done|].
  split; [by destruct Hui|]. split.
  - intros b u Hu.
    destruct (mask_out_samples enc randn patches B L d L Hps eq_refl)
      as (up' & ui' & mi' & mm' & Hmask' & _ & _ & _ & Hrows).
    rewrite Hmask in Hmask'. injection Hmask' as <- <- _ _.
    destruct (Hrows b) as (q & _ & Hq & _ & Hu' & _).
    { apply lookup_lt_Some in Hu. destruct Hui. lia. }
    rewrite Hu in Hu'. injection Hu' as ->.
    unfold enc. cbn [Encoder.mask_ratio Encoder.set_num_patches Encoder.set_mask_ratio].
    rewrite num_masked_zero. unfold slice_from. rewrite slice_bound_nonneg by lia. done.
  - intros Htr.
    destruct (mask_out_eval enc randn patches B L d L Htr Hps eq_refl) as (up' & Hev).
    cbn zeta in Hev. rewrite Hmask in Hev. injection Hev as _ -> _ _.
    unfold enc. cbn [Encoder.mask_ratio Encoder.set_num_patches Encoder.set_mask_ratio].
    rewrite num_masked_zero, slice_bound_nonneg by lia.
    change (Z.to_nat 0) with 0. by rewrite Nat.sub_0_r.
Qed.
End predict_encoder.

(** X20: with the mask ratio set to zero, as [predict_step] sets it
    before it calls the encoder, no patch is masked: the embedding holds the
    class token and all [L] patches, the shuffle of every sample is still a
    permutation of all the patch indices, and in evaluation mode the patches
    stay in their original order. *)
Theorem predict_encoder_keeps_all_patches {E : Externals} {HE : ExternalsSpec E}
    (self : Encoder.t) (randn : nat → nat → Q) (datacube : Datacube.t)
    (B C H W : nat) (waves0 gsd0 : tensor) :
  let p := Encoder.patch_size self in
  let L := (H / p) * (W / p) in
  Encoder_built self →
  0 < p → 8 ≤ Encoder.dim self → 0 < B → 0 < C → 0 < H →
  Nat.sqrt L ^ 2 = L →
  shape4 (Datacube.pixels datacube) B C H W →
  shape2 (Datacube.time datacube) B 2 →
  shape2 (Datacube.latlon datacube) B 2 →
  index0 (Datacube.gsd datacube) = Ok gsd0 →
  index0 (Datacube.waves datacube) = Ok waves0 →
  ∃ encoder emb ui mi mm,
    Encoder.forward (Encoder.set_mask_ratio self 0) randn datacube
      = Ok (encoder, (emb, ui, mi, mm)) ∧
    shape3 emb B (1 + L) (Encoder.dim self) ∧
    mi = replicate B [] ∧ mm = replicate B (replicate L 0%R) ∧
    length ui = B ∧
    (∀ b u, ui !! b = Some u → u ≡ₚ seq 0 L) ∧
    (Encoder.training self = false → ui = replicate B (seq 0 L)).
Proof.
  intros p L Hbuilt Hp Hd HB HC HH HL Hpx Ht Hl Hg Hw.
  destruct (unmasked_encoder_forward self randn datacube B C H W waves0 gsd0 Hbuilt Hp Hd
              HB HC HH HL Hpx Ht Hl Hg Hw) as (emb & ui & mi & mm & Henc & Hrest).
  by exists (Encoder.set_num_patches (Encoder.set_mask_ratio self 0) L), emb, ui, mi, mm.
Qed.

Lemma predict_encoder_keeps_all_patches_witness :
  let self := Encoder.set_training (ClayMAE.encoder (sample_model (3 # 4) 16)) false in
  ∃ encoder emb ui mi mm,
    Encoder.forward (H := sample_externals) (Encoder.set_mask_ratio self 0) sample_randn
      (sample_datacube 2 4 32 32) = Ok (encoder, (emb, ui, mi, mm)) ∧
    shape3 emb 2 (1 + (32 / 16) * (32 / 16)) 192 ∧
    mi = replicate 2 [] ∧ mm = replicate 2 (replicate ((32 / 16) * (32 / 16)) 0%R) ∧
    length ui = 2 ∧
    (∀ b u, ui !! b = Some u → u ≡ₚ seq 0 ((32 / 16) * (32 / 16))) ∧
    (Encoder.training self = false → ui = replicate 2 (seq 0 ((32 / 16) * (32 / 16)))).
Proof.
  apply (predict_encoder_keeps_all_patches (E := sample_externals)
           (HE := sample_externals_spec)
           (Encoder.set_training (ClayMAE.encoder (sample_model (3 # 4) 16)) false)
           sample_randn (sample_datacube 2 4 32 32) 2 4 32 32
           (Nested (replicate 4 (Scalar 1%R))) (Nested [Scalar 10%R]));
    [by exists 4, 4, 48, 384%Z | cbn; lia | cbn; lia | lia | lia | lia | reflexivity
    | apply shape4_replicate | solve_shape | solve_shape | reflexivity | reflexivity].
Defined.

(** X21: the embedding that the encoder returns to [predict_step] never
    has the shape [(B, 256, 768)] that [predict_step] asserts, whatever
    [B] is: it holds the class token besides the [L] patches, [L] being a
    perfect square, and [1 + L = 256] has no such solution. *)
Theorem predict_shape_assertion_fails {E : Externals} {HE : ExternalsSpec E}
    (self : Encoder.t) (randn : nat → nat → Q) (datacube : Datacube.t)
    (B C H W : nat) (waves0 gsd0 : tensor) :
  let p := Encoder.patch_size self in
  let L := (H / p) * (W / p) in
  Encoder_built self →
  0 < p → 8 ≤ Encoder.dim self → 0 < B → 0 < C → 0 < H →
  Nat.sqrt L ^ 2 = L →
  shape4 (Datacube.pixels datacube) B C H W →
  shape2 (Datacube.time datacube) B 2 →
  shape2 (Datacube.latlon datacube) B 2 →
  index0 (Datacube.gsd datacube) = Ok gsd0 →
  index0 (Datacube.waves datacube) = Ok waves0 →
  ∃ encoder emb ui mi mm,
    Encoder.forward (Encoder.set_mask_ratio self 0) randn datacube
      = Ok (encoder, (emb, ui, mi, mm)) ∧
    ∀ n, ClayMAEModule.assert (bool_decide (shape3 emb n 256 768))
           = Raise AssertionError.
Proof.
  intros p L Hbuilt Hp Hd HB HC HH HL Hpx Ht Hl Hg Hw.
  destruct (unmasked_encoder_forward self randn datacube B C H W waves0 gsd0 Hbuilt Hp Hd
              HB HC HH HL Hpx Ht Hl Hg Hw) as (emb & ui & mi & mm & Henc & Hemb & _).
  eexists _, emb, ui, mi, mm. split; [exact Henc|].
  intros n. rewrite bool_decide_eq_false_2; [done|].
  intros Hn. fold p L in Hemb.
  destruct (shape3_size1 _ _ _ _ HB Hemb) as [Hlen Hsize].
  assert (0 < n) as Hn0 by (destruct Hn as [Hn _]; lia).
  destruct (shape3_size1 _ _ _ _ Hn0 Hn) as [_ Hsize'].
  assert (L = 255) as HL255 by lia.
  rewrite HL255 in HL. vm_compute in HL. discriminate.
Qed.

Lemma predict_shape_assertion_fails_witness :
  let self := ClayMAE.encoder (sample_model (3 # 4) 16) in
  ∃ encoder emb ui mi mm,
    Encoder.forward (H := sample_externals) (Encoder.set_mask_ratio self 0) sample_randn
      (sample_datacube 2 4 256 256) = Ok (encoder, (emb, ui, mi, mm)) ∧
    ∀ n, ClayMAEModule.assert (bool_decide (shape3 emb n 256 768))
           = Raise AssertionError.
Proof.
  apply (predict_shape_assertion_fails (E := sample_externals)
           (HE := sample_externals_spec)
           (ClayMAE.encoder (sample_model (3 # 4) 16))
           sample_randn (sample_datacube 2 4 256 256) 2 4 256 256
           (Nested (replicate 4 (Scalar 1%R))) (Nested [Scalar 10%R]));
    [by exists 4, 4, 48, 384%Z | cbn; lia | cbn; lia | lia | lia | lia | reflexivity
    | apply shape4_replicate | solve_shape | solve_shape | reflexivity | reflexivity].
Defined.

(** ** Which patches are masked *)

(** X22: the masked patches of a sample are those with the smallest
    scores: every masked index has a score that is at most the score of
    every unmasked index.  In training mode the score of patch [l] of
    sample [b] is the random draw [randn b l]. *)
Theorem mask_out_masks_smallest_scores (self : Encoder.t) (randn : nat → nat → Q)
    (patches up : tensor3) (ui mi : list (list nat)) (mm : tensor2) (B L D n : nat) :
  shape3 patches B L D →
  Encoder.num_patches self = Some n →
  Encoder.mask_out self randn patches = Ok (up, ui, mi, mm) →
  ∀ b m u i j, mi !! b = Some m → ui !! b = Some u → i ∈ m → j ∈ u →
    ∃ scores, Encoder.noise self randn B L !! b = Some scores ∧
      (scores !!! i <= scores !!! j)%Q ∧
      (Encoder.training self = true → scores !!! i = randn b i ∧ scores !!! j = randn b j).
Proof.
  intros Hshape Hn Hout b m u i j Hm Hu Hi Hj.
  destruct (mask_out_samples self randn patches B L D _ Hshape Hn)
    as (up' & ui' & mi' & mm' & Hout' & Hui & Hmi & Hmm & Hrows).
  rewrite Hout in Hout'. injection Hout' as <- <- <- <-.
  destruct (Hrows b) as (p & Hp & Hperm & Hm' & Hu' & _).
  { apply lookup_lt_Some in Hm. lia. }
  rewrite Hm in Hm'. injection Hm' as ->. rewrite Hu in Hu'. injection Hu' as ->.
  rewrite list_lookup_fmap in Hp. apply fmap_Some in Hp as (scores & Hscores & ->).
  exists scores. split; [done|]. split.
  - pose proof (Sorted_argsort_keys Qle scores) as Hsorted.
    apply (Sorted_StronglySorted _) in Hsorted.
    rewrite <-(slice_to_from (Encoder.num_masked (Encoder.mask_ratio self) n)
                 (argsort Qle scores)), fmap_app in Hsorted.
    eapply (StronglySorted_app_1_elem_of _ _ _ _ _ Hsorted).
    + by apply (list_elem_of_fmap_2 (λ l, scores !!! l)).
    + by apply (list_elem_of_fmap_2 (λ l, scores !!! l)).
  - intros Htr.
    assert (∀ l, l ∈ argsort Qle scores → scores !!! l = randn b l) as Hscore.
    { intros l Hl. rewrite Hperm in Hl. apply elem_of_seq in Hl.
      unfold Encoder.noise in Hscores. rewrite Htr, list_lookup_fmap in Hscores.
      apply fmap_Some in Hscores as (b' & Hb' & ->).
      apply lookup_seq in Hb' as [-> _].
      apply list_lookup_total_correct.
      rewrite list_lookup_fmap, lookup_seq_lt by lia. done. }
    split; apply Hscore.
    + apply elem_of_take in Hi as (? & ? & _). by eapply list_elem_of_lookup_2.
    + unfold slice_from in Hj. apply list_elem_of_lookup_1 in Hj as [a Ha].
      rewrite lookup_drop in Ha. by eapply list_elem_of_lookup_2.
Qed.

Lemma mask_out_masks_smallest_scores_witness :
  let self := Encoder.set_num_patches (sample_encoder (3 # 4)) 9 in
  ∃ scores, Encoder.noise self sample_randn 1 9 !! 0 = Some scores ∧
    (scores !!! 7%nat <= scores !!! 4%nat)%Q ∧
    (Encoder.training self = true →
     scores !!! 7 = sample_randn 0 7 ∧ scores !!! 4 = sample_randn 0 4).
Proof.
  apply (mask_out_masks_smallest_scores
           (Encoder.set_num_patches (sample_encoder (3 # 4)) 9)
           sample_randn (zeros3 1 9 1) [[[0%R]; [0%R]; [0%R]]] [[6; 4; 2]]
           [[0; 7; 5; 3; 1; 8]] [[1; 1; 0; 1; 0; 1; 0; 1; 1]%R] 1 9 1 9
           (shape3_zeros3 1 9 1) eq_refl ltac:(vm_compute; reflexivity)
           0 [0; 7; 5; 3; 1; 8] [6; 4; 2] 7 4 eq_refl eq_refl).
  - right. left.
  - right. left.
Defined.

(** ** A mask ratio above one *)

Section overmasked.
Context {E : Externals} {HE : ExternalsSpec E}.


End overmasked.


(** ** Normalised targets *)

(** X24: the [1e-6] under the square root keeps the normalisation of a
    constant patch defined: a patch of at least two equal pixels, whose
    variance is zero, is normalised to zeros. *)
Theorem normalise_constant (n : nat) (c : R) :
  2 ≤ n →
  ClayMAE.var1 (replicate n c) = 0%R ∧
  ClayMAE.normalise (replicate n c) = replicate n 0%R.
Proof.
  intros Hn.
  assert (2 <= INR n)%R as HnR by (apply (le_INR 2); lia).
  assert (mean1 (replicate n c) = c) as Hmean.
  { unfold mean1. rewrite (sum1_const _ c), length_replicate.
    - field. lra.
    - apply Forall_forall. by intros x ->%elem_of_replicate_inv. }
  assert (ClayMAE.var1 (replicate n c) = 0%R) as Hvar.
  { unfold ClayMAE.var1. rewrite Hmean, fmap_replicate, sum1_zero.
    - by rewrite Rdiv_0_l.
    - apply Forall_forall. intros x ->%elem_of_replicate_inv. lra. }
  split; [done|].
  unfold ClayMAE.normalise. rewrite Hmean, Hvar, fmap_replicate. f_equal.
  unfold Rdiv. lra.
Qed.

Lemma normalise_constant_witness :
  ClayMAE.var1 (replicate 4 7%R) = 0%R ∧
  ClayMAE.normalise (replicate 4 7%R) = replicate 4 0%R.
Proof. apply (normalise_constant 4 7%R). lia. Defined.

(** ** The end of the prediction loop *)

Lemma unique_cons_ne {A} `{EqDecision A} (x : A) (l : list A) : unique (x :: l) ≠ [].
Proof.
  unfold unique. cbn [foldl]. rewrite decide_False by (by intros ?%elem_of_nil).
  cbn [app].
  assert (∀ acc : list A, acc ≠ [] →
            foldl (λ acc x, if decide (x ∈ acc) then acc else acc ++ [x]) acc l ≠ [])
    as Hne; [|by apply Hne].
  induction l as [|y l IH]; intros acc Hacc; [done|].
  cbn [foldl]. apply IH. destruct (decide _); [done|]. by destruct acc.
Qed.

Lemma save_mgrs_code_NameError `{Tables} (gdf : GeoDataFrame)
    (mgrs_codes : list (option string)) (outfolder : string)
    (mgrs_code : option string) (log : list effect) :
  save_mgrs_code gdf mgrs_codes outfolder mgrs_code log
    = (log, Raises (NameError "name 're' is not defined")).
Proof. reflexivity. Qed.

(** X25: [on_predict_epoch_end] never writes a file.  Without
    predictions it prints a message and returns [None].  With predictions it
    concatenates them and creates the output directory; then, if the table
    has a row, the first pass through the loop over the MGRS codes evaluates
    the name [re], which the module never imports, and raises [NameError];
    only a table without rows is returned. *)
Theorem on_predict_epoch_end_never_saves `{Tables} (predictions : list GeoDataFrame)
    (data_dir default_root_dir : string) :
  let run := on_predict_epoch_end predictions data_dir default_root_dir [] in
  (∀ path, ToParquet path ∉ run.1) ∧
  (predictions = [] →
   run = ([Print ("No embeddings generated, possibly no GeoTIFF files in "
                  +:+ data_dir)], Returns None)) ∧
  (∀ e, predictions ≠ [] → pd_concat predictions = Raise e →
     run = ([], Raises (Exception e))) ∧
  (∀ gdf, predictions ≠ [] → pd_concat predictions = Ok gdf →
     run = ([Makedirs (default_root_dir +:+ "/data/embeddings")],
            if decide (source_url_column gdf = [])
            then Returns (Some gdf)
            else Raises (NameError "name 're' is not defined"))).
Proof.
  intros run.
  assert ((predictions = [] →
           run = ([Print ("No embeddings generated, possibly no GeoTIFF files in "
                          +:+ data_dir)], Returns None)) ∧
          (∀ e, predictions ≠ [] → pd_concat predictions = Raise e →
             run = ([], Raises (Exception e))) ∧
          (∀ gdf, predictions ≠ [] → pd_concat predictions = Ok gdf →
             run = ([Makedirs (default_root_dir +:+ "/data/embeddings")],
                    if decide (source_url_column gdf = [])
                    then Returns (Some gdf)
                    else Raises (NameError "name 're' is not defined"))))
    as (Hnone & Hraise & Hsome).
  { unfold run, on_predict_epoch_end. destruct predictions as [|g predictions].
    { split; [done|]. split; intros; done. }
    split; [done|]. split.
    - intros e _ He. unfold mbind, io_bind, lift. by rewrite He.
    - intros gdf _ Hgdf. unfold mbind at 1, io_bind at 1, lift. rewrite Hgdf.
      cbn [mret io_ret]. cbv zeta.
      unfold mbind at 1, io_bind at 1, perform. cbn [app].
      destruct (decide (source_url_column gdf = [])) as [->|Hne].
      + reflexivity.
      + destruct (source_url_column gdf) as [|url urls]; [done|].
        cbn [fmap list_fmap].
        destruct (unique _) as [|code codes] eqn:Hu.
        { by apply unique_cons_ne in Hu. }
        unfold mbind at 1, io_bind at 1. cbn [for_each].
        unfold mbind at 1, io_bind at 1. by rewrite save_mgrs_code_NameError. }
  split; [|done].
  intros path Hin.
  destruct predictions as [|g predictions].
  { rewrite Hnone in Hin by done. cbn in Hin.
    by apply list_elem_of_singleton in Hin. }
  destruct (pd_concat (g :: predictions)) as [gdf|e] eqn:Hc.
  - rewrite (Hsome gdf) in Hin by done. cbn in Hin.
    by apply list_elem_of_singleton in Hin.
  - rewrite (Hraise e) in Hin by done. cbn in Hin. by apply elem_of_nil in Hin.
Qed.

Lemma on_predict_epoch_end_never_saves_witness :
  let run :=
    on_predict_epoch_end (H0 := sample_tables) [tt; tt] "data/files" "/tmp/run" [] in
  (∀ path, ToParquet path ∉ run.1) ∧
  run = ([Makedirs "/tmp/run/data/embeddings"],
         Raises (NameError "name 're' is not defined")).
Proof.
  pose proof (on_predict_epoch_end_never_saves (H0 := sample_tables) [tt; tt]
                "data/files" "/tmp/run") as (Hno & _ & _ & Hrun).
  split; [exact Hno|]. by apply (Hrun tt).
Defined.

(** ** Evaluation mode *)

Lemma mask_out_eval_randn (self : Encoder.t) (randn randn' : nat → nat → Q)
    (patches : tensor3) :
  Encoder.training self = false →
  Encoder.mask_out self randn patches = Encoder.mask_out self randn' patches.
Proof. intros Htr. unfold Encoder.mask_out, Encoder.noise. by rewrite Htr. Qed.

Section eval_mode.
Context {E : Externals}.

(** X26: in evaluation mode the forward pass draws nothing at random: the
    encoder, and with it the loss of the model, is the same whatever
    [torch.randn] would return, on every datacube (also when it raises). *)
Theorem forward_eval_deterministic (self : ClayMAE.t) (randn randn' : nat → nat → Q)
    (datacube : Datacube.t) :
  Encoder.training (ClayMAE.encoder self) = false →
  Encoder.forward (ClayMAE.encoder self) randn datacube
    = Encoder.forward (ClayMAE.encoder self) randn' datacube ∧
  ClayMAE.forward self randn datacube = ClayMAE.forward self randn' datacube.
Proof.
  intros Htr.
  assert (Encoder.forward (ClayMAE.encoder self) randn datacube
          = Encoder.forward (ClayMAE.encoder self) randn' datacube) as Henc.
  { unfold Encoder.forward.
    destruct (index0 (Datacube.waves datacube)) as [waves0|]; [|done].
    cbn [mbind result_bind].
    destruct (Encoder.to_patch_embed _ _ _) as [[patches we]|]; [|done].
    cbn [mbind result_bind].
    destruct (Encoder.add_encodings _ _ _ _ _) as [[self' patches']|] eqn:Hadd; [|done].
    cbn [mbind result_bind].
    apply add_encodings_num_patches in Hadd as ->.
    by rewrite (mask_out_eval_randn _ randn randn'). }
  split; [done|]. unfold ClayMAE.forward. by rewrite Henc.
Qed.
End eval_mode.

Lemma forward_eval_deterministic_witness :
  let self := ClayMAE.train (sample_model (3 # 4) 16) false in
  Encoder.forward (H := sample_externals) (ClayMAE.encoder self) sample_randn
    (sample_datacube 2 4 32 32)
    = Encoder.forward (H := sample_externals) (ClayMAE.encoder self) (λ _ _, 0%Q)
        (sample_datacube 2 4 32 32) ∧
  ClayMAE.forward (H := sample_externals) self sample_randn (sample_datacube 2 4 32 32)
    = ClayMAE.forward (H := sample_externals) self (λ _ _, 0%Q)
        (sample_datacube 2 4 32 32).
Proof.
  apply (forward_eval_deterministic (E := sample_externals)
           (ClayMAE.train (sample_model (3 # 4) 16) false)).
  reflexivity.
Defined.
